(** * Stock screener: 50-period EMA, qualification rule, report and CSV

    A shallow embedding of [src/mastra/tools/fetchStockData.ts] and
    [src/mastra/tools/generateStockCSV.ts].

    JavaScript numbers are IEEE 754 binary64 values; they are modelled by
    Rocq's primitive floats, which implement the same format with
    round-to-nearest-even.  The EMA routine is written once over a small
    interface of arithmetic operations, so that it can also be read over
    exact rational arithmetic. *)

From Stdlib Require Import ZArith QArith Qround Qabs Qpower Floats Lia Lqa Ascii String
  DecimalString.
From stdpp Require Import base option list gmap strings.

Local Open Scope Z_scope.

(** ** Numbers *)

(** The arithmetic used by [calculateEMA].  [n_nan] is the number that an
    [undefined] operand is coerced to. *)
Class Number (num : Type) := {
  n_add : num → num → num;
  n_sub : num → num → num;
  n_mul : num → num → num;
  n_div : num → num → num;
  n_ofZ : Z → num;
  n_nan : num
}.

(** The binary64 value of an integer: the integer rounded to nearest, ties
    to even, overflowing to an infinity. *)
Definition float_of_Z (z : Z) : float :=
  SF2Prim (binary_normalize prec emax z 0 false).

#[export] Instance float_number : Number float := {
  n_add := PrimFloat.add;
  n_sub := PrimFloat.sub;
  n_mul := PrimFloat.mul;
  n_div := PrimFloat.div;
  n_ofZ := float_of_Z;
  n_nan := nan
}.

(** Exact arithmetic: rationals extended with one not-a-number value
    ([None]), which division by zero and undefined operands produce. *)
Definition exact : Type := option Q.

Definition exact_lift (f : Q → Q → Q) (x y : exact) : exact :=
  match x, y with
  | Some a, Some b => Some (f a b)
  | _, _ => None
  end.

Definition exact_div (x y : exact) : exact :=
  match x, y with
  | Some a, Some b => if Qeq_bool b 0 then None else Some (Qdiv a b)
  | _, _ => None
  end.

#[export] Instance exact_number : Number exact := {
  n_add := exact_lift Qplus;
  n_sub := exact_lift Qminus;
  n_mul := exact_lift Qmult;
  n_div := exact_div;
  n_ofZ := λ z, Some (inject_Z z);
  n_nan := None
}.

(** ** Arrays *)

(** A JavaScript array that may have holes: its integer-keyed own
    properties and its [length].  The array indices are the integers from
    0 to 2^32 - 2.  A write at an array index at or beyond [length] extends
    the array; a write at any other integer key (a negative one, or one
    past the last array index) creates a plain property and leaves
    [length] alone. *)
Record jsarray (A : Type) := JsArray {
  props : gmap Z A;
  alength : Z
}.
Arguments JsArray {A} _ _.
Arguments props {A} _.
Arguments alength {A} _.

Definition arr_empty {A} : jsarray A := JsArray ∅ 0.

Definition arr_get {A} (a : jsarray A) (i : Z) : option A := props a !! i.

Definition max_length : Z := 4294967295.

Definition arr_set {A} (a : jsarray A) (i : Z) (v : A) : jsarray A :=
  JsArray (<[i := v]> (props a))
          (if decide (0 ≤ i < max_length) then Z.max (alength a) (i + 1) else alength a).

(** Reading a dense array ([number[]]) at an integer index; [None] is
    [undefined]. *)
Definition at_index {A} (l : list A) (i : Z) : option A :=
  if decide (0 ≤ i) then l !! Z.to_nat i else None.

(** [for (let i = lo; i < hi; i++) s = body i s] *)
Fixpoint for_from {S : Type} (n : nat) (i : Z) (body : Z → S → S) (s : S) : S :=
  match n with
  | O => s
  | Datatypes.S n' => for_from n' (i + 1) body (body i s)
  end.

Definition for_range {S : Type} (lo hi : Z) (body : Z → S → S) (s : S) : S :=
  for_from (Z.to_nat (hi - lo)) lo body s.

(** ** The EMA engine: [calculateEMA] *)

Section EMA.
Context {num : Type} `{Number num}.

(** ToNumber of an array read. *)
Definition to_number (o : option num) : num := default n_nan o.

Definition multiplier_of (period : Z) : num :=
  n_div (n_ofZ 2) (n_add (n_ofZ period) (n_ofZ 1)).

(** The body of the second loop: [(prices[i] - ema[i-1]) * multiplier + ema[i-1]]. *)
Definition ema_next (multiplier price prev : num) : num :=
  n_add (n_mul (n_sub price prev) multiplier) prev.

Definition ema_step (prices : list num) (multiplier : num) (i : Z)
    (ema : jsarray num) : jsarray num :=
  arr_set ema i
    (ema_next multiplier (to_number (at_index prices i))
                         (to_number (arr_get ema (i - 1)))).

Definition sum_step (prices : list num) (i : Z) (sum : num) : num :=
  n_add sum (to_number (at_index prices i)).

(** [calculateEMA(prices, period)].  The period is an integer, as in the
    one call of the batch (50); loop counters and indices are integers and
    their arithmetic is exact. *)
Definition calculateEMA (prices : list num) (period : Z) : jsarray num :=
  let ema := arr_empty in
  let multiplier := multiplier_of period in
  let bound := Z.min period (Z.of_nat (length prices)) in
  let sum := for_range 0 bound (sum_step prices) (n_ofZ 0) in
  let ema := arr_set ema (period - 1) (n_div sum (n_ofZ bound)) in
  for_range period (Z.of_nat (length prices)) (ema_step prices multiplier) ema.

(** Two views of [calculateEMA] used in the proofs: the value written at
    index [period - 1], and the array after [k] rounds of the second
    loop. *)
Definition seed (prices : list num) (period : Z) : num :=
  let bound := Z.min period (Z.of_nat (length prices)) in
  n_div (for_range 0 bound (sum_step prices) (n_ofZ 0)) (n_ofZ bound).

Definition ema_after (prices : list num) (period : Z) (k : nat) : jsarray num :=
  for_from k period (ema_step prices (multiplier_of period))
    (arr_set arr_empty (period - 1) (seed prices period)).

(** The arithmetic mean as the code computes it: a running sum from zero,
    left to right, divided by the count. *)
Definition mean (l : list num) : num :=
  n_div (foldl n_add (n_ofZ 0) l) (n_ofZ (Z.of_nat (length l))).
End EMA.


(** ** Records of [fetchStockData.ts] *)

Record StockData := {
  symbol : string;
  name : string;
  exchange : string;
  open : float;
  high : float;
  low : float;
  close : float;
  volume : float;
  date : string
}.

(** [StockWithEMA extends StockData]; the spread [{...stockData, ema50,
    qualifies}] copies the nine base fields. *)
Record StockWithEMA := {
  base : StockData;
  ema50 : float;
  qualifies : bool
}.

(** The value returned by the tool's [execute]. *)
Record Report := {
  totalStocks : nat;
  qualifyingStocks : nat;
  stocks : list StockWithEMA
}.

(** ** JavaScript operators used on the fetched values *)

(** [a > b] on numbers is [b < a]; both are false when an operand is NaN. *)
Definition gtb (a b : float) : bool := PrimFloat.ltb b a.

(** An entry read from a decoded JSON array of numbers: [None] is
    [undefined] (no such index), [Some None] is [null]. *)
Definition json_entry : Type := option (option float).

(** [v || 0]: [undefined], [null], the two zeros and NaN are falsy. *)
Definition or_zero (v : json_entry) : float :=
  match v with
  | Some (Some x) => if PrimFloat.is_nan x || PrimFloat.eqb x 0 then 0%float else x
  | _ => 0%float
  end.

(** ToNumber, as applied by [v * 1000]: [undefined] gives NaN, [null]
    gives zero. *)
Definition json_number (v : json_entry) : float :=
  match v with
  | None => nan
  | Some None => 0%float
  | Some (Some x) => x
  end.

(** [a || b] for strings: the empty string and a missing value are falsy. *)
Definition or_string (a : option string) (b : string) : string :=
  match a with
  | Some EmptyString | None => b
  | Some s => s
  end.

Fixpoint starts_with (sub s : string) : bool :=
  match sub, s with
  | EmptyString, _ => true
  | String a sub', String b s' => if Ascii.eqb a b then starts_with sub' s' else false
  | String _ _, EmptyString => false
  end.

(** [s.includes(sub)] *)
Fixpoint includes (s sub : string) : bool :=
  starts_with sub s ||
  match s with
  | EmptyString => false
  | String _ s' => includes s' sub
  end.

(** The qualification rule of [execute]:
    [stockData.low < currentEMA50 && stockData.close > currentEMA50]. *)
Definition qualifies_rule (sd : StockData) (currentEMA50 : float) : bool :=
  PrimFloat.ltb (low sd) currentEMA50 && gtb (close sd) currentEMA50.

(** ** The data provider and the effects of [execute] *)

(** What the chart endpoint answers, after [response.json()]:
    [data.chart.result[0]] with its [meta], [timestamp] and
    [indicators.quote[0]] arrays.  Array entries may be [null]. *)
Record chart_result := {
  longName : option string;
  shortName : option string;
  timestamp : list (option float);
  q_open : list (option float);
  q_high : list (option float);
  q_low : list (option float);
  q_close : list (option float);
  q_volume : list (option float)
}.

Inductive http_response :=
  | NotOk                                   (* [!response.ok] *)
  | OkJson (result : option chart_result).  (* [None]: result or quote missing *)

Inductive outcome (A : Type) :=
  | Threw
  | Returned (a : A).
Arguments Threw {A}.
Arguments Returned {A} _.

Section Provider.
(** The state of the outside world (network, clock), threaded through
    every request. *)
Context {World : Type}.

(** A computation that reads the world and either returns or throws. *)
Definition M (A : Type) : Type := World → outcome A * World.

Definition ret {A} (a : A) : M A := λ w, (Returned a, w).

Definition throw {A} : M A := λ w, (Threw, w).

Definition bind {A B} (m : M A) (f : A → M B) : M B :=
  λ w, match m w with
       | (Returned a, w') => f a w'
       | (Threw, w') => (Threw, w')
       end.

(** [try { m } catch (error) { return h }] *)
Definition try_catch {A} (m : M A) (h : A) : M A :=
  λ w, match m w with
       | (Returned a, w') => (Returned a, w')
       | (Threw, w') => (Returned h, w')
       end.

(** The request [fetch(url)] followed by [response.json()] and the
    navigation to [data.chart.result[0]].  The first argument is the
    Yahoo symbol of the URL; the second is the look-back in days of
    [period1] ([None] for the fixed start of [fetchStockFromYahoo]).  It
    throws when the request or the decoding fails. *)
Context (http_chart : string → option Z → M http_response).

(** [new Date(t * 1000).toISOString().split('T')[0]]; [None] when the
    time value is invalid and [toISOString] throws. *)
Context (iso_date : float → option string).

Definition yahooSymbol (symbol : string) : string :=
  if includes symbol "." then symbol else symbol +:+ ".NS".

Definition fetchStockFromYahoo (symbol : string) : M (option StockData) :=
  try_catch
    (bind (http_chart (yahooSymbol symbol) None) (λ response,
     match response with
     | NotOk => ret None
     | OkJson None => ret None
     | OkJson (Some result) =>
         let lastIndex := Z.of_nat (length (q_close result)) - 1 in
         match iso_date (PrimFloat.mul (json_number (at_index (timestamp result) lastIndex))
                                       1000) with
         | None => throw
         | Some day =>
             ret (Some {|
               symbol := symbol;
               name := or_string (longName result) (or_string (shortName result) symbol);
               exchange := if includes symbol ".BO" then "BSE" else "NSE";
               open := or_zero (at_index (q_open result) lastIndex);
               high := or_zero (at_index (q_high result) lastIndex);
               low := or_zero (at_index (q_low result) lastIndex);
               close := or_zero (at_index (q_close result) lastIndex);
               volume := or_zero (at_index (q_volume result) lastIndex);
               date := day
             |})
         end
     end))
    None.

Definition fetchHistoricalPrices (symbol : string) (days : Z) : M (list float) :=
  try_catch
    (bind (http_chart (yahooSymbol symbol) (Some days)) (λ response,
     match response with
     | NotOk => ret []
     | OkJson None => ret []
     | OkJson (Some result) => ret (omap id (q_close result))
     end))
    [].

(** One iteration of [for (const symbol of symbols)].  [continue] leaves
    the accumulator as it is.  Logging, the counter used only by the log
    lines and the 200 ms pause are left out. *)
Definition process (symbol : string) (stocksWithEMA : list StockWithEMA)
    : M (list StockWithEMA) :=
  bind (fetchStockFromYahoo symbol) (λ stockData,
  match stockData with
  | None => ret stocksWithEMA
  | Some stockData =>
      bind (fetchHistoricalPrices symbol 100) (λ historicalPrices,
      if decide (Z.of_nat (length historicalPrices) < 50) then ret stocksWithEMA
      else
        let emaValues := calculateEMA historicalPrices 50 in
        let currentEMA50 := to_number (arr_get emaValues (alength emaValues - 1)) in
        let qualifies := qualifies_rule stockData currentEMA50 in
        ret (stocksWithEMA ++
             [{| base := stockData; ema50 := currentEMA50; qualifies := qualifies |}]))
  end).

Fixpoint for_of (symbols : list string) (stocksWithEMA : list StockWithEMA)
    : M (list StockWithEMA) :=
  match symbols with
  | [] => ret stocksWithEMA
  | symbol :: rest => bind (process symbol stocksWithEMA) (for_of rest)
  end.

Definition execute (symbols : list string) : M Report :=
  bind (for_of symbols []) (λ stocksWithEMA,
  let qualifyingStocks := filter (λ stock, qualifies stock = true) stocksWithEMA in
  ret {| totalStocks := length stocksWithEMA;
         qualifyingStocks := length qualifyingStocks;
         stocks := stocksWithEMA |}).
End Provider.

(** ** Number formatting: [Number.prototype.toString] and [toFixed] *)

(** The mathematical value of a finite number. *)
Definition float_value (x : float) : option Q :=
  match Prim2SF x with
  | S754_zero _ => Some 0%Q
  | S754_finite s m e =>
      let v := (inject_Z (Z.pos m) * Qpower 2 e)%Q in
      Some (Qred (if s then Qopp v else v))
  | _ => None
  end.

(** Decimal digits of a natural number, most significant first. *)
Definition digits_of (n : Z) : string :=
  NilZero.string_of_uint (N.to_uint (Z.to_N n)).

Fixpoint zeros (n : nat) : string :=
  match n with
  | O => EmptyString
  | S n' => String "0"%char (zeros n')
  end.

Definition str_take (n : nat) (s : string) : string := substring 0 n s.
Definition str_drop (n : nat) (s : string) : string := substring n (String.length s - n) s.

Definition pow10 (z : Z) : Q := Qpower 10 z.

(** The least [d] with [v < 10^d], searched upwards from [d]. *)
Fixpoint decimal_exponent (fuel : nat) (v : Q) (d : Z) : Z :=
  match fuel with
  | O => d
  | S fuel' => if Qle_bool (pow10 d) v then decimal_exponent fuel' v (d + 1) else d
  end.

(** The numbers that round to the double [m * 2^e]: those between the
    midpoints to its two neighbours, the midpoints included when [m] is
    even. *)
Definition rounds_to (m : positive) (e : Z) (r : Q) : bool :=
  let v := (inject_Z (Z.pos m) * Qpower 2 e)%Q in
  let below := if (Z.pos m =? 2 ^ 52)%Z && (-1074 <? e)%Z
               then Qpower 2 (e - 2) else Qpower 2 (e - 1) in
  let lo := (v - below)%Q in
  let hi := (v + Qpower 2 (e - 1))%Q in
  if Z.even (Z.pos m)
  then Qle_bool lo r && Qle_bool r hi
  else negb (Qle_bool r lo) && negb (Qle_bool hi r).

(** The digits [s], their count [k] and the exponent [n] of
    Number::toString: [k] as small as possible with [s * 10^(n-k)]
    rounding to the number; among several [s] the closest, then the even
    one. *)
Fixpoint shortest (fuel : nat) (m : positive) (e : Z) (d : Z) (k : Z) : Z * Z * Z :=
  let v := (inject_Z (Z.pos m) * Qpower 2 e)%Q in
  let q := (d - k)%Z in
  let s0 := Qfloor (v / pow10 q) in
  let s1 := (s0 + 1)%Z in
  let r0 := (inject_Z s0 * pow10 q)%Q in
  let r1 := (inject_Z s1 * pow10 q)%Q in
  let pick (s : Z) := if (s =? 10 ^ k)%Z then (10 ^ (k - 1), k, d + 1)%Z else (s, k, d) in
  match fuel with
  | O => pick s0
  | S fuel' =>
      match rounds_to m e r0, rounds_to m e r1 with
      | true, false => pick s0
      | false, true => pick s1
      | true, true =>
          match Qcompare (v - r0) (r1 - v) with
          | Lt => pick s0
          | Gt => pick s1
          | Eq => if Z.even s0 then pick s0 else pick s1
          end
      | false, false => shortest fuel' m e d (k + 1)
      end
  end.

Definition exponent_part (n : Z) : string :=
  let e := (n - 1)%Z in
  "e" +:+ (if (e <? 0)%Z then "-" else "+") +:+ digits_of (Z.abs e).

Definition render (s k n : Z) : string :=
  let ds := digits_of s in
  if (k <=? n)%Z && (n <=? 21)%Z then ds +:+ zeros (Z.to_nat (n - k))
  else if (0 <? n)%Z && (n <=? 21)%Z then
    str_take (Z.to_nat n) ds +:+ "." +:+ str_drop (Z.to_nat n) ds
  else if (-6 <? n)%Z && (n <=? 0)%Z then "0." +:+ zeros (Z.to_nat (- n)) +:+ ds
  else if (k =? 1)%Z then ds +:+ exponent_part n
  else str_take 1 ds +:+ "." +:+ str_drop 1 ds +:+ exponent_part n.

(** [x.toString()] *)
Definition number_toString (x : float) : string :=
  match Prim2SF x with
  | S754_nan => "NaN"
  | S754_zero _ => "0"
  | S754_infinity s => if s then "-Infinity" else "Infinity"
  | S754_finite sg m e =>
      let v := (inject_Z (Z.pos m) * Qpower 2 e)%Q in
      let d := decimal_exponent 800 v (-400) in
      let '(s, k, n) := shortest 17 m e d 1 in
      (if sg then "-" else EmptyString) +:+ render s k n
  end.

(** [x.toFixed(2)] *)
Definition toFixed2 (x : float) : string :=
  match float_value x with
  | None => number_toString x
  | Some v =>
      let s := if Qle_bool 0 v then EmptyString else "-" in
      let a := Qabs v in
      if Qle_bool (pow10 21) a then s +:+ number_toString (abs x)
      else
        let n := Qfloor (a * 100 + (1 # 2))%Q in
        let m := digits_of n in
        let k := String.length m in
        let m := if (k <=? 2)%nat then zeros (3 - k) +:+ m else m in
        let k := String.length m in
        s +:+ str_take (k - 2) m +:+ "." +:+ str_drop (k - 2) m
  end.

(** ** The report serializer: [generateStockCSV.ts] *)

Definition dquote : ascii := "034"%char.
Definition comma : ascii := ","%char.
Definition newline : ascii := "010"%char.

(** [array.join(sep)] *)
Definition join (sep : string) (l : list string) : string := String.concat sep l.

Definition headers : list string :=
  ["Symbol"; "Name"; "Exchange"; "Date"; "Open"; "High"; "Low"; "Close";
   "Volume"; "50_EMA"; "Low_vs_EMA"; "Close_vs_EMA"; "Qualifies"].

Definition quoted (s : string) : string :=
  String dquote (s +:+ String dquote EmptyString).

(** The array [row] built for one stock. *)
Definition row_cells (stock : StockWithEMA) : list string :=
  [ symbol (base stock);
    quoted (name (base stock));
    exchange (base stock);
    date (base stock);
    toFixed2 (open (base stock));
    toFixed2 (high (base stock));
    toFixed2 (low (base stock));
    toFixed2 (close (base stock));
    number_toString (volume (base stock));
    toFixed2 (ema50 stock);
    if PrimFloat.ltb (low (base stock)) (ema50 stock) then "Below" else "Above";
    if gtb (close (base stock)) (ema50 stock) then "Above" else "Below";
    if qualifies stock then "YES" else "NO" ].

(** The array [csvRows] before the final join. *)
Definition csvRows (stocks : list StockWithEMA) : list string :=
  let qualifyingStocks := filter (λ stock, qualifies stock = true) stocks in
  ([join "," headers] ++ map (λ stock, join "," (row_cells stock)) qualifyingStocks)%list.

Definition generateCSV (stocks : list StockWithEMA) : string :=
  join (String newline EmptyString) (csvRows stocks).

(** The value returned by [execute] of [generateStockCSVTool]; [timestamp]
    is the day that it reads from the clock. *)
Record CsvOutput := {
  csvContent : string;
  filename : string;
  qualifyingCount : nat;
  csv_totalStocks : nat
}.

Definition generateStockCSV_execute (stocks : list StockWithEMA)
    (filename timestamp : string) : CsvOutput :=
  let csvContent := generateCSV stocks in
  let qualifyingStocks := filter (λ stock, qualifies stock = true) stocks in
  {| csvContent := csvContent;
     filename := filename +:+ "_" +:+ timestamp +:+ ".csv";
     qualifyingCount := length qualifyingStocks;
     csv_totalStocks := length stocks |}.

(** ** A reader for the table

    The repository only writes the table.  To state what can be read back
    from it, this is the usual reader of comma-separated text: a double
    quote switches quoting on or off and is dropped, a comma outside
    quotes ends a field, a line feed outside quotes ends a record. *)
Fixpoint read_from (text : string) (in_quotes : bool) (field : string)
    (record : list string) : list (list string) :=
  match text with
  | EmptyString => [(record ++ [field])%list]
  | String c rest =>
      if Ascii.eqb c dquote then read_from rest (negb in_quotes) field record
      else if Ascii.eqb c comma && negb in_quotes
      then read_from rest false EmptyString (record ++ [field])%list
      else if Ascii.eqb c newline && negb in_quotes
      then (record ++ [field])%list :: read_from rest false EmptyString []
      else read_from rest in_quotes (field +:+ String c EmptyString) record
  end.

Definition read_table (text : string) : list (list string) :=
  read_from text false EmptyString [].

(** What a reader is expected to find for one stock: the cells of the row
    with the name unquoted. *)
Definition row_values (stock : StockWithEMA) : list string :=
  [ symbol (base stock);
    name (base stock);
    exchange (base stock);
    date (base stock);
    toFixed2 (open (base stock));
    toFixed2 (high (base stock));
    toFixed2 (low (base stock));
    toFixed2 (close (base stock));
    number_toString (volume (base stock));
    toFixed2 (ema50 stock);
    if PrimFloat.ltb (low (base stock)) (ema50 stock) then "Below" else "Above";
    if gtb (close (base stock)) (ema50 stock) then "Above" else "Below";
    if qualifies stock then "YES" else "NO" ].

Fixpoint has_char (c : ascii) (s : string) : bool :=
  match s with
  | EmptyString => false
  | String a s' => Ascii.eqb a c || has_char c s'
  end.

(** Text that the reader takes as it is, quoted or not: no double quote. *)
Definition quotable (s : string) : Prop := has_char dquote s = false.

(** Text that the reader takes as it is when it is not quoted: no double
    quote, no comma and no line feed. *)
Definition plain (s : string) : Prop :=
  has_char dquote s = false ∧ has_char comma s = false ∧ has_char newline s = false.

(** The records whose text fields survive the table: only the name is
    quoted by [generateCSV], so the other three have to be plain. *)
Definition readable (stock : StockWithEMA) : Prop :=
  plain (symbol (base stock)) ∧ quotable (name (base stock)) ∧
  plain (exchange (base stock)) ∧ plain (date (base stock)).

Fixpoint all_chars (P : ascii → bool) (s : string) : bool :=
  match s with
  | EmptyString => true
  | String c s' => P c && all_chars P s'
  end.

(** The characters of rendered numbers: digits, point, signs, the exponent
    mark and the letters of [Infinity] and [NaN]. *)
Definition numeric_char (c : ascii) : bool := has_char c "0123456789.-+eInfityNa".

(** The reader, having reached [cell] outside quotes, appends [value] to
    the field it is collecting and goes on after the cell. *)
Definition reads_as (cell value : string) : Prop :=
  ∀ rest field record,
    read_from (cell +:+ rest) false field record
    = read_from rest false (field +:+ value) record.

(** The reader, at the start of the line [line], produces the record
    [values], whether the line is the last one or is followed by a line
    feed and more text. *)
Definition line_reads_as (line : string) (values : list string) : Prop :=
  read_from line false EmptyString [] = [values] ∧
  ∀ rest, read_from (line +:+ String newline rest) false EmptyString []
          = values :: read_from rest false EmptyString [].

(** The lines of a text: [text.split('\n')]. *)
Fixpoint lines_from (text line : string) : list string :=
  match text with
  | EmptyString => [line]
  | String c rest =>
      if Ascii.eqb c newline then line :: lines_from rest EmptyString
      else lines_from rest (line +:+ String c EmptyString)
  end.

Definition text_lines (text : string) : list string := lines_from text EmptyString.

(** The record's four text fields hold no line feed. *)
Definition one_line (stock : StockWithEMA) : Prop :=
  has_char newline (symbol (base stock)) = false ∧
  has_char newline (name (base stock)) = false ∧
  has_char newline (exchange (base stock)) = false ∧
  has_char newline (date (base stock)) = false.

(** What is said of the table of a record list: after the header line it
    has exactly one row for each qualifying record. *)
Definition one_row_each (stocks : list StockWithEMA) : Prop :=
  length (text_lines (generateCSV stocks))
  = Datatypes.S (length (filter (λ stock, qualifies stock = true) stocks)).

(** Records for the examples of the table; they differ in symbol and name
    only. *)
Definition sample (symbol name : string) : StockWithEMA :=
  {| base := {| symbol := symbol; name := name; exchange := "NSE";
                open := 10; high := 12; low := 9; close := 11;
                volume := 1000; date := "2025-09-10" |};
     ema50 := 10; qualifies := true |}.

(** The symbol [A,"B"] with the name [C], and the symbol [A] with the name
    [B","C]. *)
Definition tricky_1 : StockWithEMA := sample ("A," +:+ quoted "B") "C".

Definition tricky_2 : StockWithEMA :=
  sample "A" ("B" +:+ String dquote ("," +:+ String dquote "C")).

(** A qualifying record whose symbol is [A], a line feed and [B]. *)
Definition two_line_symbol : StockWithEMA :=
  sample ("A" +:+ String newline "B") "C".

(** ** A scripted provider

    For the examples: the world is the list of answers still to come; each
    request takes the next one, and throws when none is left. *)
Definition script : Type := list (outcome http_response).

Definition scripted (_ : string) (_ : option Z) : M (World := script) http_response :=
  λ w, match w with
       | [] => (Threw, [])
       | answer :: w' => (answer, w')
       end.

Definition fixed_day (_ : float) : option string := Some "2025-09-10".

(** The answer to the first request: one bar with the given low and close. *)
Definition latest_bar (low close : float) : outcome http_response :=
  Returned (OkJson (Some {|
    longName := Some "Acme Ltd";
    shortName := None;
    timestamp := [Some 1757462400%float];
    q_open := [Some 10%float];
    q_high := [Some 12%float];
    q_low := [Some low];
    q_close := [Some close];
    q_volume := [Some 1000%float]
  |})).

(** The answer to the second request: [n] closing prices, all equal. *)
Definition flat_history (n : nat) (price : float) : outcome http_response :=
  Returned (OkJson (Some {|
    longName := None;
    shortName := None;
    timestamp := replicate n (Some 1757462400%float);
    q_open := replicate n (Some price);
    q_high := replicate n (Some price);
    q_low := replicate n (Some price);
    q_close := replicate n (Some price);
    q_volume := replicate n (Some 1000%float)
  |})).

(** ** Vocabulary of the statements *)

Local Open Scope Z_scope.

(** The symbols of the records that qualify, in the order of the records. *)
Definition qualifying_symbols (stocks : list StockWithEMA) : list string :=
  map (λ stock, symbol (base stock)) (filter (λ stock, qualifies stock = true) stocks).

(** What is said of the table: some reader recovers, from the table of any
    record list, the set of its qualifying symbols. *)
Definition symbols_recoverable : Prop :=
  ∃ reader : string → list string,
    ∀ (stocks : list StockWithEMA) (sym : string),
      sym ∈ reader (generateCSV stocks) ↔ sym ∈ qualifying_symbols stocks.

(** What the report is said to satisfy: the qualifying count is at most
    the total, it is the length of the record sequence, and every record
    of the sequence qualifies. *)
Definition only_qualifying (report : Report) : Prop :=
  (qualifyingStocks report ≤ totalStocks report)%nat ∧
  qualifyingStocks report = length (stocks report) ∧
  Forall (λ stock, qualifies stock = true) (stocks report).

(** What [process] appends for a symbol: a record carrying that symbol,
    flagged by the rule applied to its own fields. *)
Definition appended (sym : string) (record : StockWithEMA) : Prop :=
  symbol (base record) = sym ∧
  qualifies record = qualifies_rule (base record) (ema50 record).

(** ** Binary64 values and rounding *)

(** [R] is a rounding of [V] to the binary64 grid, both scaled by [2^B]:
    no number [k * 2^j] of the grid lies strictly between them. *)
Definition rounding (B V R : Z) : Prop :=
  ∀ k j : Z, -1074 ≤ j → Z.abs k ≤ 2 ^ 53 →
    (k * 2 ^ (j + B) ≤ V → k * 2 ^ (j + B) ≤ R) ∧
    (V ≤ k * 2 ^ (j + B) → R ≤ k * 2 ^ (j + B)).

(** The float that [binary_round_aux] builds from a rounded mantissa and
    its exponent. *)
Definition encode (sx : bool) (m e : Z) : spec_float :=
  match m with
  | Z0 => S754_zero sx
  | Zpos p => if e <=? 971 then S754_finite sx p e else S754_infinity sx
  | Zneg _ => S754_nan
  end.

(** The value of a float, scaled by [2^B]; infinities and NaN count as 0. *)
Definition SFval (B : Z) (x : spec_float) : Z :=
  match x with
  | S754_finite s m e => (if s then Z.neg m else Z.pos m) * 2 ^ (e + B)
  | _ => 0
  end.

Definition SFfinite (x : spec_float) : bool :=
  match x with
  | S754_zero _ | S754_finite _ _ _ => true
  | _ => false
  end.

(** [r] is what rounding the value [V] (scaled by [2^B]) gives: a
    mantissa below [2^53] with an exponent from [-1074] on, normalized,
    possibly beyond the largest exponent, in which case [r] is infinite. *)
Definition rounded_to (B V : Z) (r : spec_float) : Prop :=
  ∃ (s : bool) (m e : Z),
    r = encode s m e ∧ 0 ≤ m < 2 ^ 53 ∧ -1074 ≤ e ∧ (2 ^ 52 ≤ m ∨ e = -1074) ∧
    rounding B V ((if s then - m else m) * 2 ^ (e + B)).

(** The largest finite value, scaled. *)
Definition max_value (B : Z) : Z := (2 ^ 53 - 1) * 2 ^ (971 + B).

(** A number of the grid, scaled by [2^B]. *)
Definition on_grid (B V : Z) : Prop :=
  ∃ k j : Z, -1074 ≤ j ∧ Z.abs k ≤ 2 ^ 53 ∧ V = k * 2 ^ (j + B).

(** [Number.isFinite(x)] *)
Definition finite_number (x : float) : bool := SFfinite (Prim2SF x).

(** The value of a finite number, as a multiple of [2^-1074]. *)
Definition fvalue (x : float) : Z := SFval 1074 (Prim2SF x).

(** [x] lies between [a] and [b], bounds included, in either order. *)
Definition lies_between (a b x : float) : bool :=
  (PrimFloat.leb a x && PrimFloat.leb x b) || (PrimFloat.leb b x && PrimFloat.leb x a).

(** The multiplier computed for [period] lies between 0 and 0.75. *)
Definition multiplier_ok (period : Z) : bool :=
  PrimFloat.leb 0 (multiplier_of period) && PrimFloat.leb (multiplier_of period) 0.75.

(** The interpolation property of one series: every entry after index
    [period - 1] whose price is finite lies between the previous entry and
    that price. *)
Definition interpolates (prices : list float) (period : Z) : Prop :=
  ∀ (i : Z) (price prev cur : float),
    period ≤ i < Z.of_nat (length prices) →
    prices !! Z.to_nat i = Some price →
    finite_number price = true →
    arr_get (calculateEMA prices period) (i - 1) = Some prev →
    arr_get (calculateEMA prices period) i = Some cur →
    lies_between prev price cur = true.

Section SkipReasons.
Context {World : Type}.
Context (http_chart : string → option Z → M (World := World) http_response).
Context (iso_date : float → option string).

(** A request that brings no data: it throws, the response is not ok, or
    the result is missing. *)
Definition no_data (answer : outcome http_response) : Prop :=
  answer = Threw ∨ answer = Returned NotOk ∨ answer = Returned (OkJson None).

(** The ways in which a symbol is skipped, from the world [w] in which
    its turn starts to the world [w'] in which the next symbol starts. *)
Inductive skipped (symbol : string) (w w' : World) : Prop :=
  | latest_fetch_failed answer :
      http_chart (yahooSymbol symbol) None w = (answer, w') →
      no_data answer →
      skipped symbol w w'
  | latest_absent :
      fetchStockFromYahoo http_chart iso_date symbol w = (Returned None, w') →
      skipped symbol w w'
  | history_fetch_failed stockData w1 answer :
      fetchStockFromYahoo http_chart iso_date symbol w = (Returned (Some stockData), w1) →
      http_chart (yahooSymbol symbol) (Some 100) w1 = (answer, w') →
      no_data answer →
      skipped symbol w w'
  | history_too_short stockData w1 historicalPrices :
      fetchStockFromYahoo http_chart iso_date symbol w = (Returned (Some stockData), w1) →
      fetchHistoricalPrices http_chart symbol 100 w1 = (Returned historicalPrices, w') →
      Z.of_nat (length historicalPrices) < 50 →
      skipped symbol w w'.

(** The record that an iteration makes from the bar and the history it
    has fetched: the bar, the last entry of the EMA series of the history,
    and the flag that the rule gives for the two. *)
Definition record_of (stockData : StockData) (historicalPrices : list float)
    : StockWithEMA :=
  let emaValues := calculateEMA historicalPrices 50 in
  let currentEMA50 := to_number (arr_get emaValues (alength emaValues - 1)) in
  {| base := stockData; ema50 := currentEMA50;
     qualifies := qualifies_rule stockData currentEMA50 |}.

(** The turn of a symbol that is analysed, from the world [w] to the
    world [w']: a bar is fetched for it, then a history of at least 50
    prices, and [record] is made from them. *)
Inductive analysed_as (symbol : string) (w w' : World) (record : StockWithEMA) : Prop :=
  | analysed_from stockData w1 historicalPrices :
      fetchStockFromYahoo http_chart iso_date symbol w = (Returned (Some stockData), w1) →
      fetchHistoricalPrices http_chart symbol 100 w1 = (Returned historicalPrices, w') →
      50 ≤ Z.of_nat (length historicalPrices) →
      record = record_of stockData historicalPrices →
      analysed_as symbol w w' record.

(** The course of a batch over a symbol list, from the world in which it
    starts to the world in which it ends: symbol by symbol, [None] for a
    symbol that is skipped and the record for a symbol that is analysed. *)
Inductive course : list string → World → list (option StockWithEMA) → World → Prop :=
  | course_end w : course [] w [] w
  | course_skip symbol rest w w1 w' outcomes :
      skipped symbol w w1 →
      course rest w1 outcomes w' →
      course (symbol :: rest) w (None :: outcomes) w'
  | course_record symbol rest w w1 w' record outcomes :
      analysed_as symbol w w1 record →
      course rest w1 outcomes w' →
      course (symbol :: rest) w (Some record :: outcomes) w'.
End SkipReasons.

(** The symbols of the input whose turn gave a record that passes [keep],
    in the order of the input. *)
Fixpoint kept (keep : StockWithEMA → bool) (symbols : list string)
    (outcomes : list (option StockWithEMA)) : list string :=
  match symbols, outcomes with
  | symbol :: symbols', Some record :: outcomes' =>
      if keep record then symbol :: kept keep symbols' outcomes'
      else kept keep symbols' outcomes'
  | _ :: symbols', None :: outcomes' => kept keep symbols' outcomes'
  | _, _ => []
  end.


(** * More of the code *)

(** ** Base64

    [Buffer.from(text).toString('base64')]: text is held here as its UTF-8
    bytes, which is what [Buffer.from] makes of a string; each group of
    three bytes becomes four characters of the alphabet, and a last group
    of one or two bytes is padded with [=]. *)
Definition base64_alphabet : string :=
  "ABCDEFGHIJKLMNOPQRSTUVWXYZabcdefghijklmnopqrstuvwxyz0123456789+/".

Definition base64_char (n : N) : ascii :=
  match String.get (N.to_nat n) base64_alphabet with
  | Some c => c
  | None => "="%char
  end.

Fixpoint base64 (s : string) : string :=
  match s with
  | EmptyString => EmptyString
  | String a EmptyString =>
      let n := (N_of_ascii a * 65536)%N in
      String (base64_char (n / 262144))
        (String (base64_char (n / 4096 mod 64)) "==")
  | String a (String b EmptyString) =>
      let n := (N_of_ascii a * 65536 + N_of_ascii b * 256)%N in
      String (base64_char (n / 262144))
        (String (base64_char (n / 4096 mod 64))
           (String (base64_char (n / 64 mod 64)) "="))
  | String a (String b (String c rest)) =>
      let n := (N_of_ascii a * 65536 + N_of_ascii b * 256 + N_of_ascii c)%N in
      String (base64_char (n / 262144))
        (String (base64_char (n / 4096 mod 64))
           (String (base64_char (n / 64 mod 64))
              (String (base64_char (n mod 64)) (base64 rest))))
  end.

(** The repository only encodes.  To state what the receiver gets, this
    is the decoder for text made of whole groups of four. *)
Fixpoint index_of (c : ascii) (s : string) (i : N) : N :=
  match s with
  | EmptyString => 0
  | String a s' => if Ascii.eqb a c then i else index_of c s' (i + 1)
  end.

Definition base64_value (c : ascii) : N := index_of c base64_alphabet 0.

Fixpoint base64_decode (t : string) : string :=
  match t with
  | String c0 (String c1 (String c2 (String c3 rest))) =>
      let n := (base64_value c0 * 262144 + base64_value c1 * 4096
                + base64_value c2 * 64 + base64_value c3)%N in
      if Ascii.eqb c2 "=" then String (ascii_of_N (n / 65536)) EmptyString
      else if Ascii.eqb c3 "="
      then String (ascii_of_N (n / 65536)) (String (ascii_of_N (n / 256 mod 256)) EmptyString)
      else String (ascii_of_N (n / 65536))
             (String (ascii_of_N (n / 256 mod 256))
                (String (ascii_of_N (n mod 256)) (base64_decode rest)))
  | _ => EmptyString
  end.

Definition base64_text (c : ascii) : bool :=
  has_char c base64_alphabet || Ascii.eqb c "=".

(** ** The mail tool: [sendStockEmail.ts] *)

(** The message handed to [sendEmail] and what [sendEmail] resolves to.
    Their types are declared in [utils/replitmail]; the fields are the
    ones that the tool writes and reads. *)
Module Smtp.
Record Attachment := {
  filename : string;
  content : string;
  contentType : string;
  encoding : string
}.

Record Message := {
  to : string;
  subject : string;
  html : string;
  text : string;
  attachments : list Attachment
}.

Record Result := {
  messageId : option string;
  accepted : list string;
  rejected : list string
}.
End Smtp.

(** What [sendEmail] may throw: an [Error], which has a message, or any
    other value. *)
Inductive thrown :=
  | ErrorObject (message : string)
  | OtherValue.

(** The value returned by [sendStockEmailTool.execute]. *)
Record EmailOutput := {
  success : bool;
  messageId : option string;
  accepted : list string;
  rejected : list string;
  error : option string
}.

(** The three template literals of the tool.  A number is inserted as
    [toString] renders it. *)
Definition htmlContent (analysisDate : string) (totalStocks qualifyingCount : float)
    (filename : string) : string :=
  "
        <h2>🔍 Indian Stock Analysis Report - " +:+
  analysisDate +:+
  "</h2>
        <p>Your daily stock analysis based on 50 EMA criteria has been completed.</p>
        
        <h3>📊 Analysis Summary</h3>
        <ul>
          <li><strong>Total Stocks Analyzed:</strong> " +:+
  number_toString totalStocks +:+
  "</li>
          <li><strong>Qualifying Stocks:</strong> " +:+
  number_toString qualifyingCount +:+
  "</li>
          <li><strong>Analysis Date:</strong> " +:+
  analysisDate +:+
  "</li>
        </ul>
        
        <h3>📋 Selection Criteria</h3>
        <p>Stocks included in the attached CSV meet the following criteria:</p>
        <ul>
          <li>✅ <strong>Low price</strong> is below the 50-day Exponential Moving Average (EMA)</li>
          <li>✅ <strong>Close price</strong> is above the 50-day Exponential Moving Average (EMA)</li>
        </ul>
        
        <p>This indicates potential buying opportunities where the stock touched support (50 EMA) but closed strong.</p>
        
        <h3>📎 Attachment</h3>
        <p>The detailed analysis is attached as a CSV file: <strong>" +:+
  filename +:+
  "</strong></p>
        
        <p>The CSV includes the following columns:</p>
        <ul>
          <li>Symbol, Name, Exchange, Date</li>
          <li>OHLCV data (Open, High, Low, Close, Volume)</li>
          <li>50-day EMA value</li>
          <li>Comparison indicators (Low vs EMA, Close vs EMA)</li>
        </ul>
        
        <hr>
        <p style=" +:+
  String dquote EmptyString +:+
  "font-size: 12px; color: #666;" +:+
  String dquote EmptyString +:+
  ">
          This report was generated automatically by your AI Stock Analysis Agent.<br>
          Analysis covers stocks from NSE and BSE exchanges.<br>
          <em>Please do your own research before making investment decisions.</em>
        </p>
      ".

Definition textContent (analysisDate : string) (totalStocks qualifyingCount : float)
    (filename : string) : string :=
  "Indian Stock Analysis Report - " +:+
  analysisDate +:+
  "

Your daily stock analysis based on 50 EMA criteria has been completed.

ANALYSIS SUMMARY:
- Total Stocks Analyzed: " +:+
  number_toString totalStocks +:+
  "
- Qualifying Stocks: " +:+
  number_toString qualifyingCount +:+
  "  
- Analysis Date: " +:+
  analysisDate +:+
  "

SELECTION CRITERIA:
Stocks included in the attached CSV meet the following criteria:
✓ Low price is below the 50-day Exponential Moving Average (EMA)
✓ Close price is above the 50-day Exponential Moving Average (EMA)

This indicates potential buying opportunities where the stock touched support (50 EMA) but closed strong.

ATTACHMENT:
The detailed analysis is attached as a CSV file: " +:+
  filename +:+
  "

The CSV includes Symbol, Name, Exchange, Date, OHLCV data, 50-day EMA value, and comparison indicators.

---
This report was generated automatically by your AI Stock Analysis Agent.
Analysis covers stocks from NSE and BSE exchanges.
Please do your own research before making investment decisions.".

Definition emailSubject (qualifyingCount : float) (analysisDate : string) : string :=
  "📈 Indian Stock Analysis Report - " +:+
  number_toString qualifyingCount +:+
  " Qualifying Stocks (" +:+
  analysisDate +:+
  ")".

Definition emailMessage (recipientEmail csvContent filename : string)
    (qualifyingCount totalStocks : float) (analysisDate : string) : Smtp.Message :=
  let base64Content := base64 csvContent in
  {| Smtp.to := recipientEmail;
     Smtp.subject := emailSubject qualifyingCount analysisDate;
     Smtp.html := htmlContent analysisDate totalStocks qualifyingCount filename;
     Smtp.text := textContent analysisDate totalStocks qualifyingCount filename;
     Smtp.attachments :=
       [ {| Smtp.filename := filename;
            Smtp.content := base64Content;
            Smtp.contentType := "text/csv";
            Smtp.encoding := "base64" |} ] |}.

(** What a tool made by [createTool] answers when it is called: the
    input is checked against [inputSchema] first; an input that does not
    pass is answered by a validation error, and [execute] is not run. *)
Inductive tool_answer (A : Type) :=
  | ValidationError
  | Output (a : A).
Arguments ValidationError {A}.
Arguments Output {A} _.

Section MailTool.
Context {World : Type}.

(** The checks of the schema library that can fail on the input of the
    tool: [z.string().email()] and [z.number()]. *)
Context (z_email : string → bool).
Context (z_number : float → bool).

(** [sendEmail] of [utils/replitmail]: it resolves to a result or throws. *)
Context (sendEmail : Smtp.Message → World → (thrown + Smtp.Result) * World).

(** [inputSchema]: the recipient is an e-mail address and the two counts
    are numbers; the other three fields are strings. *)
Definition sendStockEmail_inputSchema (recipientEmail : string)
    (qualifyingCount totalStocks : float) : bool :=
  z_email recipientEmail && z_number qualifyingCount && z_number totalStocks.

(** [execute]: the whole body is inside [try]; building the message does
    not throw, so what the [catch] sees is what [sendEmail] throws. *)
Definition sendStockEmail_execute (recipientEmail csvContent filename : string)
    (qualifyingCount totalStocks : float) (analysisDate : string) : M EmailOutput :=
  λ w,
    match sendEmail (emailMessage recipientEmail csvContent filename
                       qualifyingCount totalStocks analysisDate) w with
    | (inr result, w') =>
        (Returned {| success := true;
                     messageId := Smtp.messageId result;
                     accepted := Smtp.accepted result;
                     rejected := Smtp.rejected result;
                     error := None |}, w')
    | (inl error, w') =>
        let errorMessage :=
          match error with
          | ErrorObject message => message
          | OtherValue => "Unknown error occurred"
          end in
        (Returned {| success := false;
                     messageId := None;
                     accepted := [];
                     rejected := [recipientEmail];
                     error := Some errorMessage |}, w')
    end.

(** [sendStockEmailTool.execute(...)], as callers reach it: [execute]
    behind the check of the input. *)
Definition sendStockEmailTool (recipientEmail csvContent filename : string)
    (qualifyingCount totalStocks : float) (analysisDate : string)
    : M (tool_answer EmailOutput) :=
  if sendStockEmail_inputSchema recipientEmail qualifyingCount totalStocks
  then bind (sendStockEmail_execute recipientEmail csvContent filename
               qualifyingCount totalStocks analysisDate)
            (λ out, ret (Output out))
  else ret ValidationError.
End MailTool.

(** ** Vocabulary of the further statements *)

(** The entry of the last bar in one of the arrays of a chart:
    [quote.open[lastIndex]] with [lastIndex = quote.close.length - 1]. *)
Definition last_entry (field : chart_result → list (option float))
    (result : chart_result) : json_entry :=
  at_index (field result) (Z.of_nat (length (q_close result)) - 1).

(** An entry that is missing, null, NaN or a zero. *)
Definition falsy (entry : json_entry) : Prop :=
  match entry with
  | Some (Some x) => PrimFloat.is_nan x = true ∨ PrimFloat.eqb x 0 = true
  | _ => True
  end.

(** [v] is the number taken for [entry]: zero for a falsy entry, the
    entry itself for any other. *)
Definition taken_for (entry : json_entry) (v : float) : Prop :=
  (falsy entry → v = 0%float) ∧
  (∀ x, entry = Some (Some x) → ¬ falsy entry → v = x).

(** How many times the character [c] occurs in [s]. *)
Fixpoint count_char (c : ascii) (s : string) : nat :=
  match s with
  | EmptyString => 0
  | String a s' => (if Ascii.eqb a c then 1 else 0) + count_char c s'
  end.

(** A decimal digit. *)
Definition decimal_digit (c : ascii) : bool := has_char c "0123456789".

Section Analysed.
Context {World : Type}.
Context (http_chart : string → option Z → M (World := World) http_response).
Context (iso_date : float → option string).

(** The record was made for one of the symbols, from a bar and a history
    that were fetched for it. *)
Definition analysed (symbols : list string) (record : StockWithEMA) : Prop :=
  ∃ (sym : string) (w0 w1 w2 : World) (historicalPrices : list float),
    sym ∈ symbols ∧
    fetchStockFromYahoo http_chart iso_date sym w0 = (Returned (Some (base record)), w1) ∧
    fetchHistoricalPrices http_chart sym 100 w1 = (Returned historicalPrices, w2) ∧
    50 ≤ Z.of_nat (length historicalPrices) ∧
    ema50 record
    = to_number (arr_get (calculateEMA historicalPrices 50)
                         (alength (calculateEMA historicalPrices 50) - 1)) ∧
    qualifies record = qualifies_rule (base record) (ema50 record).
End Analysed.

(** The names of a chart hold no double quote. *)
Definition clean_names (result : chart_result) : Prop :=
  (∀ n, longName result = Some n → quotable n) ∧
  (∀ n, shortName result = Some n → quotable n).

(** ** Data for the further examples *)

(** A clock-free stand-in for [toISOString]: it throws on an invalid time
    value, as the real one does. *)
Definition valid_day (t : float) : option string :=
  if PrimFloat.is_nan t then None else Some "2025-09-10".

(** A provider that cannot be reached: every request throws. *)
Definition unreachable (_ : string) (_ : option Z) : M (World := unit) http_response :=
  throw.

(** A chart whose arrays are all empty. *)
Definition empty_chart : chart_result :=
  {| longName := Some "Acme Ltd"; shortName := None; timestamp := [];
     q_open := []; q_high := []; q_low := []; q_close := []; q_volume := [] |}.

(** A chart whose last bar has no low. *)
Definition bar_without_low : chart_result :=
  {| longName := Some "Acme Ltd"; shortName := None;
     timestamp := [Some 1757462400%float];
     q_open := [Some 10%float]; q_high := [Some 12%float]; q_low := [None];
     q_close := [Some 11%float]; q_volume := [Some 1000%float] |}.

(** A transport that refuses every message with an [Error]. *)
Definition refusing (_ : Smtp.Message) (w : unit) : (thrown + Smtp.Result) * unit :=
  (inl (ErrorObject "connection refused"), w).

(** A transport that accepts every message. *)
Definition accepting (message : Smtp.Message) (w : unit) : (thrown + Smtp.Result) * unit :=
  (inr {| Smtp.messageId := Some "id-1";
          Smtp.accepted := [Smtp.to message];
          Smtp.rejected := [] |}, w).

(** A stand-in for the check of an address: there is an at sign. *)
Definition with_at_sign (s : string) : bool := has_char "@"%char s.

(** A stand-in for the check of a number: NaN is none. *)
Definition not_nan (x : float) : bool := negb (PrimFloat.is_nan x).

(** A provider that always answers: a bar with low 9 and close 11 to the
    request for the latest bar, sixty closes of 10 to the other. *)
Definition steady (_ : string) (days : option Z) : M (World := unit) http_response :=
  λ w, (match days with
        | None => latest_bar 9 11
        | Some _ => flat_history 60 10
        end, w).
(** * Properties *)

Local Open Scope Z_scope.

(** ** Loops and arrays *)

Lemma for_from_snoc {S : Type} (n : nat) (i : Z) (body : Z → S → S) (s : S) :
  for_from (Datatypes.S n) i body s = body (i + Z.of_nat n) (for_from n i body s).
Proof.
  revert i s. induction n as [|n IH]; intros i s.
  - simpl. by rewrite Z.add_0_r.
  - change (for_from (Datatypes.S (Datatypes.S n)) i body s)
      with (for_from (Datatypes.S n) (i + 1) body (body i s)).
    rewrite IH.
    replace (i + 1 + Z.of_nat n) with (i + Z.of_nat (Datatypes.S n)) by lia.
    reflexivity.
Qed.

Lemma arr_get_set_eq {A} (a : jsarray A) (i : Z) (v : A) :
  arr_get (arr_set a i v) i = Some v.
Proof. unfold arr_get, arr_set. simpl. apply lookup_insert_eq. Qed.

Lemma arr_get_set_ne {A} (a : jsarray A) (i j : Z) (v : A) :
  i ≠ j → arr_get (arr_set a i v) j = arr_get a j.
Proof. intros Hne. unfold arr_get, arr_set. simpl. by apply lookup_insert_ne. Qed.

Lemma at_index_nat {A} (l : list A) (k : nat) :
  at_index l (Z.of_nat k) = l !! k.
Proof. unfold at_index. case_decide; [|lia]. by rewrite Nat2Z.id. Qed.

Lemma at_index_in_range {A} (l : list A) (i : Z) :
  0 ≤ i < Z.of_nat (length l) → ∃ x, l !! Z.to_nat i = Some x ∧ at_index l i = Some x.
Proof.
  intros Hi. destruct (lookup_lt_is_Some_2 l (Z.to_nat i)) as [x Hx]; [lia|].
  exists x. split; [done|]. unfold at_index. case_decide; [done|lia].
Qed.

Lemma sublist_map {A B} (f : A → B) (l k : list A) :
  sublist l k → sublist (map f l) (map f k).
Proof. induction 1; simpl; by constructor. Qed.

Section EMAFacts.
Context {num : Type} `{Number num}.
Implicit Types (prices : list num) (period : Z).

(** The first loop adds up a prefix of the series. *)
Lemma sum_loop_prefix prices (n : nat) :
  (n ≤ length prices)%nat →
  for_from n 0 (sum_step prices) (n_ofZ 0) = foldl n_add (n_ofZ 0) (take n prices).
Proof.
  induction n as [|n IH]; intros Hn; [done|].
  rewrite for_from_snoc, IH by lia. rewrite Z.add_0_l.
  destruct (lookup_lt_is_Some_2 prices n) as [x Hx]; [lia|].
  rewrite (take_S_r _ _ _ Hx), foldl_app. simpl.
  unfold sum_step. by rewrite at_index_nat, Hx.
Qed.

Lemma seed_mean prices period :
  0 ≤ period →
  seed prices period = mean (take (Z.to_nat period) prices).
Proof.
  intros Hp. unfold seed, mean, for_range. rewrite Z.sub_0_r.
  set (bound := Z.min period (Z.of_nat (length prices))).
  assert (Hlen : length (take (Z.to_nat period) prices) = Z.to_nat bound).
  { rewrite length_take. unfold bound. lia. }
  rewrite Hlen, Z2Nat.id by (unfold bound; lia).
  rewrite sum_loop_prefix by (unfold bound; lia).
  do 2 f_equal. unfold bound.
  destruct (Z.min_spec period (Z.of_nat (length prices))) as [[Hlt ->]|[Hge ->]]; [done|].
  rewrite Nat2Z.id, !firstn_all2; [done|lia|lia].
Qed.

Lemma calculateEMA_unfold prices period :
  calculateEMA prices period =
  ema_after prices period (Z.to_nat (Z.of_nat (length prices) - period)).
Proof. reflexivity. Qed.

Lemma ema_after_S prices period k :
  ema_after prices period (Datatypes.S k) =
  ema_step prices (multiplier_of period) (period + Z.of_nat k) (ema_after prices period k).
Proof. unfold ema_after. by rewrite for_from_snoc. Qed.

Lemma ema_after_keys prices period k j :
  is_Some (arr_get (ema_after prices period k) j) ↔ period - 1 ≤ j < period + Z.of_nat k.
Proof.
  induction k as [|k IH].
  - unfold ema_after. simpl. destruct (decide (j = period - 1)) as [->|Hne].
    + rewrite arr_get_set_eq. split; [lia|eauto].
    + rewrite arr_get_set_ne by done. unfold arr_get, arr_empty. simpl.
      rewrite lookup_empty. split; [by intros [? ?]|lia].
  - rewrite ema_after_S. unfold ema_step.
    destruct (decide (j = period + Z.of_nat k)) as [->|Hne].
    + rewrite arr_get_set_eq. split; [lia|eauto].
    + rewrite arr_get_set_ne by done. rewrite IH. lia.
Qed.

Lemma ema_after_length prices period k :
  period + Z.of_nat k ≤ max_length →
  alength (ema_after prices period k) = Z.max 0 (period + Z.of_nat k).
Proof.
  unfold max_length. induction k as [|k IH]; intros Hmax.
  - unfold ema_after. simpl. unfold max_length. case_decide; lia.
  - rewrite ema_after_S. unfold ema_step, arr_set. simpl. rewrite IH by lia.
    unfold max_length. case_decide; lia.
Qed.

(** Entries already written are not touched by later rounds. *)
Lemma ema_after_stable prices period k k' j :
  (k ≤ k')%nat → j < period + Z.of_nat k →
  arr_get (ema_after prices period k') j = arr_get (ema_after prices period k) j.
Proof.
  intros Hk Hj. induction Hk as [|k' Hk IH]; [done|].
  rewrite ema_after_S. unfold ema_step. rewrite arr_get_set_ne by lia. done.
Qed.

Lemma ema_after_seed prices period k :
  arr_get (ema_after prices period k) (period - 1) = Some (seed prices period).
Proof.
  rewrite (ema_after_stable prices period 0 k) by lia.
  unfold ema_after. simpl. apply arr_get_set_eq.
Qed.

Lemma ema_after_recurrence prices period k j :
  period ≤ j < period + Z.of_nat k →
  arr_get (ema_after prices period k) j =
  Some (ema_next (multiplier_of period)
          (to_number (at_index prices j))
          (to_number (arr_get (ema_after prices period k) (j - 1)))).
Proof.
  intros Hj.
  set (i := Z.to_nat (j - period)).
  rewrite (ema_after_stable prices period (Datatypes.S i) k j) by lia.
  rewrite (ema_after_stable prices period i k (j - 1)) by lia.
  rewrite ema_after_S. replace (period + Z.of_nat i) with j by lia.
  unfold ema_step. by rewrite arr_get_set_eq.
Qed.
End EMAFacts.

(** ** The EMA engine over binary64 numbers *)

Lemma float_of_Z_small :
  float_of_Z 0 = 0%float ∧ float_of_Z 1 = 1%float ∧ float_of_Z 2 = 2%float.
Proof. repeat split; reflexivity. Qed.

(** C2. For a series at least as long as the period (period at least 1),
    the entry at index [period - 1] is the arithmetic mean of the first
    [period] prices, and every later entry [i] is
    [(price[i] - ema[i-1]) * multiplier + ema[i-1]] with
    [multiplier = 2 / (period + 1)]. *)
Theorem calculateEMA_reference (prices : list float) (period : Z) :
  1 ≤ period → period ≤ Z.of_nat (length prices) →
  arr_get (calculateEMA prices period) (period - 1)
    = Some (mean (take (Z.to_nat period) prices)) ∧
  ∀ i, period ≤ i < Z.of_nat (length prices) →
    ∃ price prev,
      prices !! Z.to_nat i = Some price ∧
      arr_get (calculateEMA prices period) (i - 1) = Some prev ∧
      arr_get (calculateEMA prices period) i =
        Some (PrimFloat.add
                (PrimFloat.mul (PrimFloat.sub price prev)
                   (PrimFloat.div 2 (PrimFloat.add (float_of_Z period) 1)))
                prev).
Proof.
  intros Hp Hlen. rewrite calculateEMA_unfold. split.
  - rewrite ema_after_seed. f_equal. apply seed_mean. lia.
  - intros i Hi.
    destruct (at_index_in_range prices i) as (price & Hprice & Hat); [lia|].
    destruct (proj2 (ema_after_keys prices period
                (Z.to_nat (Z.of_nat (length prices) - period)) (i - 1)))
      as [prev Hprev]; [lia|].
    exists price, prev. split; [done|]. split; [done|].
    rewrite ema_after_recurrence by lia.
    rewrite Hat, Hprev. reflexivity.
Qed.

Lemma calculateEMA_reference_witness :
  1 ≤ 2 ∧ 2 ≤ Z.of_nat (length [1; 2; 3; 4]%float) ∧
  arr_get (calculateEMA [1; 2; 3; 4]%float 2) (2 - 1)
    = Some (mean (take (Z.to_nat 2) [1; 2; 3; 4]%float)).
Proof.
  split; [lia|]. split; [simpl; lia|].
  apply (calculateEMA_reference [1; 2; 3; 4]%float 2); simpl; lia.
Defined.

(** C3. For a series at least as long as the period, the result has the
    length of the input; its entries before index [period - 1] are absent
    and its entries from [period - 1] on are defined.  (An array has at
    most 2^32 - 1 elements.) *)
Theorem calculateEMA_shape (prices : list float) (period : Z) :
  Z.of_nat (length prices) ≤ max_length →
  period ≤ Z.of_nat (length prices) →
  alength (calculateEMA prices period) = Z.of_nat (length prices) ∧
  (∀ i, 0 ≤ i < period - 1 → arr_get (calculateEMA prices period) i = None) ∧
  (∀ i, period - 1 ≤ i < Z.of_nat (length prices) →
        is_Some (arr_get (calculateEMA prices period) i)).
Proof.
  intros Hmax Hlen. rewrite calculateEMA_unfold. split; [|split].
  - rewrite ema_after_length; lia.
  - intros i Hi. apply eq_None_not_Some. rewrite ema_after_keys. lia.
  - intros i Hi. apply ema_after_keys. lia.
Qed.

Lemma calculateEMA_shape_witness :
  Z.of_nat (length [1; 2; 3; 4]%float) ≤ max_length ∧
  3 ≤ Z.of_nat (length [1; 2; 3; 4]%float) ∧
  alength (calculateEMA [1; 2; 3; 4]%float 3) = Z.of_nat (length [1; 2; 3; 4]%float) ∧
  arr_get (calculateEMA [1; 2; 3; 4]%float 3) 1 = None ∧
  is_Some (arr_get (calculateEMA [1; 2; 3; 4]%float 3) 2).
Proof.
  assert (Hmax : Z.of_nat (length [1; 2; 3; 4]%float) ≤ max_length) by (vm_compute; discriminate).
  assert (Hlen : 3 ≤ Z.of_nat (length [1; 2; 3; 4]%float)) by (simpl; lia).
  destruct (calculateEMA_shape [1; 2; 3; 4]%float 3 Hmax Hlen) as (Hl & Hnone & Hsome).
  split; [exact Hmax|]. split; [exact Hlen|]. split; [exact Hl|].
  split; [apply Hnone; lia|apply Hsome; simpl; lia].
Defined.

(** In the batch the history has at least 50 prices, so the entry read as
    the current EMA, [emaValues[emaValues.length - 1]], is defined. *)
Lemma current_ema_defined (prices : list float) :
  50 ≤ Z.of_nat (length prices) ≤ max_length →
  is_Some (arr_get (calculateEMA prices 50) (alength (calculateEMA prices 50) - 1)).
Proof.
  intros Hlen. rewrite calculateEMA_unfold, ema_after_length by lia.
  apply ema_after_keys. lia.
Qed.



Example calculateEMA_short_series_values :
  arr_get (calculateEMA [1; 2]%float 5) 4 = Some 1.5%float ∧
  arr_get (calculateEMA ([] : list float) 5) 4 = Some nan.
Proof. split; vm_compute; reflexivity. Qed.


(** ** Rounding of binary64 operations *)
Lemma digits2_pos_bounds (m : positive) :
  2 ^ (Z.pos (digits2_pos m) - 1) ≤ Z.pos m < 2 ^ Z.pos (digits2_pos m).
Proof.
  induction m as [m IH|m IH|]; simpl digits2_pos.
  - rewrite Pos2Z.inj_succ.
    replace (Z.succ (Z.pos (digits2_pos m)) - 1) with (Z.succ (Z.pos (digits2_pos m) - 1)) by lia.
    rewrite !Z.pow_succ_r by lia. lia.
  - rewrite Pos2Z.inj_succ.
    replace (Z.succ (Z.pos (digits2_pos m)) - 1) with (Z.succ (Z.pos (digits2_pos m) - 1)) by lia.
    rewrite !Z.pow_succ_r by lia. lia.
  - simpl. lia.
Qed.

Lemma Zdigits2_bounds (m : Z) :
  0 < m → 2 ^ (Zdigits2 m - 1) ≤ m < 2 ^ Zdigits2 m.
Proof. destruct m as [|p|p]; try lia. intros _. apply digits2_pos_bounds. Qed.

Lemma Zdigits2_nonneg (m : Z) : 0 ≤ Zdigits2 m.
Proof. destruct m; simpl; lia. Qed.

(** The number of digits is determined by the bounds. *)
Lemma Zdigits2_unique (m d : Z) :
  0 < m → 2 ^ (d - 1) ≤ m < 2 ^ d → Zdigits2 m = d.
Proof.
  intros Hm [Hlo Hhi]. pose proof (Zdigits2_bounds m Hm) as [Hlo' Hhi'].
  pose proof (Zdigits2_nonneg m) as Hd0.
  assert (Hd : 0 < d).
  { destruct (Z_lt_le_dec 0 d) as [|Hle]; [done|].
    destruct (Z.eq_dec d 0) as [->|Hne]; [simpl in Hhi; lia|].
    rewrite (Z.pow_neg_r 2 d) in Hhi by lia. lia. }
  destruct (Z.lt_trichotomy (Zdigits2 m) d) as [Hlt|[Heq|Hgt]]; [|done|].
  - assert (2 ^ Zdigits2 m ≤ 2 ^ (d - 1)) by (apply Z.pow_le_mono_r; lia). lia.
  - assert (2 ^ d ≤ 2 ^ (Zdigits2 m - 1)) by (apply Z.pow_le_mono_r; lia). lia.
Qed.

(** *** Shifting right *)
Lemma iter_pos_nat {A} (f : A → A) (p : positive) (x : A) :
  SpecFloat.iter_pos f p x = Nat.iter (Pos.to_nat p) f x.
Proof.
  revert x. induction p as [p IH|p IH|]; intros x; simpl SpecFloat.iter_pos.
  - rewrite !IH, Pos2Nat.inj_xI.
    replace (2 * Pos.to_nat p)%nat with (Pos.to_nat p + Pos.to_nat p)%nat by lia.
    by rewrite Nat.iter_succ_r, Nat.iter_add.
  - rewrite !IH, Pos2Nat.inj_xO.
    replace (2 * Pos.to_nat p)%nat with (Pos.to_nat p + Pos.to_nat p)%nat by lia.
    by rewrite Nat.iter_add.
  - reflexivity.
Qed.

(** What [k] steps of [shr_1] leave of a non-negative mantissa: the
    quotient by [2^k]; the round bit and the sticky bit are both unset
    exactly when nothing was lost. *)
Lemma shr_1_iter (k : nat) (m : Z) :
  0 ≤ m →
  let mrs := Nat.iter k shr_1 (Build_shr_record m false false) in
  shr_m mrs = m / 2 ^ Z.of_nat k ∧
  (shr_r mrs = false ∧ shr_s mrs = false ↔ m = shr_m mrs * 2 ^ Z.of_nat k).
Proof.
  intros Hm. induction k as [|k IH].
  - simpl. rewrite Z.div_1_r. split; [done|]. split; [lia|done].
  - rewrite Nat2Z.inj_succ, Z.pow_succ_r by lia.
    simpl Nat.iter. destruct IH as [IHm IHx].
    destruct (Nat.iter k shr_1 _) as [mk rk sk]. simpl in IHm, IHx.
    assert (Hpk : 0 < 2 ^ Z.of_nat k) by (apply Z.pow_pos_nonneg; lia).
    assert (Hmk : 0 ≤ mk) by (rewrite IHm; apply Z.div_pos; lia).
    assert (Hdiv : m / (2 * 2 ^ Z.of_nat k) = mk / 2).
    { rewrite IHm, Z.mul_comm, <- Z.div_div by lia. done. }
    assert (Hrem : mk * 2 ^ Z.of_nat k ≤ m < (mk + 1) * 2 ^ Z.of_nat k).
    { rewrite IHm. pose proof (Z.div_mod m (2 ^ Z.of_nat k) ltac:(lia)).
      pose proof (Z.mod_pos_bound m (2 ^ Z.of_nat k) Hpk). nia. }
    rewrite Hdiv.
    destruct mk as [|[p|p|]|p]; try lia; simpl shr_1; simpl shr_m; simpl shr_r; simpl shr_s.
    + split; [done|]. rewrite orb_false_iff. split.
      * intros [_ Hrs]. apply IHx in Hrs. lia.
      * intros Hz. split; [done|]. apply IHx. lia.
    + rewrite (Pos2Z.inj_xI p) in *.
      split; [apply Z.div_unique with 1; lia|].
      split; [by intros [? _]|]. intros Hz. exfalso. nia.
    + rewrite (Pos2Z.inj_xO p) in *.
      split; [apply Z.div_unique with 0; lia|].
      rewrite orb_false_iff. split.
      * intros [_ Hrs]. apply IHx in Hrs. rewrite Hrs. ring.
      * intros Hz. split; [done|]. apply IHx. rewrite Hz. ring.
    + split; [done|]. split; [by intros [? _]|]. intros Hz. exfalso. nia.
Qed.

Lemma round_nearest_even_cases (m : Z) (l : location) :
  (round_nearest_even m l = m ∨ round_nearest_even m l = m + 1) ∧
  (l = loc_Exact → round_nearest_even m l = m).
Proof.
  destruct l as [|[]]; simpl.
  - split; [by left|done].
  - destruct (Z.even m); (split; [auto|done]).
  - split; [by left|done].
  - split; [by right|done].
Qed.

Lemma loc_of_shr_record_exact (mrs : shr_record) :
  loc_of_shr_record mrs = loc_Exact ↔ shr_r mrs = false ∧ shr_s mrs = false.
Proof. destruct mrs as [m [] []]; simpl; split; try done; intros [? ?]; done. Qed.

Lemma rounding_exact (B V : Z) : rounding B V V.
Proof. intros k j _ _. split; done. Qed.

Lemma rounding_opp (B V R : Z) : rounding B V R → rounding B (- V) (- R).
Proof.
  intros Hr k j Hj Hk. destruct (Hr (- k) j Hj) as [Hlo Hhi]; [lia|].
  rewrite Z.mul_opp_l in Hlo, Hhi. split; lia.
Qed.

Lemma pow2_pos (x : Z) : 0 ≤ x → 0 < 2 ^ x.
Proof. intros. apply Z.pow_pos_nonneg; lia. Qed.

Lemma pow2_split (x y : Z) : 0 ≤ x → 0 ≤ y → 2 ^ (x + y) = 2 ^ x * 2 ^ y.
Proof. intros. apply Z.pow_add_r; lia. Qed.

(** Between two neighbours [a * u] and [(a + 1) * u] of the grid there is
    no other number of the grid. *)
Lemma rounding_bracket (B a e1 V R : Z) :
  1074 ≤ B → -1074 ≤ e1 → 0 ≤ a < 2 ^ 53 → (2 ^ 52 ≤ a ∨ e1 = -1074) →
  a * 2 ^ (e1 + B) ≤ V < (a + 1) * 2 ^ (e1 + B) →
  (R = a * 2 ^ (e1 + B) ∨ R = (a + 1) * 2 ^ (e1 + B)) →
  (V = a * 2 ^ (e1 + B) → R = V) →
  rounding B V R.
Proof.
  intros HB He1 Ha Hnorm HV HR Hexact k j Hj Hk.
  set (u := 2 ^ (e1 + B)) in *. set (w := 2 ^ (j + B)).
  assert (Hu : 0 < u) by (apply pow2_pos; lia).
  assert (Hw : 0 < w) by (apply pow2_pos; lia).
  destruct (Z_le_gt_dec e1 j) as [Hle|Hgt].
  - assert (Hwu : w = 2 ^ (j - e1) * u).
    { unfold w, u. rewrite <- pow2_split by lia. f_equal. lia. }
    assert (Hp : 0 < 2 ^ (j - e1)) by (apply pow2_pos; lia).
    set (c := k * 2 ^ (j - e1)).
    assert (Hg : k * w = c * u) by (unfold c; rewrite Hwu; ring).
    rewrite Hg. split.
    + intros Hc. assert (c < a + 1) by nia. assert (c * u ≤ a * u) by nia.
      destruct HR as [->| ->]; nia.
    + intros Hc. destruct (Z.eq_dec V (a * u)) as [Heq|Hne].
      * rewrite (Hexact Heq). done.
      * assert (a < c) by nia. assert ((a + 1) * u ≤ c * u) by nia.
        destruct HR as [->| ->]; nia.
  - destruct Hnorm as [Ha52|He]; [|lia].
    assert (Huw : u = 2 ^ (e1 - j) * w).
    { unfold w, u. rewrite <- pow2_split by lia. f_equal. lia. }
    assert (Hp : 2 ^ 1 ≤ 2 ^ (e1 - j)) by (apply Z.pow_le_mono_r; lia).
    change (2 ^ 1) with 2 in Hp.
    assert (Hg : k * w ≤ a * u).
    { rewrite Huw. assert (k ≤ 2 ^ 53) by lia.
      change (2 ^ 53) with (2 * 2 ^ 52) in *. nia. }
    split.
    + intros _. destruct HR as [->| ->]; nia.
    + intros Hc. assert (Heq : V = a * u) by lia. rewrite (Hexact Heq). done.
Qed.

Lemma fexp_eq (e : Z) : fexp prec emax e = Z.max (e - 53) (-1074).
Proof. reflexivity. Qed.

(** The first shift of [binary_round_aux] on an exact positive mantissa. *)
Lemma shr_fexp_exact (m e : Z) :
  0 ≤ m →
  let n := fexp prec emax (Zdigits2 m + e) - e in
  (n ≤ 0 → shr_fexp prec emax m e loc_Exact = (Build_shr_record m false false, e)) ∧
  (0 < n →
   ∃ mrs, shr_fexp prec emax m e loc_Exact = (mrs, e + n) ∧
          shr_m mrs = m / 2 ^ n ∧
          (loc_of_shr_record mrs = loc_Exact ↔ m = shr_m mrs * 2 ^ n)).
Proof.
  intros Hm n. unfold shr_fexp. fold n. simpl shr_record_of_loc. split.
  - intros Hn. unfold shr. destruct n; first [done|lia].
  - intros Hn. unfold shr. destruct n as [|p|p] eqn:Hp; try lia.
    eexists. split; [reflexivity|].
    rewrite iter_pos_nat.
    pose proof (shr_1_iter (Pos.to_nat p) m Hm) as [Hq Hx].
    rewrite positive_nat_Z in Hq, Hx.
    split; [exact Hq|]. by rewrite loc_of_shr_record_exact.
Qed.

Lemma div_pow2_bounds (m n lo hi : Z) :
  0 ≤ n → 0 ≤ lo → 0 ≤ hi →
  2 ^ (lo + n) ≤ m < 2 ^ (hi + n) → 2 ^ lo ≤ m / 2 ^ n < 2 ^ hi.
Proof.
  intros Hn Hlo Hhi [H1 H2]. rewrite !pow2_split in * by lia.
  pose proof (pow2_pos n Hn). split.
  - apply Z.div_le_lower_bound; lia.
  - apply Z.div_lt_upper_bound; lia.
Qed.

Lemma div_pow2_upper (m n hi : Z) :
  0 ≤ n → 0 ≤ hi → 0 ≤ m < 2 ^ (hi + n) → 0 ≤ m / 2 ^ n < 2 ^ hi.
Proof.
  intros Hn Hhi [H1 H2]. rewrite !pow2_split in * by lia.
  pose proof (pow2_pos n Hn). split.
  - apply Z.div_pos; lia.
  - apply Z.div_lt_upper_bound; lia.
Qed.

(** [binary_round_aux] on an exact positive mantissa whose exponent is not
    above the one of its format: the result is a rounding of the value. *)
Lemma binary_round_aux_rounding (sx : bool) (mx : positive) (ex B : Z) :
  ex ≤ fexp prec emax (Zdigits2 (Z.pos mx) + ex) →
  0 ≤ ex + B → 1074 ≤ B →
  ∃ m e : Z,
    binary_round_aux prec emax sx (Z.pos mx) ex loc_Exact = encode sx m e ∧
    0 ≤ m < 2 ^ 53 ∧ -1074 ≤ e ∧ (2 ^ 52 ≤ m ∨ e = -1074) ∧
    rounding B (Z.pos mx * 2 ^ (ex + B)) (m * 2 ^ (e + B)).
Proof.
  intros Halign HexB HB.
  pose proof (Zdigits2_bounds (Z.pos mx) ltac:(lia)) as Hdg.
  pose proof (Zdigits2_nonneg (Z.pos mx)) as Hdg0.
  set (dg := Zdigits2 (Z.pos mx)) in *.
  rewrite fexp_eq in Halign.
  unfold binary_round_aux.
  destruct (shr_fexp_exact (Z.pos mx) ex ltac:(lia)) as [Hno Hshift].
  fold dg in Hno, Hshift. rewrite fexp_eq in Hno, Hshift.
  set (e1 := Z.max (dg + ex - 53) (-1074)) in *.
  destruct (Z_le_gt_dec (e1 - ex) 0) as [Hn|Hn].
  - (* no shift: the value is kept *)
    assert (He : e1 = ex) by lia.
    rewrite (Hno Hn). simpl loc_of_shr_record. simpl round_nearest_even. simpl shr_m at 1.
    rewrite (Hno Hn). simpl shr_m.
    exists (Z.pos mx), ex. split; [reflexivity|].
    assert (Hdg53 : dg ≤ 53) by lia.
    assert (Hmx : Z.pos mx < 2 ^ 53).
    { assert (2 ^ dg ≤ 2 ^ 53) by (apply Z.pow_le_mono_r; lia). lia. }
    split; [lia|]. split; [lia|]. split.
    + destruct (Z.eq_dec ex (-1074)) as [|Hne]; [by right|left].
      assert (dg = 53) by lia. subst dg. rewrite H in Hdg. simpl in Hdg. lia.
    + apply rounding_exact.
  - (* a shift by [n] bits, then rounding *)
    destruct (Hshift ltac:(lia)) as (mrs & Heq & Hquot & Hexact).
    rewrite Heq. set (n := e1 - ex) in *.
    replace (ex + n) with e1 by lia.
    destruct (round_nearest_even_cases (shr_m mrs) (loc_of_shr_record mrs)) as [Hcases Hsame].
    set (a := shr_m mrs) in *.
    set (mr := round_nearest_even a (loc_of_shr_record mrs)) in *.
    assert (Hn0 : 0 < n) by lia.
    assert (Hpn : 0 < 2 ^ n) by (apply pow2_pos; lia).
    assert (Hbr : a * 2 ^ n ≤ Z.pos mx < (a + 1) * 2 ^ n).
    { rewrite Hquot. pose proof (Z.div_mod (Z.pos mx) (2 ^ n) ltac:(lia)).
      pose proof (Z.mod_pos_bound (Z.pos mx) (2 ^ n) Hpn). nia. }
    assert (Ha0 : 0 ≤ a) by (rewrite Hquot; apply Z.div_pos; lia).
    assert (Hu : 2 ^ (e1 + B) = 2 ^ n * 2 ^ (ex + B)).
    { rewrite <- pow2_split by lia. f_equal. lia. }
    assert (Hpe : 0 < 2 ^ (ex + B)) by (apply pow2_pos; lia).
    assert (Ha : a < 2 ^ 53 ∧ (2 ^ 52 ≤ a ∨ (e1 = -1074 ∧ a < 2 ^ 52))).
    { destruct (Z_le_gt_dec (-1074) (dg + ex - 53)) as [Hnormal|Hsub].
      - assert (Hdn : dg = 53 + n) by lia.
        destruct (div_pow2_bounds (Z.pos mx) n 52 53) as [? ?]; try lia.
        replace (52 + n) with (dg - 1) by lia. replace (53 + n) with dg by lia. done.
      - assert (Hdn : dg ≤ 52 + n) by lia.
        destruct (div_pow2_upper (Z.pos mx) n 52) as [? ?]; try lia.
        assert (2 ^ dg ≤ 2 ^ (52 + n)) by (apply Z.pow_le_mono_r; lia). lia. }
    destruct Ha as [Ha53 Hanorm].
    assert (Hround : rounding B (Z.pos mx * 2 ^ (ex + B)) (mr * 2 ^ (e1 + B))).
    { apply (rounding_bracket B a e1); try lia.
      - rewrite Hu. nia.
      - intros HV. rewrite Hu in HV.
        assert (Hmx : Z.pos mx = a * 2 ^ n) by nia.
        apply Hexact in Hmx. rewrite (Hsame Hmx), Hu. nia. }
    assert (Hmr0 : 0 ≤ mr) by (destruct Hcases as [Hc|Hc]; rewrite Hc; lia).
    destruct (Z.eq_dec mr (2 ^ 53)) as [Hcarry|Hnocarry].
    + (* the mantissa reached 2^53: one more shift, which is exact *)
      assert (Ha52 : 2 ^ 52 ≤ a) by (destruct Hcases as [Hc|Hc]; rewrite Hc in Hcarry; lia).
      assert (He1 : -1074 ≤ e1) by (unfold e1; lia).
      destruct (shr_fexp_exact mr e1 Hmr0) as [_ Hshift2].
      rewrite (Zdigits2_unique mr 54) in Hshift2 by (rewrite Hcarry; simpl; lia).
      rewrite fexp_eq in Hshift2.
      replace (Z.max (54 + e1 - 53) (-1074) - e1) with 1 in Hshift2 by lia.
      destruct (Hshift2 ltac:(lia)) as (mrs2 & Heq2 & Hquot2 & _).
      rewrite Heq2. rewrite Hquot2, Hcarry. change (2 ^ 53 / 2 ^ 1) with (2 ^ 52).
      exists (2 ^ 52), (e1 + 1). split; [reflexivity|].
      split; [simpl; lia|]. split; [lia|]. split; [left; lia|].
      replace (2 ^ 52 * 2 ^ (e1 + 1 + B)) with (mr * 2 ^ (e1 + B)); [done|].
      rewrite Hcarry. replace (e1 + 1 + B) with (1 + (e1 + B)) by lia.
      rewrite (pow2_split 1 (e1 + B)) by lia. change (2 ^ 53) with (2 ^ 52 * 2 ^ 1). ring.
    + (* no carry: the second shift does nothing *)
      assert (Hmr53 : mr < 2 ^ 53) by (destruct Hcases as [Hc|Hc]; rewrite Hc in *; lia).
      destruct (shr_fexp_exact mr e1 Hmr0) as [Hno2 _].
      rewrite fexp_eq in Hno2.
      assert (Hn2 : Z.max (Zdigits2 mr + e1 - 53) (-1074) - e1 ≤ 0).
      { destruct (Z.eq_dec mr 0) as [->|Hmr]; [simpl; lia|].
        pose proof (Zdigits2_bounds mr ltac:(lia)) as [Hlo Hhi].
        assert (Zdigits2 mr ≤ 53); [|lia].
        destruct (Z_le_gt_dec (Zdigits2 mr) 53) as [|Hgt]; [done|].
        assert (2 ^ 53 ≤ 2 ^ (Zdigits2 mr - 1)) by (apply Z.pow_le_mono_r; lia). lia. }
      rewrite (Hno2 Hn2). simpl shr_m.
      exists mr, e1. split; [reflexivity|]. split; [lia|]. split; [lia|].
      split; [|done].
      destruct Hanorm as [Ha52|[He Ha52]]; [left|right; done].
      destruct Hcases as [Hc|Hc]; rewrite Hc; lia.
Qed.

Lemma pos_iter_xO (m d : positive) : Z.pos (Pos.iter xO m d) = Z.pos m * 2 ^ Z.pos d.
Proof.
  induction d as [|d IH] using Pos.peano_ind.
  - simpl. lia.
  - rewrite Pos.iter_succ, Pos2Z.inj_xO, IH, Pos2Z.inj_succ, Z.pow_succ_r by lia. ring.
Qed.

Lemma Zdigits2_shift (m d : Z) :
  0 < m → 0 ≤ d → Zdigits2 (m * 2 ^ d) = Zdigits2 m + d.
Proof.
  intros Hm Hd. pose proof (Zdigits2_bounds m Hm) as [Hlo Hhi].
  pose proof (pow2_pos d Hd) as Hp.
  assert (Hdg : 0 < Zdigits2 m).
  { destruct m; simpl; lia. }
  apply Zdigits2_unique; [nia|].
  replace (Zdigits2 m + d - 1) with ((Zdigits2 m - 1) + d) by lia.
  rewrite !pow2_split by lia. nia.
Qed.

Lemma binary_round_rounding (sx : bool) (mx : positive) (ex B : Z) :
  0 ≤ ex + B → 1074 ≤ B →
  ∃ m e : Z,
    binary_round prec emax sx mx ex = encode sx m e ∧
    0 ≤ m < 2 ^ 53 ∧ -1074 ≤ e ∧ (2 ^ 52 ≤ m ∨ e = -1074) ∧
    rounding B (Z.pos mx * 2 ^ (ex + B)) (m * 2 ^ (e + B)).
Proof.
  intros HexB HB. unfold binary_round, shl_align.
  change (Z.pos (digits2_pos mx)) with (Zdigits2 (Z.pos mx)).
  set (ex' := fexp prec emax (Zdigits2 (Z.pos mx) + ex)).
  assert (Hex' : -1074 ≤ ex') by (unfold ex'; rewrite fexp_eq; lia).
  destruct (ex' - ex) as [|d|d] eqn:Hd.
  - apply binary_round_aux_rounding; lia.
  - apply binary_round_aux_rounding; lia.
  - assert (Hmz : Z.pos (Pos.iter xO mx d) = Z.pos mx * 2 ^ (ex - ex')).
    { rewrite pos_iter_xO. f_equal. f_equal. lia. }
    destruct (binary_round_aux_rounding sx (Pos.iter xO mx d) ex' B)
      as (m & e & Hr & Hm & He & Hn & Hround); try lia.
    { rewrite Hmz, Zdigits2_shift by lia.
      replace (Zdigits2 (Z.pos mx) + (ex - ex') + ex') with (Zdigits2 (Z.pos mx) + ex) by lia.
      fold ex'. lia. }
    exists m, e. split; [done|]. split; [done|]. split; [done|]. split; [done|].
    replace (Z.pos mx * 2 ^ (ex + B)) with (Z.pos (Pos.iter xO mx d) * 2 ^ (ex' + B)); [done|].
    rewrite Hmz. replace (ex + B) with ((ex - ex') + (ex' + B)) by lia.
    rewrite (pow2_split (ex - ex') (ex' + B)) by lia. ring.
Qed.

Lemma binary_normalize_rounding (M e B : Z) :
  0 ≤ e + B → 1074 ≤ B →
  rounded_to B (M * 2 ^ (e + B)) (binary_normalize prec emax M e false).
Proof.
  intros HeB HB. destruct M as [|m|m]; simpl binary_normalize.
  - exists false, 0, (-1074). split; [reflexivity|]. split; [lia|]. split; [lia|].
    split; [by right|]. simpl. apply rounding_exact.
  - destruct (binary_round_rounding false m e B HeB HB) as (m' & e' & Hr & ? & ? & ? & ?).
    exists false, m', e'. done.
  - destruct (binary_round_rounding true m e B HeB HB) as (m' & e' & Hr & ? & ? & ? & Hround).
    exists true, m', e'. split; [done|]. split; [done|]. split; [done|]. split; [done|].
    replace (Z.neg m * 2 ^ (e + B)) with (- (Z.pos m * 2 ^ (e + B))) by lia.
    replace (- m' * 2 ^ (e' + B)) with (- (m' * 2 ^ (e' + B))) by lia.
    by apply rounding_opp.
Qed.

Lemma valid_finite_inv (s : bool) (m : positive) (e : Z) :
  valid_binary (S754_finite s m e) = true →
  -1074 ≤ e ≤ 971 ∧ Z.pos m < 2 ^ 53 ∧ (2 ^ 52 ≤ Z.pos m ∨ e = -1074).
Proof.
  unfold SpecFloat.valid_binary, bounded, canonical_mantissa.
  intros [Hc He]%andb_true_iff. apply Z.eqb_eq in Hc. apply Z.leb_le in He.
  change (emax - prec) with 971 in He. rewrite fexp_eq in Hc.
  pose proof (digits2_pos_bounds m) as [Hlo Hhi].
  set (dg := Z.pos (digits2_pos m)) in *.
  split; [lia|]. split.
  - assert (2 ^ dg ≤ 2 ^ 53) by (apply Z.pow_le_mono_r; lia). lia.
  - destruct (Z.eq_dec e (-1074)) as [|Hne]; [by right|left].
    assert (Hdg : dg = 53) by lia. rewrite Hdg in Hlo. exact Hlo.
Qed.

Lemma valid_rounded (B : Z) (x : spec_float) :
  valid_binary x = true → SFfinite x = true → rounded_to B (SFval B x) x.
Proof.
  intros Hv Hf. destruct x as [s|s| |s m e]; try discriminate.
  - exists s, 0, (-1074). split; [reflexivity|]. split; [lia|]. split; [lia|].
    split; [by right|]. destruct s; apply rounding_exact.
  - apply valid_finite_inv in Hv as (He & Hm & Hn).
    exists s, (Z.pos m), e. split.
    { unfold encode. destruct (Z.leb_spec e 971); [done|lia]. }
    split; [lia|]. split; [lia|]. split; [done|].
    simpl. destruct s; apply rounding_exact.
Qed.

Lemma encode_val (B : Z) (s : bool) (m e : Z) :
  0 ≤ m → SFfinite (encode s m e) = true →
  SFval B (encode s m e) = (if s then - m else m) * 2 ^ (e + B).
Proof.
  intros Hm. unfold encode. destruct m as [|p|p]; try lia.
  - intros _. by destruct s.
  - destruct (e <=? 971); [|discriminate]. intros _. by destruct s.
Qed.

Lemma rounded_to_val (B V : Z) (r : spec_float) :
  rounded_to B V r → SFfinite r = true → rounding B V (SFval B r).
Proof.
  intros (s & m & e & -> & Hm & He & Hn & Hround) Hf.
  rewrite encode_val by (done || lia). done.
Qed.

Lemma rounded_to_finite (B V : Z) (r : spec_float) :
  1074 ≤ B → rounded_to B V r → - max_value B ≤ V ≤ max_value B → SFfinite r = true.
Proof.
  intros HB (s & m & e & -> & Hm & He & Hn & Hround) HV.
  unfold encode. destruct m as [|p|p]; try lia; [done|].
  destruct (Z.leb_spec e 971) as [|Hbig]; [done|]. exfalso.
  destruct Hn as [Hn|Hn]; [|lia].
  assert (Hp : 0 < 2 ^ (971 + B)) by (apply pow2_pos; lia).
  assert (Hsplit : 2 ^ (e + B) = 2 ^ (e - 971) * 2 ^ (971 + B)).
  { rewrite <- pow2_split by lia. f_equal. lia. }
  assert (Hpe : 2 ^ 1 ≤ 2 ^ (e - 971)) by (apply Z.pow_le_mono_r; lia).
  change (2 ^ 1) with 2 in Hpe.
  unfold max_value in HV.
  destruct s.
  - destruct (Hround (- (2 ^ 53 - 1)) 971) as [Hlo _]; [lia|simpl; lia|].
    rewrite Hsplit in Hlo. change (2 ^ 53) with (2 * 2 ^ 52) in *. nia.
  - destruct (Hround (2 ^ 53 - 1) 971) as [_ Hhi]; [lia|simpl; lia|].
    rewrite Hsplit in Hhi. change (2 ^ 53) with (2 * 2 ^ 52) in *. nia.
Qed.

Lemma valid_val_bounds (B : Z) (x : spec_float) :
  1074 ≤ B → valid_binary x = true →
  - max_value B ≤ SFval B x ≤ max_value B.
Proof.
  intros HB Hv. unfold max_value.
  assert (Hp : 0 < 2 ^ (971 + B)) by (apply pow2_pos; lia).
  destruct x as [s|s| |s m e]; simpl; try lia.
  apply valid_finite_inv in Hv as (He & Hm & Hn).
  assert (Hpe : 0 < 2 ^ (e + B)) by (apply pow2_pos; lia).
  assert (Hle : 2 ^ (e + B) ≤ 2 ^ (971 + B)) by (apply Z.pow_le_mono_r; lia).
  destruct s; nia.
Qed.

(** A value of the grid, as a number [k * 2^j]. *)
Lemma valid_val_grid (B : Z) (x : spec_float) :
  valid_binary x = true →
  ∃ k j, -1074 ≤ j ∧ Z.abs k ≤ 2 ^ 53 ∧ SFval B x = k * 2 ^ (j + B).
Proof.
  intros Hv. destruct x as [s|s| |s m e]; simpl;
    try (exists 0, 0; split; [lia|]; split; [simpl; lia|lia]).
  apply valid_finite_inv in Hv as (He & Hm & Hn).
  exists (if s then Z.neg m else Z.pos m), e. destruct s; (split; [lia|]; split; [lia|done]).
Qed.

Lemma shl_align_fst (mx : positive) (ex ez : Z) :
  ez ≤ ex → Z.pos (fst (shl_align mx ex ez)) = Z.pos mx * 2 ^ (ex - ez).
Proof.
  intros Hle. unfold shl_align. destruct (ez - ex) as [|d|d] eqn:Hd; simpl fst.
  - replace (ex - ez) with 0 by lia. simpl. lia.
  - lia.
  - rewrite pos_iter_xO. f_equal. f_equal. lia.
Qed.

Lemma signed_val (B : Z) (s : bool) (m : positive) (e ez : Z) :
  ez ≤ e → 0 ≤ ez + B →
  SFval B (S754_finite s m e)
  = cond_Zopp s (Z.pos (fst (shl_align m e ez))) * 2 ^ (ez + B).
Proof.
  intros Hle HB. rewrite shl_align_fst by done. simpl SFval.
  replace (e + B) with ((e - ez) + (ez + B)) by lia.
  rewrite (pow2_split (e - ez) (ez + B)) by lia.
  destruct s; simpl cond_Zopp; lia.
Qed.

(** Addition of finite numbers is a rounding of the exact sum. *)
Lemma SFadd_rounded (B : Z) (x y : spec_float) :
  1074 ≤ B →
  valid_binary x = true → valid_binary y = true →
  SFfinite x = true → SFfinite y = true →
  rounded_to B (SFval B x + SFval B y) (SFadd prec emax x y).
Proof.
  intros HB Hvx Hvy Hfx Hfy.
  destruct x as [sx|sx| |sx mx ex], y as [sy|sy| |sy my ey]; try discriminate.
  - simpl SFval. simpl SFadd.
    destruct sx, sy; apply (valid_rounded B (S754_zero _)); done.
  - rewrite Z.add_0_l. by apply valid_rounded.
  - rewrite Z.add_0_r. by apply valid_rounded.
  - pose proof (valid_finite_inv _ _ _ Hvx) as (Hex & _).
    pose proof (valid_finite_inv _ _ _ Hvy) as (Hey & _).
    unfold SFadd. set (ez := Z.min ex ey).
    rewrite (signed_val B sx mx ex ez), (signed_val B sy my ey ez) by lia.
    rewrite <- Z.mul_add_distr_r.
    apply binary_normalize_rounding; lia.
Qed.

Lemma SFsub_rounded (B : Z) (x y : spec_float) :
  1074 ≤ B →
  valid_binary x = true → valid_binary y = true →
  SFfinite x = true → SFfinite y = true →
  rounded_to B (SFval B x - SFval B y) (SFsub prec emax x y).
Proof.
  intros HB Hvx Hvy Hfx Hfy.
  destruct x as [sx|sx| |sx mx ex], y as [sy|sy| |sy my ey]; try discriminate.
  - simpl SFval. simpl SFsub.
    destruct sx, sy; apply (valid_rounded B (S754_zero _)); done.
  - simpl SFsub. rewrite Z.sub_0_l.
    replace (- SFval B (S754_finite sy my ey)) with (SFval B (S754_finite (negb sy) my ey))
      by (destruct sy; simpl; lia).
    by apply valid_rounded.
  - rewrite Z.sub_0_r. by apply valid_rounded.
  - pose proof (valid_finite_inv _ _ _ Hvx) as (Hex & _).
    pose proof (valid_finite_inv _ _ _ Hvy) as (Hey & _).
    unfold SFsub. set (ez := Z.min ex ey).
    rewrite (signed_val B sx mx ex ez), (signed_val B sy my ey ez) by lia.
    rewrite <- Z.mul_sub_distr_r.
    apply binary_normalize_rounding; lia.
Qed.

Lemma Zdigits2_mul (a b : Z) :
  0 < a → 0 < b → Zdigits2 a + Zdigits2 b - 1 ≤ Zdigits2 (a * b).
Proof.
  intros Ha Hb.
  pose proof (Zdigits2_bounds a Ha) as [Hla Hha].
  pose proof (Zdigits2_bounds b Hb) as [Hlb Hhb].
  pose proof (Zdigits2_bounds (a * b) ltac:(nia)) as [Hl Hh].
  assert (Hda : 0 < Zdigits2 a) by (destruct a; simpl; lia).
  assert (Hdb : 0 < Zdigits2 b) by (destruct b; simpl; lia).
  assert (Hprod : 2 ^ (Zdigits2 a - 1 + (Zdigits2 b - 1)) ≤ a * b).
  { rewrite pow2_split by lia.
    pose proof (pow2_pos (Zdigits2 a - 1) ltac:(lia)).
    pose proof (pow2_pos (Zdigits2 b - 1) ltac:(lia)). nia. }
  destruct (Z_lt_le_dec (Zdigits2 (a * b)) (Zdigits2 a + Zdigits2 b - 1)) as [Hlt|]; [|done].
  assert (2 ^ Zdigits2 (a * b) ≤ 2 ^ (Zdigits2 a - 1 + (Zdigits2 b - 1)))
    by (apply Z.pow_le_mono_r; lia).
  lia.
Qed.

Lemma valid_digits (s : bool) (m : positive) (e : Z) :
  valid_binary (S754_finite s m e) = true →
  -1074 ≤ e ∧ 0 < Zdigits2 (Z.pos m) ∧ (Zdigits2 (Z.pos m) = 53 ∨ e = -1074).
Proof.
  unfold SpecFloat.valid_binary, bounded, canonical_mantissa.
  intros [Hc He]%andb_true_iff. apply Z.eqb_eq in Hc. rewrite fexp_eq in Hc.
  simpl Zdigits2. lia.
Qed.

(** Multiplication of finite numbers is a rounding of the exact product;
    the product of two values scaled by [2^B] is scaled by [2^(B+B)]. *)
Lemma SFmul_rounded (B : Z) (x y : spec_float) :
  1074 ≤ B →
  valid_binary x = true → valid_binary y = true →
  SFfinite x = true → SFfinite y = true →
  rounded_to (B + B) (SFval B x * SFval B y) (SFmul prec emax x y).
Proof.
  intros HB Hvx Hvy Hfx Hfy.
  assert (Hzero : ∀ s, rounded_to (B + B) 0 (S754_zero s)).
  { intros s. apply (valid_rounded (B + B) (S754_zero s)); done. }
  destruct x as [sx|sx| |sx mx ex], y as [sy|sy| |sy my ey]; try discriminate;
    simpl SFval; rewrite ?Z.mul_0_l, ?Z.mul_0_r; try apply Hzero.
  pose proof (valid_digits _ _ _ Hvx) as (Hex & Hdx & Hnx).
  pose proof (valid_digits _ _ _ Hvy) as (Hey & Hdy & Hny).
  pose proof (Zdigits2_mul (Z.pos mx) (Z.pos my) ltac:(lia) ltac:(lia)) as Hdg.
  unfold SFmul.
  destruct (binary_round_aux_rounding (xorb sx sy) (mx * my) (ex + ey) (B + B))
    as (m & e & Hr & Hm & He & Hn & Hround); try lia.
  { rewrite fexp_eq, Pos2Z.inj_mul. lia. }
  exists (xorb sx sy), m, e. split; [done|]. split; [done|]. split; [done|]. split; [done|].
  assert (HV : Z.pos mx * 2 ^ (ex + B) * (Z.pos my * 2 ^ (ey + B))
               = Z.pos (mx * my) * 2 ^ (ex + ey + (B + B))).
  { replace (ex + ey + (B + B)) with ((ex + B) + (ey + B)) by lia.
    rewrite (pow2_split (ex + B) (ey + B)) by lia. rewrite Pos2Z.inj_mul. ring. }
  destruct sx, sy; simpl xorb.
  - replace (Z.neg mx * 2 ^ (ex + B) * (Z.neg my * 2 ^ (ey + B)))
      with (Z.pos mx * 2 ^ (ex + B) * (Z.pos my * 2 ^ (ey + B))) by lia.
    by rewrite HV.
  - replace (Z.neg mx * 2 ^ (ex + B) * (Z.pos my * 2 ^ (ey + B)))
      with (- (Z.pos mx * 2 ^ (ex + B) * (Z.pos my * 2 ^ (ey + B)))) by lia.
    rewrite HV. replace (- m * 2 ^ (e + (B + B))) with (- (m * 2 ^ (e + (B + B)))) by lia.
    by apply rounding_opp.
  - replace (Z.pos mx * 2 ^ (ex + B) * (Z.neg my * 2 ^ (ey + B)))
      with (- (Z.pos mx * 2 ^ (ex + B) * (Z.pos my * 2 ^ (ey + B)))) by lia.
    rewrite HV. replace (- m * 2 ^ (e + (B + B))) with (- (m * 2 ^ (e + (B + B)))) by lia.
    by apply rounding_opp.
  - by rewrite HV.
Qed.

(** Among valid positive numbers, a smaller exponent means a smaller value. *)
Lemma valid_exponent_order (B : Z) (s1 s2 : bool) (m1 m2 : positive) (e1 e2 : Z) :
  1074 ≤ B →
  valid_binary (S754_finite s1 m1 e1) = true →
  valid_binary (S754_finite s2 m2 e2) = true →
  e1 < e2 → Z.pos m1 * 2 ^ (e1 + B) < Z.pos m2 * 2 ^ (e2 + B).
Proof.
  intros HB (He1 & Hm1 & _)%valid_finite_inv (He2 & _ & Hn2)%valid_finite_inv Hlt.
  destruct Hn2 as [Hn2|]; [|lia].
  assert (Hw : 0 < 2 ^ (e1 + B)) by (apply pow2_pos; lia).
  assert (Hsplit : 2 ^ (e2 + B) = 2 ^ (e2 - e1) * 2 ^ (e1 + B)).
  { rewrite <- pow2_split by lia. f_equal. lia. }
  assert (Hp : 2 ^ 1 ≤ 2 ^ (e2 - e1)) by (apply Z.pow_le_mono_r; lia).
  change (2 ^ 1) with 2 in Hp. rewrite Hsplit.
  change (2 ^ 53) with (2 * 2 ^ 52) in Hm1. nia.
Qed.

(** The comparison of valid finite numbers is the comparison of their
    values. *)
Lemma SFcompare_val (B : Z) (x y : spec_float) :
  1074 ≤ B →
  valid_binary x = true → valid_binary y = true →
  SFfinite x = true → SFfinite y = true →
  SFcompare x y = Some (SFval B x ?= SFval B y).
Proof.
  intros HB Hvx Hvy Hfx Hfy.
  destruct x as [sx|sx| |sx mx ex], y as [sy|sy| |sy my ey]; try discriminate.
  - reflexivity.
  - pose proof (valid_finite_inv _ _ _ Hvy) as (Hey & _).
    pose proof (pow2_pos (ey + B) ltac:(lia)) as Hp.
    unfold SFcompare, SFval. f_equal. symmetry. destruct sy.
    + apply Z.compare_gt_iff. nia.
    + apply Z.compare_lt_iff. nia.
  - pose proof (valid_finite_inv _ _ _ Hvx) as (Hex & _).
    pose proof (pow2_pos (ex + B) ltac:(lia)) as Hp.
    unfold SFcompare, SFval. f_equal. symmetry. destruct sx.
    + apply Z.compare_lt_iff. nia.
    + apply Z.compare_gt_iff. nia.
  - pose proof (valid_finite_inv _ _ _ Hvx) as (Hex & _).
    pose proof (valid_finite_inv _ _ _ Hvy) as (Hey & _).
    pose proof (pow2_pos (ex + B) ltac:(lia)) as Hpx.
    pose proof (pow2_pos (ey + B) ltac:(lia)) as Hpy.
    assert (Hsame : ∀ m1 m2 : positive,
              (Z.pos m1 * 2 ^ (ex + B) ?= Z.pos m2 * 2 ^ (ex + B)) = (m1 ?= m2)%positive).
    { intros m1 m2.
      destruct (Pos.compare_spec m1 m2) as [Heq|Hlt|Hgt].
      - rewrite Heq. apply Z.compare_refl.
      - apply Z.compare_lt_iff. nia.
      - apply Z.compare_gt_iff. nia. }
    unfold SFcompare, SFval. f_equal.
    change (Pos.compare_cont Eq mx my) with (mx ?= my)%positive.
    destruct sx, sy.
    + (* both negative *)
      destruct (Z.compare_spec ex ey) as [Heq|Hlt|Hgt].
      * subst ey. rewrite <- (Hsame mx my), <- Z.compare_antisym.
        replace (Z.neg mx * 2 ^ (ex + B)) with (- (Z.pos mx * 2 ^ (ex + B))) by lia.
        replace (Z.neg my * 2 ^ (ex + B)) with (- (Z.pos my * 2 ^ (ex + B))) by lia.
        by rewrite Z.compare_opp.
      * pose proof (valid_exponent_order B _ _ _ _ _ _ HB Hvx Hvy Hlt).
        symmetry. apply Z.compare_gt_iff. lia.
      * pose proof (valid_exponent_order B _ _ _ _ _ _ HB Hvy Hvx ltac:(lia)).
        symmetry. apply Z.compare_lt_iff. lia.
    + symmetry. apply Z.compare_lt_iff. nia.
    + symmetry. apply Z.compare_gt_iff. nia.
    + destruct (Z.compare_spec ex ey) as [Heq|Hlt|Hgt].
      * subst ey. by rewrite Hsame.
      * pose proof (valid_exponent_order B _ _ _ _ _ _ HB Hvx Hvy Hlt).
        symmetry. by apply Z.compare_lt_iff.
      * pose proof (valid_exponent_order B _ _ _ _ _ _ HB Hvy Hvx ltac:(lia)).
        symmetry. apply Z.compare_gt_iff. lia.
Qed.

Lemma SFleb_val (B : Z) (x y : spec_float) :
  1074 ≤ B →
  valid_binary x = true → valid_binary y = true →
  SFfinite x = true → SFfinite y = true →
  SFleb x y = true ↔ SFval B x ≤ SFval B y.
Proof.
  intros HB Hvx Hvy Hfx Hfy. unfold SFleb.
  rewrite (SFcompare_val B x y) by done.
  destruct (Z.compare_spec (SFval B x) (SFval B y)); split; (done || lia).
Qed.

Lemma on_grid_opp (B V : Z) : on_grid B V → on_grid B (- V).
Proof.
  intros (k & j & Hj & Hk & ->). exists (- k), j. split; [done|]. split; [lia|ring].
Qed.

Lemma rounding_grid_le (B V R G : Z) :
  rounding B V R → on_grid B G → V ≤ G → R ≤ G.
Proof. intros Hr (k & j & Hj & Hk & ->) HV. by apply (Hr k j Hj Hk). Qed.

Lemma rounding_grid_ge (B V R G : Z) :
  rounding B V R → on_grid B G → G ≤ V → G ≤ R.
Proof. intros Hr (k & j & Hj & Hk & ->) HV. by apply (Hr k j Hj Hk). Qed.

Lemma on_grid_zero (B : Z) : on_grid B 0.
Proof. exists 0, 0. split; [lia|]. split; [simpl; lia|ring]. Qed.

Lemma on_grid_scale (B V : Z) : 1074 ≤ B → on_grid B V → on_grid (B + B) (V * 2 ^ B).
Proof.
  intros HB (k & j & Hj & Hk & ->). exists k, j. split; [done|]. split; [done|].
  replace (j + (B + B)) with ((j + B) + B) by lia.
  rewrite (pow2_split (j + B) B) by lia. ring.
Qed.

(** The difference of two numbers of the grid is a multiple of a power of
    two that is on the grid's finest level or above. *)
Lemma grid_difference (B P E : Z) :
  1074 ≤ B → on_grid B P → on_grid B E →
  ∃ M j : Z, -1074 ≤ j ∧ P - E = M * 2 ^ (j + B).
Proof.
  intros HB (kp & jp & Hjp & _ & ->) (ke & je & Hje & _ & ->).
  exists (kp * 2 ^ (jp - Z.min jp je) - ke * 2 ^ (je - Z.min jp je)), (Z.min jp je).
  split; [lia|].
  rewrite Z.mul_sub_distr_r, <- !Z.mul_assoc, <- !pow2_split by lia.
  do 2 f_equal; f_equal; lia.
Qed.

(** The step towards a larger price.  [P] and [E] are the price and the
    previous average, [d] the rounded difference, [Mv] the multiplier
    (between 0 and 3/4), [t] the rounded product: [t] is between 0 and the
    exact difference. *)
Lemma scaled_step_up (B P E d Mv t : Z) :
  1074 ≤ B → on_grid B P → on_grid B E → E ≤ P →
  rounding B (P - E) d →
  0 ≤ Mv → 4 * Mv ≤ 3 * 2 ^ B →
  rounding (B + B) (d * Mv) (t * 2 ^ B) →
  0 ≤ t ≤ P - E.
Proof.
  intros HB HP HE Hle Hd HM0 HM HT.
  assert (HpB : 0 < 2 ^ B) by (apply pow2_pos; lia).
  assert (Hd0 : 0 ≤ d).
  { apply (rounding_grid_ge B (P - E)); [done|apply on_grid_zero|lia]. }
  split.
  { assert (0 ≤ t * 2 ^ B); [|nia].
    apply (rounding_grid_ge (B + B) (d * Mv)); [done|apply on_grid_zero|nia]. }
  destruct (grid_difference B P E HB HP HE) as (M & j & Hj & HD).
  assert (Hu : 0 < 2 ^ (j + B)) by (apply pow2_pos; lia).
  assert (HM0' : 0 ≤ M) by nia.
  destruct (Z_le_gt_dec M (2 ^ 53)) as [Hsmall|Hbig].
  - (* the difference is on the grid: it is not rounded *)
    assert (Hgrid : on_grid B (P - E)).
    { exists M, j. split; [done|]. split; [lia|done]. }
    assert (Hdeq : d = P - E).
    { apply Z.le_antisymm.
      - by apply (rounding_grid_le B (P - E) d).
      - by apply (rounding_grid_ge B (P - E) d). }
    assert (t * 2 ^ B ≤ (P - E) * 2 ^ B); [|nia].
    apply (rounding_grid_le (B + B) (d * Mv)); [done|by apply on_grid_scale|].
    rewrite Hdeq. nia.
  - (* the difference has more than 53 bits: its neighbours on the grid *)
    assert (HMpos : 0 < M) by (simpl in Hbig; lia).
    pose proof (Z.log2_spec M HMpos) as [Hlo Hhi].
    assert (Hlog : 53 ≤ Z.log2 M).
    { destruct (Z_le_gt_dec 53 (Z.log2 M)) as [|Hlt]; [done|].
      assert (2 ^ Z.succ (Z.log2 M) ≤ 2 ^ 53) by (apply Z.pow_le_mono_r; lia). lia. }
    set (n := Z.log2 M - 52) in *.
    assert (Hpn : 0 < 2 ^ n) by (apply pow2_pos; lia).
    set (a := M / 2 ^ n).
    assert (Ha : 2 ^ 52 ≤ a < 2 ^ 53).
    { apply div_pow2_bounds; try lia.
      replace (52 + n) with (Z.log2 M) by lia.
      replace (53 + n) with (Z.succ (Z.log2 M)) by lia. done. }
    assert (Hbr : a * 2 ^ n ≤ M < (a + 1) * 2 ^ n).
    { unfold a. pose proof (Z.div_mod M (2 ^ n) ltac:(lia)).
      pose proof (Z.mod_pos_bound M (2 ^ n) Hpn). nia. }
    set (u := 2 ^ (j + n + B)).
    assert (Huu : u = 2 ^ n * 2 ^ (j + B)).
    { unfold u. rewrite <- pow2_split by lia. f_equal. lia. }
    assert (Hlo_grid : on_grid B (a * u)).
    { exists a, (j + n). split; [lia|]. split; [lia|done]. }
    assert (Hhi_grid : on_grid B ((a + 1) * u)).
    { exists (a + 1), (j + n). split; [lia|]. split; [lia|done]. }
    assert (Hdhi : d ≤ (a + 1) * u).
    { apply (rounding_grid_le B (P - E)); [done|done|]. rewrite HD, Huu. nia. }
    assert (Hlo_le : a * u ≤ P - E) by (rewrite HD, Huu; nia).
    assert (t * 2 ^ B ≤ (a * u) * 2 ^ B); [|nia].
    apply (rounding_grid_le (B + B) (d * Mv)); [done|by apply on_grid_scale|].
    assert (Hu0 : 0 < u) by (rewrite Huu; nia).
    assert (H3 : 3 * (a + 1) ≤ 4 * a) by (simpl in Ha; lia).
    assert (4 * (d * Mv) ≤ 4 * (a * u * 2 ^ B)); [|lia].
    assert (4 * (d * Mv) ≤ (a + 1) * u * (3 * 2 ^ B)) by nia.
    nia.
Qed.

Lemma leb_fvalue (x y : float) :
  finite_number x = true → finite_number y = true →
  PrimFloat.leb x y = true ↔ fvalue x ≤ fvalue y.
Proof.
  intros Hx Hy. rewrite FloatAxioms.leb_spec.
  apply SFleb_val; try done; try lia; apply Prim2SF_valid.
Qed.

Lemma fvalue_grid (x : float) : on_grid 1074 (fvalue x).
Proof. apply valid_val_grid, Prim2SF_valid. Qed.

Lemma SFleb_finite (x lo hi : spec_float) :
  SFfinite lo = true → SFfinite hi = true →
  SFleb lo x = true → SFleb x hi = true → SFfinite x = true.
Proof.
  unfold SFleb.
  destruct x as [s|[]| |s m e], lo as [?|?| |? ? ?], hi as [?|?| |? ? ?];
    try discriminate; try done.
Qed.

Lemma SFval_scale (B B' : Z) (x : spec_float) :
  1074 ≤ B → 0 ≤ B' → valid_binary x = true →
  SFval (B + B') x = SFval B x * 2 ^ B'.
Proof.
  intros HB HB' Hv. destruct x as [s|s| |s m e]; simpl; try lia.
  apply valid_finite_inv in Hv as (He & _).
  replace (e + (B + B')) with ((e + B) + B') by lia.
  rewrite (pow2_split (e + B) B') by lia. ring.
Qed.

Lemma max_value_scale (B : Z) : 1074 ≤ B → max_value (B + B) = max_value B * 2 ^ B.
Proof.
  intros HB. unfold max_value. replace (971 + (B + B)) with ((971 + B) + B) by lia.
  rewrite (pow2_split (971 + B) B) by lia. ring.
Qed.

Lemma three_quarters_value : 4 * fvalue 0.75 = 3 * 2 ^ 1074.
Proof.
  change (fvalue 0.75) with (6755399441055744 * 2 ^ (-53 + 1074)).
  change 6755399441055744 with (3 * 2 ^ 51).
  change (2 ^ 1074) with (2 ^ (53 + (-53 + 1074))).
  rewrite (pow2_split 53 (-53 + 1074)) by lia.
  change (2 ^ 53) with (4 * 2 ^ 51). ring.
Qed.

(** One step of the recurrence over binary64 numbers: with a multiplier
    between 0 and 0.75, finite operands and a difference that does not
    overflow, the new average is finite and lies between the previous one
    and the price. *)
Lemma ema_next_between (m price prev : float) :
  finite_number price = true → finite_number prev = true →
  finite_number (PrimFloat.sub price prev) = true →
  PrimFloat.leb 0 m = true → PrimFloat.leb m 0.75 = true →
  finite_number (ema_next m price prev) = true ∧
  lies_between prev price (ema_next m price prev) = true.
Proof.
  intros Hprice Hprev Hdiff Hm0 Hm1.
  change (ema_next m price prev)
    with (PrimFloat.add (PrimFloat.mul (PrimFloat.sub price prev) m) prev).
  set (d := PrimFloat.sub price prev) in *.
  set (t := PrimFloat.mul d m).
  set (c := PrimFloat.add t prev).
  set (P := fvalue price). set (E := fvalue prev).
  assert (HB : 1074 ≤ 1074) by lia.
  assert (HpB : 0 < 2 ^ 1074) by (apply pow2_pos; lia).
  (* the multiplier *)
  assert (Hmf : finite_number m = true).
  { unfold finite_number. rewrite !FloatAxioms.leb_spec in Hm0, Hm1.
    by apply (SFleb_finite _ (Prim2SF 0) (Prim2SF 0.75)). }
  assert (HM0 : 0 ≤ fvalue m) by (by apply (leb_fvalue 0 m)).
  assert (HM1 : 4 * fvalue m ≤ 3 * 2 ^ 1074).
  { rewrite <- three_quarters_value. apply (leb_fvalue m 0.75) in Hm1; [lia|done..]. }
  (* the difference *)
  assert (Hd : rounding 1074 (P - E) (fvalue d)).
  { apply rounded_to_val; [|done]. unfold d. rewrite sub_spec.
    apply SFsub_rounded; try done; apply Prim2SF_valid. }
  (* the product *)
  assert (Htr : rounded_to (1074 + 1074) (fvalue d * fvalue m) (Prim2SF t)).
  { unfold t. rewrite mul_spec. apply SFmul_rounded; try done; apply Prim2SF_valid. }
  assert (Htf : finite_number t = true).
  { apply (rounded_to_finite (1074 + 1074) (fvalue d * fvalue m)); [lia|done|].
    rewrite max_value_scale by lia.
    pose proof (valid_val_bounds 1074 (Prim2SF d) HB (Prim2SF_valid d)) as Hdb.
    fold (fvalue d) in Hdb.
    assert (0 ≤ max_value 1074) by lia. nia. }
  assert (Ht : rounding (1074 + 1074) (fvalue d * fvalue m) (fvalue t * 2 ^ 1074)).
  { unfold fvalue at 3. rewrite <- SFval_scale by (lia || apply Prim2SF_valid).
    by apply rounded_to_val. }
  (* the sum *)
  assert (Hcr : rounded_to 1074 (fvalue t + E) (Prim2SF c)).
  { unfold c. rewrite add_spec. apply SFadd_rounded; try done; apply Prim2SF_valid. }
  pose proof (valid_val_bounds 1074 (Prim2SF price) HB (Prim2SF_valid price)) as HPb.
  pose proof (valid_val_bounds 1074 (Prim2SF prev) HB (Prim2SF_valid prev)) as HEb.
  fold (fvalue price) in HPb. fold P in HPb. fold (fvalue prev) in HEb. fold E in HEb.
  assert (Hsum : (E ≤ P → E ≤ fvalue t + E ≤ P) ∧ (P ≤ E → P ≤ fvalue t + E ≤ E)).
  { split; intros Hle.
    - destruct (scaled_step_up 1074 P E (fvalue d) (fvalue m) (fvalue t)); try done;
        try apply fvalue_grid. lia.
    - destruct (scaled_step_up 1074 (- P) (- E) (- fvalue d) (fvalue m) (- fvalue t));
        try done; try (apply on_grid_opp, fvalue_grid); try lia.
      + replace (- P - - E) with (- (P - E)) by lia. by apply rounding_opp.
      + replace (- fvalue d * fvalue m) with (- (fvalue d * fvalue m)) by lia.
        replace (- fvalue t * 2 ^ 1074) with (- (fvalue t * 2 ^ 1074)) by lia.
        by apply rounding_opp. }
  assert (Hcf : finite_number c = true).
  { apply (rounded_to_finite 1074 (fvalue t + E)); [lia|done|].
    destruct Hsum as [Hup Hdown]. destruct (Z_le_gt_dec E P); [specialize (Hup ltac:(lia))|
      specialize (Hdown ltac:(lia))]; lia. }
  assert (Hc : rounding 1074 (fvalue t + E) (fvalue c)) by (by apply rounded_to_val).
  split; [done|].
  unfold lies_between. apply orb_true_iff.
  destruct Hsum as [Hup Hdown]. destruct (Z_le_gt_dec E P) as [Hle|Hgt].
  - left. specialize (Hup Hle). apply andb_true_iff. split; apply leb_fvalue; try done.
    + apply (rounding_grid_ge 1074 (fvalue t + E)); [done|apply fvalue_grid|lia].
    + apply (rounding_grid_le 1074 (fvalue t + E)); [done|apply fvalue_grid|lia].
  - right. specialize (Hdown ltac:(lia)). apply andb_true_iff. split; apply leb_fvalue; try done.
    + apply (rounding_grid_ge 1074 (fvalue t + E)); [done|apply fvalue_grid|lia].
    + apply (rounding_grid_le 1074 (fvalue t + E)); [done|apply fvalue_grid|lia].
Qed.

(** *** An upper bound for rounding with any location *)

Lemma shr_1_iter_quot (k : nat) (mrs : shr_record) :
  0 ≤ shr_m mrs → shr_m (Nat.iter k shr_1 mrs) = shr_m mrs / 2 ^ Z.of_nat k.
Proof.
  intros Hm. induction k as [|k IH].
  - simpl. by rewrite Z.div_1_r.
  - rewrite Nat2Z.inj_succ, Z.pow_succ_r by lia. simpl Nat.iter.
    assert (Hk : 0 ≤ shr_m (Nat.iter k shr_1 mrs)) by (rewrite IH; apply Z.div_pos; lia).
    rewrite Z.mul_comm, <- Z.div_div, <- IH by lia.
    destruct (Nat.iter k shr_1 mrs) as [mk rk sk]. simpl in Hk |- *.
    destruct mk as [|[p|p|]|p]; try lia; simpl shr_m.
    + done.
    + rewrite (Pos2Z.inj_xI p). apply Z.div_unique with 1; lia.
    + rewrite (Pos2Z.inj_xO p). apply Z.div_unique with 0; lia.
    + done.
Qed.

Lemma shr_fexp_quot (m e : Z) (l : location) :
  0 ≤ m →
  ∃ mrs, shr_fexp prec emax m e l
         = (mrs, Z.max e (fexp prec emax (Zdigits2 m + e))) ∧
         shr_m mrs = m / 2 ^ (Z.max e (fexp prec emax (Zdigits2 m + e)) - e).
Proof.
  intros Hm. unfold shr_fexp, shr.
  set (e1 := fexp prec emax (Zdigits2 m + e)).
  assert (Hrec : shr_m (shr_record_of_loc m l) = m) by (by destruct l as [|[]]).
  destruct (e1 - e) as [|p|p] eqn:Hn.
  - exists (shr_record_of_loc m l). replace (Z.max e e1) with e by lia.
    split; [done|]. rewrite Z.sub_diag, Z.div_1_r. done.
  - exists (SpecFloat.iter_pos shr_1 p (shr_record_of_loc m l)).
    replace (Z.max e e1) with (e + Z.pos p) by lia. split; [done|].
    rewrite iter_pos_nat, shr_1_iter_quot, Hrec, positive_nat_Z by (rewrite Hrec; lia).
    do 2 f_equal. lia.
  - exists (shr_record_of_loc m l). replace (Z.max e e1) with e by lia.
    split; [done|]. rewrite Z.sub_diag, Z.div_1_r. done.
Qed.

(** Whatever the location, the rounded value is at most one unit above
    the truncated one. *)
Lemma binary_round_aux_upper (sx : bool) (mx ex : Z) (lx : location) (B : Z) :
  0 ≤ mx → 0 ≤ ex + B →
  ∃ m e : Z,
    binary_round_aux prec emax sx mx ex lx = encode sx m e ∧ 0 ≤ m ∧
    Z.max ex (fexp prec emax (Zdigits2 mx + ex)) ≤ e ∧
    m * 2 ^ (e + B)
    ≤ (mx / 2 ^ (Z.max ex (fexp prec emax (Zdigits2 mx + ex)) - ex) + 1)
      * 2 ^ (Z.max ex (fexp prec emax (Zdigits2 mx + ex)) + B).
Proof.
  intros Hmx HexB. unfold binary_round_aux.
  destruct (shr_fexp_quot mx ex lx Hmx) as (mrs & -> & Hq).
  set (e1 := Z.max ex (fexp prec emax (Zdigits2 mx + ex))) in *.
  set (a := shr_m mrs) in *.
  assert (Ha : 0 ≤ a) by (rewrite Hq; apply Z.div_pos; [lia|apply pow2_pos; lia]).
  destruct (round_nearest_even_cases a (loc_of_shr_record mrs)) as [Hcases _].
  set (mr := round_nearest_even a (loc_of_shr_record mrs)) in *.
  assert (Hmr : 0 ≤ mr ≤ a + 1) by lia.
  destruct (shr_fexp_quot mr e1 loc_Exact ltac:(lia)) as (mrs2 & -> & Hq2).
  set (e2 := Z.max e1 (fexp prec emax (Zdigits2 mr + e1))) in *.
  exists (shr_m mrs2), e2. split; [reflexivity|].
  assert (Hp : 0 < 2 ^ (e2 - e1)) by (apply pow2_pos; lia).
  assert (Hm0 : 0 ≤ shr_m mrs2) by (rewrite Hq2; apply Z.div_pos; lia).
  split; [done|]. split; [lia|].
  assert (Hle : shr_m mrs2 * 2 ^ (e2 - e1) ≤ mr).
  { rewrite Hq2. pose proof (Z.div_mod mr (2 ^ (e2 - e1)) ltac:(lia)).
    pose proof (Z.mod_pos_bound mr (2 ^ (e2 - e1)) Hp). nia. }
  assert (Hsplit : 2 ^ (e2 + B) = 2 ^ (e2 - e1) * 2 ^ (e1 + B)).
  { rewrite <- pow2_split by lia. f_equal. lia. }
  assert (Hp1 : 0 < 2 ^ (e1 + B)) by (apply pow2_pos; lia).
  rewrite Hsplit, <- Hq. fold a. nia.
Qed.

(** *** Rounded floats are valid *)

Lemma encode_valid (s : bool) (m e : Z) :
  0 ≤ m < 2 ^ 53 → -1074 ≤ e → (2 ^ 52 ≤ m ∨ e = -1074) →
  valid_binary (encode s m e) = true.
Proof.
  intros Hm He Hn. unfold encode. destruct m as [|p|p]; try lia; [done|].
  destruct (Z.leb_spec e 971) as [Hle|]; [|done].
  unfold valid_binary, SpecFloat.valid_binary, bounded, canonical_mantissa.
  apply andb_true_iff. split.
  - apply Z.eqb_eq. rewrite fexp_eq.
    pose proof (digits2_pos_bounds p) as [Hlo Hhi].
    set (dg := Z.pos (digits2_pos p)) in *.
    assert (Hdg : dg ≤ 53).
    { destruct (Z_le_gt_dec dg 53) as [|Hgt]; [done|].
      assert (2 ^ 53 ≤ 2 ^ (dg - 1)) by (apply Z.pow_le_mono_r; lia). lia. }
    destruct Hn as [Hn|Hn]; [|lia].
    assert (dg = 53); [|lia].
    destruct (Z.eq_dec dg 53) as [|Hne]; [done|].
    assert (2 ^ dg ≤ 2 ^ 52) by (apply Z.pow_le_mono_r; lia). lia.
  - apply Z.leb_le. change (emax - prec) with 971. lia.
Qed.

Lemma rounded_to_valid (B V : Z) (r : spec_float) :
  rounded_to B V r → valid_binary r = true.
Proof. intros (s & m & e & -> & Hm & He & Hn & _). by apply encode_valid. Qed.

Lemma float_of_Z_spec (z : Z) :
  Prim2SF (float_of_Z z) = binary_normalize prec emax z 0 false.
Proof.
  unfold float_of_Z. apply Prim2SF_SF2Prim.
  apply (rounded_to_valid 1074 (z * 2 ^ (0 + 1074))).
  apply binary_normalize_rounding; lia.
Qed.

(** What rounds a value that is at least a positive number of the grid is
    positive infinity or a finite number that is at least that number. *)
Lemma rounded_to_above (B V G : Z) (r : spec_float) :
  1074 ≤ B → rounded_to B V r → on_grid B G → 0 < G ≤ V →
  r = S754_infinity false ∨
  ∃ (m : positive) (e : Z), r = S754_finite false m e ∧ G ≤ Z.pos m * 2 ^ (e + B).
Proof.
  intros HB (s & m & e & -> & Hm & He & Hn & Hround) Hgrid HG.
  pose proof (rounding_grid_ge B V _ G Hround Hgrid ltac:(lia)) as HR.
  assert (Hp : 0 < 2 ^ (e + B)) by (apply pow2_pos; lia).
  destruct s; [nia|].
  unfold encode. destruct m as [|p|p]; try lia.
  destruct (e <=? 971); [right|by left].
  exists p, e. done.
Qed.

(** *** Division *)

Lemma SFdiv_core_binary_spec (mx my : positive) (ex ey : Z) :
  ∃ (q : Z) (l : location),
    SFdiv_core_binary prec emax (Z.pos mx) ex (Z.pos my) ey
    = (q, Z.min (fexp prec emax (Zdigits2 (Z.pos mx) + ex - (Zdigits2 (Z.pos my) + ey)))
             (ex - ey), l) ∧
    q = Z.pos mx
        * 2 ^ (ex - ey
               - Z.min (fexp prec emax (Zdigits2 (Z.pos mx) + ex - (Zdigits2 (Z.pos my) + ey)))
                       (ex - ey))
        / Z.pos my.
Proof.
  unfold SFdiv_core_binary.
  set (e' := Z.min _ (ex - ey)).
  assert (Hs : 0 ≤ ex - ey - e') by (unfold e'; lia).
  set (m' := match ex - ey - e' with
             | 0 => Z.pos mx
             | Z.pos _ => Z.shiftl (Z.pos mx) (ex - ey - e')
             | Z.neg _ => 0
             end).
  assert (Hm' : m' = Z.pos mx * 2 ^ (ex - ey - e')).
  { unfold m'. destruct (ex - ey - e') as [|p|p] eqn:Hd; try lia.
    rewrite Z.shiftl_mul_pow2 by lia. done. }
  rewrite <- Hm'. unfold Z.div.
  destruct (Z.div_eucl m' (Z.pos my)) as [q r]. eauto.
Qed.

(** The quotient of two finite numbers, as computed, exceeds the exact
    quotient by at most one unit [2^u] of its magnitude. *)
Lemma SFdiv_upper (B : Z) (sx sy : bool) (mx my : positive) (ex ey : Z) :
  2148 ≤ B →
  valid_binary (S754_finite sx mx ex) = true →
  valid_binary (S754_finite sy my ey) = true →
  ∃ m e u : Z,
    SFdiv prec emax (S754_finite sx mx ex) (S754_finite sy my ey)
    = encode (xorb sx sy) m e ∧
    0 ≤ m ∧
    u = Z.max (Zdigits2 (Z.pos mx) + ex - (Zdigits2 (Z.pos my) + ey) - 52) (-1074) ∧
    (m * 2 ^ (e + B) - 2 ^ (u + B)) * (Z.pos my * 2 ^ (ey + B))
    ≤ Z.pos mx * 2 ^ (ex + B) * 2 ^ B.
Proof.
  intros HB Hvx Hvy.
  apply valid_finite_inv in Hvx as (Hex & Hmx & _).
  apply valid_finite_inv in Hvy as (Hey & Hmy & _).
  unfold SFdiv.
  destruct (SFdiv_core_binary_spec mx my ex ey) as (q & l & -> & Hq).
  set (d1 := Zdigits2 (Z.pos mx)) in *. set (d2 := Zdigits2 (Z.pos my)) in *.
  set (e' := Z.min (fexp prec emax (d1 + ex - (d2 + ey))) (ex - ey)) in *.
  set (s := ex - ey - e') in *.
  assert (He' : e' ≤ Z.max (d1 + ex - (d2 + ey) - 53) (-1074) ∧ -2045 ≤ e').
  { unfold e'. rewrite fexp_eq. lia. }
  assert (Hs : 0 ≤ s) by (unfold s, e'; lia).
  assert (Hps : 0 < 2 ^ s) by (by apply pow2_pos).
  assert (Hq0 : 0 ≤ q) by (rewrite Hq; apply Z.div_pos; lia).
  assert (Hqm : q * Z.pos my ≤ Z.pos mx * 2 ^ s).
  { rewrite Hq. pose proof (Z.div_mod (Z.pos mx * 2 ^ s) (Z.pos my) ltac:(lia)).
    pose proof (Z.mod_pos_bound (Z.pos mx * 2 ^ s) (Z.pos my) ltac:(lia)). nia. }
  destruct (binary_round_aux_upper (xorb sx sy) q e' l B Hq0 ltac:(lia))
    as (m & e & Hr & Hm & He1 & Hup).
  set (e1 := Z.max e' (fexp prec emax (Zdigits2 q + e'))) in *.
  set (u := Z.max (d1 + ex - (d2 + ey) - 52) (-1074)).
  exists m, e, u. split; [exact Hr|]. split; [done|]. split; [done|].
  (* the unit *)
  assert (Hu : e1 ≤ u).
  { unfold e1, u. rewrite fexp_eq.
    destruct (Z.eq_dec q 0) as [->|Hne]; [simpl Zdigits2; lia|].
    assert (Hdq : Zdigits2 q + e' ≤ d1 + ex - (d2 + ey) + 1); [|lia].
    pose proof (Zdigits2_bounds q ltac:(lia)) as [Hql _].
      pose proof (Zdigits2_bounds (Z.pos mx) ltac:(lia)) as [_ Hxh].
      pose proof (Zdigits2_bounds (Z.pos my) ltac:(lia)) as [Hyl _].
      fold d1 in Hxh. fold d2 in Hyl.
      pose proof (Zdigits2_nonneg q) as Hdq0.
      assert (Hd1 : 0 < d1) by (unfold d1; simpl; lia).
      assert (Hd2 : 0 < d2) by (unfold d2; simpl; lia).
      assert (Hdq1 : 0 < Zdigits2 q).
      { destruct q; simpl; lia. }
      assert (Hlt : 2 ^ (Zdigits2 q - 1 + (d2 - 1)) < 2 ^ (d1 + s)).
      { rewrite !pow2_split by lia.
        assert (0 < 2 ^ (Zdigits2 q - 1)) by (apply pow2_pos; lia).
        assert (0 < 2 ^ (d2 - 1)) by (apply pow2_pos; lia).
        nia. }
      apply Z.pow_lt_mono_r_iff in Hlt; [|lia|lia]. unfold s in Hlt. lia. }
  assert (He1' : e' ≤ e1) by (unfold e1; lia).
  set (n := e1 - e') in *.
  assert (Hpn : 0 < 2 ^ n) by (apply pow2_pos; unfold n; lia).
  assert (Hpe : 0 < 2 ^ (e' + B)) by (apply pow2_pos; lia).
  assert (Hsplit1 : 2 ^ (e1 + B) = 2 ^ n * 2 ^ (e' + B)).
  { rewrite <- pow2_split by (unfold n; lia). f_equal. unfold n. lia. }
  assert (Hfloor : q / 2 ^ n * 2 ^ n ≤ q).
  { pose proof (Z.div_mod q (2 ^ n) ltac:(lia)).
    pose proof (Z.mod_pos_bound q (2 ^ n) Hpn). nia. }
  assert (Hunit : 2 ^ (e1 + B) ≤ 2 ^ (u + B)) by (apply Z.pow_le_mono_r; lia).
  assert (HR : m * 2 ^ (e + B) - 2 ^ (u + B) ≤ q * 2 ^ (e' + B)).
  { rewrite Hsplit1 in Hup. rewrite Hsplit1 in Hunit. nia. }
  assert (Hpy : 0 < 2 ^ (ey + B)) by (apply pow2_pos; lia).
  assert (HX : Z.pos mx * 2 ^ (ex + B) * 2 ^ B
               = Z.pos mx * 2 ^ s * (2 ^ (e' + B) * 2 ^ (ey + B))).
  { rewrite <- Z.mul_assoc, <- !pow2_split by lia. rewrite <- Z.mul_assoc.
    rewrite <- pow2_split by lia. do 2 f_equal. unfold s. lia. }
  rewrite HX.
  assert (q * 2 ^ (e' + B) * (Z.pos my * 2 ^ (ey + B))
          ≤ Z.pos mx * 2 ^ s * (2 ^ (e' + B) * 2 ^ (ey + B))) by nia.
  assert (0 < Z.pos my * 2 ^ (ey + B)) by nia.
  nia.
Qed.

(** *** The multiplier *)

(** [period + 1], as computed, is positive infinity or a finite number
    that is at least 3. *)
Lemma period_plus_one (period : Z) :
  2 ≤ period →
  Prim2SF (PrimFloat.add (float_of_Z period) 1) = S754_infinity false ∨
  ∃ (m : positive) (e : Z),
    Prim2SF (PrimFloat.add (float_of_Z period) 1) = S754_finite false m e ∧
    3 * 2 ^ 1074 ≤ Z.pos m * 2 ^ (e + 1074).
Proof.
  intros Hp. rewrite add_spec, float_of_Z_spec.
  assert (Hp0 : 0 < 2 ^ 1074) by (by apply pow2_pos).
  assert (Hone : Prim2SF 1 = S754_finite false 4503599627370496 (-52)) by reflexivity.
  assert (Hn : rounded_to 1074 (period * 2 ^ (0 + 1074))
                 (binary_normalize prec emax period 0 false)).
  { apply binary_normalize_rounding; lia. }
  pose proof (rounded_to_valid _ _ _ Hn) as Hvalid.
  apply (rounded_to_above 1074 _ (2 * 2 ^ (0 + 1074))) in Hn; [|lia| |simpl (0 + 1074); lia].
  2:{ exists 2, 0. split; [lia|]. split; [simpl; lia|done]. }
  destruct Hn as [->|(m & e & Hn & Hge)]; [left; by rewrite Hone|].
  rewrite Hn in *.
  pose proof (SFadd_rounded 1074 (S754_finite false m e) (Prim2SF 1)
                ltac:(lia) Hvalid (Prim2SF_valid 1) eq_refl ltac:(by rewrite Hone)) as Hsum.
  apply (rounded_to_above 1074 _ (3 * 2 ^ (0 + 1074))) in Hsum; [done|lia| |].
  - exists 3, 0. split; [lia|]. split; [simpl; lia|done].
  - split; [simpl (0 + 1074); lia|].
    assert (Hv1 : SFval 1074 (Prim2SF 1) = 2 ^ 1074).
    { rewrite Hone. unfold SFval.
      change (2 ^ 1074) with (2 ^ (52 + (-52 + 1074))).
      rewrite (pow2_split 52 (-52 + 1074)) by lia. reflexivity. }
    rewrite Hv1. simpl (0 + 1074) in *. unfold SFval. lia.
Qed.

(** For every period of at least 2, the multiplier [2 / (period + 1)], as
    computed, lies between 0 and 0.75. *)
Lemma multiplier_ok_from_2 (period : Z) : 2 ≤ period → multiplier_ok period = true.
Proof.
  intros Hp. unfold multiplier_ok.
  change (multiplier_of period)
    with (PrimFloat.div 2 (PrimFloat.add (float_of_Z period) 1)).
  set (y := PrimFloat.add (float_of_Z period) 1).
  set (mu := PrimFloat.div 2 y).
  assert (Htwo : Prim2SF 2 = S754_finite false 4503599627370496 (-51)) by reflexivity.
  assert (Hmu : Prim2SF mu = SFdiv prec emax (Prim2SF 2) (Prim2SF y)) by apply div_spec.
  pose proof (Prim2SF_valid mu) as Hvmu.
  pose proof (Prim2SF_valid y) as Hvy.
  destruct (period_plus_one period Hp) as [Hy|(my & ey & Hy & Hge)]; fold y in Hy.
  { rewrite Hy, Htwo in Hmu. simpl in Hmu.
    rewrite !FloatAxioms.leb_spec, Hmu. reflexivity. }
  rewrite Hy in Hmu, Hvy. rewrite Htwo in Hmu.
  assert (Hv2 : valid_binary (S754_finite false 4503599627370496 (-51)) = true)
    by (rewrite <- Htwo; apply Prim2SF_valid).
  destruct (SFdiv_upper 2148 false false 4503599627370496 my (-51) ey
              ltac:(lia) Hv2 Hvy) as (m & e & u & Hr & Hm & Hu & Hbound).
  rewrite Hr in Hmu. simpl xorb in Hmu.
  pose proof (valid_finite_inv _ _ _ Hvy) as (Hey & Hmy & _).
  assert (Hp0 : 0 < 2 ^ 1074) by (by apply pow2_pos).
  assert (HB2 : 2 ^ 2148 = 2 ^ 1074 * 2 ^ 1074) by (by rewrite <- pow2_split by lia).
  (* the unit of the quotient *)
  assert (Hu52 : -1074 ≤ u ≤ -52).
  { pose proof (Zdigits2_bounds (Z.pos my) ltac:(lia)) as [_ Hyh].
    assert (Hlt : 2 ^ (1 + 1074) < 2 ^ (Zdigits2 (Z.pos my) + (ey + 1074))).
    { pose proof (Zdigits2_nonneg (Z.pos my)).
      rewrite (pow2_split 1 1074), (pow2_split (Zdigits2 (Z.pos my)) (ey + 1074)) by lia.
      assert (0 < 2 ^ (ey + 1074)) by (apply pow2_pos; lia).
      change (2 ^ 1) with 2. nia. }
    apply Z.pow_lt_mono_r_iff in Hlt; [|lia|pose proof (Zdigits2_nonneg (Z.pos my)); lia].
    change (Zdigits2 4503599627370496) with 53 in Hu. lia. }
  assert (Hunit : 2 ^ (u + 2148) * 2 ^ 52 ≤ 2 ^ 2148).
  { rewrite <- pow2_split by lia. apply Z.pow_le_mono_r; lia. }
  assert (Hpu : 0 < 2 ^ (u + 2148)) by (apply pow2_pos; lia).
  (* the value of the quotient *)
  set (R := m * 2 ^ (e + 2148)) in *.
  assert (HX : 4503599627370496 * 2 ^ (-51 + 2148) = 2 * 2 ^ 2148).
  { change 4503599627370496 with (2 ^ 52). rewrite <- pow2_split by lia.
    change (52 + (-51 + 2148)) with (1 + 2148). by rewrite (pow2_split 1 2148) by lia. }
  assert (HY : 3 * 2 ^ 2148 ≤ Z.pos my * 2 ^ (ey + 2148)).
  { replace (ey + 2148) with ((ey + 1074) + 1074) by lia.
    rewrite (pow2_split (ey + 1074) 1074) by lia. rewrite HB2. nia. }
  rewrite HX in Hbound.
  assert (HR : 4 * R ≤ 3 * 2 ^ 2148).
  { assert (Hp2 : 0 < 2 ^ 2148) by (by apply pow2_pos).
    change (2 ^ 52) with 4503599627370496 in Hunit.
    destruct (Z_le_gt_dec R (2 ^ (u + 2148))) as [|Hgt]; [lia|].
    assert ((R - 2 ^ (u + 2148)) * (3 * 2 ^ 2148) ≤ 2 * 2 ^ 2148 * 2 ^ 2148) by nia.
    assert (3 * (R - 2 ^ (u + 2148)) ≤ 2 * 2 ^ 2148) by nia.
    lia. }
  (* the quotient is finite *)
  assert (Hfin : finite_number mu = true ∧ fvalue mu * 2 ^ 1074 = R).
  { unfold finite_number, fvalue. rewrite Hmu in Hvmu |- *.
    unfold encode in *. destruct m as [|p|p]; try lia; [split; [done|]; unfold R; simpl; lia|].
    destruct (Z.leb_spec e 971) as [Hle|Hbig].
    - split; [done|]. apply valid_finite_inv in Hvmu as (He & _).
      unfold SFval, R. replace (e + 2148) with ((e + 1074) + 1074) by lia.
      rewrite (pow2_split (e + 1074) 1074) by lia. ring.
    - exfalso. assert (2 ^ 2148 ≤ 2 ^ (e + 2148)) by (apply Z.pow_le_mono_r; lia).
      unfold R in HR. nia. }
  destruct Hfin as [Hfin Hval].
  apply andb_true_iff. split.
  - apply leb_fvalue; [done|done|].
    change (fvalue 0) with 0. unfold R in Hval.
    assert (0 ≤ 2 ^ (e + 2148)) by (apply Z.pow_nonneg; lia). nia.
  - apply leb_fvalue; [done|done|].
    pose proof three_quarters_value. nia.
Qed.

(** ** The interpolation property *)

(** Over binary64 numbers the property fails: with period 1 the multiplier
    is 1, the difference [1 - 9007199254740996] is rounded to
    [-9007199254740996 - 0] only after losing its last bit, and the entry
    computed for the price 1 is 0. *)
Lemma interpolation_fails_binary64 :
  ¬ interpolates [9007199254740996; 1]%float 1.
Proof.
  intros Hclaim.
  specialize (Hclaim 1 1%float 9007199254740996%float 0%float).
  assert (Hfalse : lies_between 9007199254740996 1 0 = true).
  { apply Hclaim; [simpl; lia | reflexivity | reflexivity
                  | vm_compute; reflexivity | vm_compute; reflexivity]. }
  vm_compute in Hfalse. discriminate.
Qed.

(** With the period 50 that the batch uses, it fails once the running sum
    of the first fifty prices overflows: the seed is infinite and the next
    entry is not a number. *)
Example interpolation_fails_period_50 :
  let prices := replicate 51 0x1.1ccf385ebc8ap+1023%float in
  let ema := calculateEMA prices 50 in
  arr_get ema 49 = Some infinity ∧ arr_get ema 50 = Some nan ∧
  ¬ interpolates prices 50.
Proof.
  assert (H49 : arr_get (calculateEMA (replicate 51 0x1.1ccf385ebc8ap+1023%float) 50) 49
                = Some infinity) by (vm_compute; reflexivity).
  assert (H50 : arr_get (calculateEMA (replicate 51 0x1.1ccf385ebc8ap+1023%float) 50) 50
                = Some nan) by (vm_compute; reflexivity).
  simpl. split; [done|]. split; [done|].
  intros Hclaim.
  specialize (Hclaim 50 0x1.1ccf385ebc8ap+1023%float infinity nan).
  assert (Hfalse : lies_between infinity 0x1.1ccf385ebc8ap+1023 nan = true).
  { apply Hclaim; [simpl; lia | reflexivity | reflexivity | exact H49 | exact H50]. }
  vm_compute in Hfalse. discriminate.
Qed.

Lemma multiplier_exact (period : Z) :
  1 ≤ period →
  ∃ m : Q, multiplier_of (num := exact) period = Some m ∧ (0 < m)%Q ∧ (m <= 1)%Q.
Proof.
  intros Hp. unfold multiplier_of.
  change (n_div (n_ofZ 2) (n_add (n_ofZ period) (n_ofZ 1)))
    with (exact_div (Some 2%Q) (Some (inject_Z period + inject_Z 1)%Q)).
  assert (Hd : (2 <= inject_Z period + inject_Z 1)%Q).
  { rewrite <- inject_Z_plus. change 2%Q with (inject_Z 2).
    rewrite <- Zle_Qle. lia. }
  revert Hd. generalize (inject_Z period + inject_Z 1)%Q. intros d Hd.
  unfold exact_div.
  destruct (Qeq_bool d 0) eqn:Hz.
  { apply Qeq_bool_iff in Hz. rewrite Hz in Hd. lra. }
  eexists. split; [reflexivity|]. split.
  - apply Qlt_shift_div_l; lra.
  - apply Qle_shift_div_r; lra.
Qed.

(** In exact arithmetic (rationals, no rounding and no overflow) the
    property holds for every period of at least 1: when [price[i]] and
    [ema[i-1]] are numbers, [ema[i]] is a number between them. *)
Lemma ema_interpolates_exact (prices : list exact) (period i : Z) (price prev : Q) :
  1 ≤ period → period ≤ i < Z.of_nat (length prices) →
  prices !! Z.to_nat i = Some (Some price) →
  arr_get (calculateEMA prices period) (i - 1) = Some (Some prev) →
  ∃ cur : Q,
    arr_get (calculateEMA prices period) i = Some (Some cur) ∧
    ((prev <= cur ∧ cur <= price) ∨ (price <= cur ∧ cur <= prev))%Q.
Proof.
  intros Hp Hi Hprice Hprev.
  destruct (multiplier_exact period Hp) as (m & Hm & Hm0 & Hm1).
  destruct (at_index_in_range prices i) as (x & Hx & Hat); [lia|].
  assert (Hxp : Some x = Some (Some price)) by (rewrite <- Hx; exact Hprice).
  injection Hxp as ->.
  rewrite calculateEMA_unfold in *.
  rewrite ema_after_recurrence by lia.
  rewrite Hprev, Hm, Hat.
  simpl. eexists. split; [reflexivity|].
  destruct (Qlt_le_dec price prev) as [Hlt|Hle].
  - right. split; nra.
  - left. split; nra.
Qed.

(** The property also fails when the difference [price[i] - ema[i-1]]
    overflows, although both are finite: the entry computed is infinite. *)
Example interpolation_fails_on_overflow :
  let prices := [(- 0x1.ep+1023)%float; 0%float; 0x1.ep+1023%float] in
  arr_get (calculateEMA prices 2) 1 = Some (- 0x1.ep+1022)%float ∧
  arr_get (calculateEMA prices 2) 2 = Some infinity ∧
  ¬ interpolates prices 2.
Proof.
  simpl. split; [vm_compute; reflexivity|]. split; [vm_compute; reflexivity|].
  intros Hclaim.
  specialize (Hclaim 2 0x1.ep+1023%float (- 0x1.ep+1022)%float infinity).
  assert (Hfalse : lies_between (- 0x1.ep+1022) 0x1.ep+1023 infinity = true).
  { apply Hclaim; [simpl; lia | reflexivity | reflexivity
                  | vm_compute; reflexivity | vm_compute; reflexivity]. }
  vm_compute in Hfalse. discriminate.
Qed.

(** C8, as it holds.  Over binary64 numbers, for a period of at least 2:
    at every index [i] from [period] on, when [price[i]] and [ema[i-1]]
    are finite and their difference does not overflow, [ema[i]] is finite
    and lies between [ema[i-1]] and [price[i]], bounds included. *)
Theorem ema_interpolates_binary64 (prices : list float) (period i : Z)
    (price prev : float) :
  2 ≤ period →
  period ≤ i < Z.of_nat (length prices) →
  prices !! Z.to_nat i = Some price →
  arr_get (calculateEMA prices period) (i - 1) = Some prev →
  finite_number price = true → finite_number prev = true →
  finite_number (PrimFloat.sub price prev) = true →
  ∃ cur : float,
    arr_get (calculateEMA prices period) i = Some cur ∧
    finite_number cur = true ∧
    lies_between prev price cur = true.
Proof.
  intros Hp Hi Hprice Hprev Hfp Hfe Hfd.
  pose proof (multiplier_ok_from_2 period Hp) as [Hm0 Hm1]%andb_true_iff.
  destruct (at_index_in_range prices i) as (x & Hx & Hat); [lia|].
  rewrite Hprice in Hx. injection Hx as <-.
  rewrite calculateEMA_unfold in *.
  rewrite ema_after_recurrence by lia.
  rewrite Hprev, Hat. simpl to_number.
  eexists. split; [reflexivity|].
  by apply ema_next_between.
Qed.

Lemma ema_interpolates_binary64_witness :
  2 ≤ 50 ∧
  ∃ cur : float,
    arr_get (calculateEMA (replicate 50 10%float ++ [12%float]) 50) 50 = Some cur ∧
    finite_number cur = true ∧
    lies_between 10 12 cur = true.
Proof.
  split; [lia|].
  apply (ema_interpolates_binary64 (replicate 50 10%float ++ [12%float]) 50 50 12 10);
    [lia | simpl; lia | reflexivity | vm_compute; reflexivity
    | reflexivity | reflexivity | reflexivity].
Defined.

Example ema_step_value :
  arr_get (calculateEMA (replicate 50 10%float ++ [12%float]) 50) 50
  = Some 0x1.4282828282828p+3%float.
Proof. vm_compute. reflexivity. Qed.

(** ** The qualification rule *)

Lemma SFcompare_refl_not_Lt (s : spec_float) : SFcompare s s ≠ Some Lt.
Proof.
  destruct s as [[]|[]| |[] m e]; simpl; try discriminate.
  all: change (Pos.compare_cont Eq m m) with (Pos.compare m m).
  all: rewrite Z.compare_refl, Pos.compare_refl; simpl; discriminate.
Qed.

Lemma ltb_irrefl (x : float) : PrimFloat.ltb x x = false.
Proof.
  rewrite FloatAxioms.ltb_spec. unfold SFltb.
  pose proof (SFcompare_refl_not_Lt (Prim2SF x)) as Hne.
  destruct (SFcompare (Prim2SF x) (Prim2SF x)) as [[]|]; congruence.
Qed.

Lemma SFcompare_Eq_sym (s t : spec_float) :
  SFcompare s t = Some Eq → SFcompare t s = Some Eq.
Proof.
  destruct s as [[]|[]| |[] m e], t as [[]|[]| |[] m' e']; simpl; try discriminate; try done.
  all: change (Pos.compare_cont Eq m m') with (Pos.compare m m').
  all: change (Pos.compare_cont Eq m' m) with (Pos.compare m' m).
  all: destruct (Z.compare_spec e e') as [->|Hlt|Hgt]; try discriminate.
  all: destruct (Pos.compare_spec m m') as [->|Hlt|Hgt]; simpl; try discriminate.
  all: rewrite Z.compare_refl, Pos.compare_refl; done.
Qed.

(** Numbers that are equal ([==]) are not ordered by [<], either way. *)
Lemma eqb_not_ltb (x y : float) :
  PrimFloat.eqb x y = true → PrimFloat.ltb x y = false ∧ PrimFloat.ltb y x = false.
Proof.
  rewrite FloatAxioms.eqb_spec, !FloatAxioms.ltb_spec. unfold SFeqb, SFltb. intros Heq.
  destruct (SFcompare (Prim2SF x) (Prim2SF y)) as [[]|] eqn:Hc; try discriminate.
  by rewrite (SFcompare_Eq_sym _ _ Hc).
Qed.

(** C1. The rule holds exactly when [low < ema50] and [close > ema50];
    both comparisons are strict: a low equal to the EMA, or a close equal
    to it, does not qualify. *)
Theorem qualification_is_strict (bar : StockData) (currentEMA50 : float) :
  (qualifies_rule bar currentEMA50 = true ↔
     PrimFloat.ltb (low bar) currentEMA50 = true ∧ gtb (close bar) currentEMA50 = true) ∧
  (PrimFloat.eqb (low bar) currentEMA50 = true → qualifies_rule bar currentEMA50 = false) ∧
  (PrimFloat.eqb (close bar) currentEMA50 = true → qualifies_rule bar currentEMA50 = false) ∧
  (low bar = currentEMA50 → qualifies_rule bar currentEMA50 = false) ∧
  (close bar = currentEMA50 → qualifies_rule bar currentEMA50 = false).
Proof.
  unfold qualifies_rule, gtb. split; [|split; [|split; [|split]]].
  - apply andb_true_iff.
  - intros [-> _]%eqb_not_ltb. done.
  - intros [_ ->]%eqb_not_ltb. apply andb_false_r.
  - intros ->. by rewrite ltb_irrefl.
  - intros ->. rewrite ltb_irrefl. apply andb_false_r.
Qed.

(** The boundary cases of the rule, for an EMA of 10. *)
Example qualification_boundary :
  let bar (l c : float) :=
    {| symbol := "A"; name := "A"; exchange := "NSE"; open := 10; high := 12;
       low := l; close := c; volume := 1; date := "2025-09-10" |} in
  (qualifies_rule (bar 10 11) 10 = false ∧
   qualifies_rule (bar 0x1.3fff2e48e8a72p+3 11) 10 = true ∧
   qualifies_rule (bar 9 10) 10 = false ∧
   qualifies_rule (bar 9 11) 10 = true ∧
   qualifies_rule (bar 9 11) nan = false)%float.
Proof. repeat split; reflexivity. Qed.

Lemma ltb_fvalue (x y : float) :
  finite_number x = true → finite_number y = true →
  PrimFloat.ltb x y = true ↔ fvalue x < fvalue y.
Proof.
  intros Hx Hy. rewrite FloatAxioms.ltb_spec. unfold SFltb.
  rewrite (SFcompare_val 1074) by (done || lia || apply Prim2SF_valid).
  fold (fvalue x) (fvalue y).
  destruct (Z.compare_spec (fvalue x) (fvalue y)); split; (done || lia).
Qed.

(** On finite numbers the rule compares the values: the low is below the
    EMA and the EMA is below the close. *)
Lemma qualification_by_value (bar : StockData) (currentEMA50 : float) :
  finite_number (low bar) = true → finite_number currentEMA50 = true →
  finite_number (close bar) = true →
  qualifies_rule bar currentEMA50 = true ↔
  fvalue (low bar) < fvalue currentEMA50 < fvalue (close bar).
Proof.
  intros Hl He Hc. unfold qualifies_rule, gtb.
  rewrite andb_true_iff, !ltb_fvalue by done. done.
Qed.

(** ** The batch: [execute] *)

Section BatchFacts.
Context {World : Type}.
Context (http_chart : string → option Z → M (World := World) http_response).
Context (iso_date : float → option string).

Lemma try_catch_returns {A} (m : M A) (h : A) (w : World) :
  ∃ a w', try_catch m h w = (Returned a, w').
Proof. unfold try_catch. destruct (m w) as [[|a] w']; eauto. Qed.

Lemma try_catch_threw {A} (m : M A) (h : A) (w w' : World) :
  m w = (Threw, w') → try_catch m h w = (Returned h, w').
Proof. unfold try_catch. by intros ->. Qed.

(** A failed request, a response that is not ok and a missing result all
    make [fetchStockFromYahoo] return [null]. *)
Lemma fetchStockFromYahoo_no_data (sym : string) (w w' : World) answer :
  http_chart (yahooSymbol sym) None w = (answer, w') → no_data answer →
  fetchStockFromYahoo http_chart iso_date sym w = (Returned None, w').
Proof.
  intros Hreq Hno. unfold fetchStockFromYahoo, try_catch, bind. rewrite Hreq.
  destruct Hno as [->|[->| ->]]; reflexivity.
Qed.

(** The same failures make [fetchHistoricalPrices] return the empty list. *)
Lemma fetchHistoricalPrices_no_data (sym : string) (days : Z) (w w' : World) answer :
  http_chart (yahooSymbol sym) (Some days) w = (answer, w') → no_data answer →
  fetchHistoricalPrices http_chart sym days w = (Returned [], w').
Proof.
  intros Hreq Hno. unfold fetchHistoricalPrices, try_catch, bind. rewrite Hreq.
  destruct Hno as [->|[->| ->]]; reflexivity.
Qed.

(** The bar fetched for a symbol carries that symbol. *)
Lemma fetchStockFromYahoo_symbol (sym : string) (w w' : World) (stockData : StockData) :
  fetchStockFromYahoo http_chart iso_date sym w = (Returned (Some stockData), w') →
  symbol stockData = sym.
Proof.
  unfold fetchStockFromYahoo, try_catch, bind.
  destruct (http_chart (yahooSymbol sym) None w) as [[|[|[result|]]] w1];
    try (unfold ret; congruence).
  destruct (iso_date _) as [day|]; unfold ret, throw; [|congruence].
  intros [= <- _]. reflexivity.
Qed.

Lemma fetchStockFromYahoo_returns (sym : string) (w : World) :
  ∃ latest w', fetchStockFromYahoo http_chart iso_date sym w = (Returned latest, w').
Proof. apply try_catch_returns. Qed.

Lemma fetchHistoricalPrices_returns (sym : string) (days : Z) (w : World) :
  ∃ prices w', fetchHistoricalPrices http_chart sym days w = (Returned prices, w').
Proof. apply try_catch_returns. Qed.

(** One iteration returns, and either leaves the accumulator as it is or
    appends one record for its symbol. *)
Lemma process_returns (sym : string) (acc : list StockWithEMA) (w : World) :
  ∃ w', process http_chart iso_date sym acc w = (Returned acc, w') ∨
        ∃ record,
          process http_chart iso_date sym acc w = (Returned (acc ++ [record])%list, w') ∧
          appended sym record.
Proof.
  destruct (fetchStockFromYahoo_returns sym w) as (latest & w1 & Hlatest).
  unfold process, bind. rewrite Hlatest.
  destruct latest as [stockData|]; [|exists w1; by left].
  destruct (fetchHistoricalPrices_returns sym 100 w1) as (hist & w2 & Hhist).
  rewrite Hhist. exists w2.
  case_decide; [by left|]. right. eexists. split; [reflexivity|].
  split; simpl; [|done].
  by apply fetchStockFromYahoo_symbol in Hlatest.
Qed.

(** The loop returns; the records it adds are for symbols of the input,
    in the order of the input. *)
Lemma for_of_returns (symbols : list string) (acc : list StockWithEMA) (w : World) :
  ∃ added w',
    for_of http_chart iso_date symbols acc w = (Returned (acc ++ added)%list, w') ∧
    sublist (map (λ stock, symbol (base stock)) added) symbols ∧
    Forall (λ stock, qualifies stock = qualifies_rule (base stock) (ema50 stock)) added.
Proof.
  revert acc w. induction symbols as [|sym rest IH]; intros acc w.
  - exists [], w. rewrite app_nil_r. repeat split; [constructor|constructor].
  - simpl. unfold bind.
    destruct (process_returns sym acc w) as (w1 & [Hskip|(record & Hadd & Hsym & Hq)]).
    + rewrite Hskip. destruct (IH acc w1) as (added & w' & Hrun & Hsub & Hall).
      exists added, w'. split; [done|]. split; [by apply sublist_cons|done].
    + rewrite Hadd. destruct (IH (acc ++ [record])%list w1) as (added & w' & Hrun & Hsub & Hall).
      exists (record :: added), w'. split; [|split].
      * rewrite Hrun. by rewrite <- app_assoc.
      * simpl. rewrite Hsym. by apply sublist_skip.
      * by constructor.
Qed.

Lemma execute_returns (symbols : list string) (w : World) :
  ∃ stocksWithEMA w',
    execute http_chart iso_date symbols w =
      (Returned {| totalStocks := length stocksWithEMA;
                   qualifyingStocks :=
                     length (filter (λ stock, qualifies stock = true) stocksWithEMA);
                   stocks := stocksWithEMA |}, w') ∧
    sublist (map (λ stock, symbol (base stock)) stocksWithEMA) symbols ∧
    Forall (λ stock, qualifies stock = qualifies_rule (base stock) (ema50 stock))
           stocksWithEMA.
Proof.
  destruct (for_of_returns symbols [] w) as (added & w' & Hrun & Hsub & Hall).
  exists added, w'. unfold execute, bind. rewrite Hrun. done.
Qed.

(** A skipped symbol leaves the accumulator as it is. *)
Lemma skipped_process (sym : string) (acc : list StockWithEMA) (w w' : World) :
  skipped http_chart iso_date sym w w' →
  process http_chart iso_date sym acc w = (Returned acc, w').
Proof.
  intros [answer Hreq Hno | Hnone | stockData w1 answer Hsome Hreq Hno
         | stockData w1 hist Hsome Hhist Hshort]; unfold process, bind.
  - by rewrite (fetchStockFromYahoo_no_data sym w w' answer).
  - by rewrite Hnone.
  - rewrite Hsome, (fetchHistoricalPrices_no_data sym 100 w1 w' answer) by done.
    case_decide; [done|]. simpl in *. lia.
  - rewrite Hsome, Hhist. case_decide; [done|lia].
Qed.

(** C5. A symbol whose latest bar cannot be fetched or is absent, or whose
    history cannot be fetched or has fewer than 50 prices, is skipped: the
    accumulated records stay as they are, the loop goes on with the
    remaining symbols, and the batch returns a report; nothing is thrown. *)
Theorem skipped_symbol_is_left_out (sym : string) (rest : list string)
    (acc : list StockWithEMA) (w w' : World) :
  skipped http_chart iso_date sym w w' →
  process http_chart iso_date sym acc w = (Returned acc, w') ∧
  for_of http_chart iso_date (sym :: rest) acc w = for_of http_chart iso_date rest acc w' ∧
  execute http_chart iso_date (sym :: rest) w = execute http_chart iso_date rest w' ∧
  ∃ report w'',
    execute http_chart iso_date (sym :: rest) w = (Returned report, w'') ∧
    sublist (map (λ stock, symbol (base stock)) (stocks report)) rest ∧
    (totalStocks report ≤ length rest)%nat.
Proof.
  intros Hskip.
  assert (Hloop : ∀ acc', for_of http_chart iso_date (sym :: rest) acc' w
                          = for_of http_chart iso_date rest acc' w').
  { intros acc'. simpl. unfold bind. by rewrite (skipped_process sym acc' w w'). }
  assert (Hexec : execute http_chart iso_date (sym :: rest) w
                  = execute http_chart iso_date rest w').
  { unfold execute, bind. by rewrite Hloop. }
  split; [by apply skipped_process|]. split; [apply Hloop|]. split; [done|].
  destruct (execute_returns rest w') as (stocksWithEMA & w'' & Hrun & Hsub & _).
  eexists _, w''. rewrite Hexec. split; [exact Hrun|]. simpl. split; [done|].
  apply sublist_length in Hsub. by rewrite length_map in Hsub.
Qed.

(** The turn of a symbol: it is skipped and the accumulator stays as it
    is, or it is analysed and its record is appended. *)
Lemma process_turn (sym : string) (w : World) :
  ∃ w',
    (skipped http_chart iso_date sym w w' ∧
     ∀ acc, process http_chart iso_date sym acc w = (Returned acc, w')) ∨
    (∃ record,
       analysed_as http_chart iso_date sym w w' record ∧
       ∀ acc, process http_chart iso_date sym acc w
              = (Returned (acc ++ [record])%list, w')).
Proof.
  destruct (fetchStockFromYahoo_returns sym w) as (latest & w1 & Hlatest).
  destruct latest as [stockData|].
  - destruct (fetchHistoricalPrices_returns sym 100 w1) as (hist & w2 & Hhist).
    exists w2. destruct (decide (Z.of_nat (length hist) < 50)) as [Hshort|Hlong].
    + left. split; [by apply (history_too_short _ _ _ _ _ stockData w1 hist)|].
      intros acc. unfold process, bind. rewrite Hlatest, Hhist. by case_decide.
    + right. exists (record_of stockData hist). split.
      * apply (analysed_from _ _ _ _ _ _ stockData w1 hist); [done|done|lia|done].
      * intros acc. unfold process, bind. rewrite Hlatest, Hhist. by case_decide.
  - exists w1. left. split; [by apply latest_absent|].
    intros acc. unfold process, bind. by rewrite Hlatest.
Qed.

(** The loop follows a course, and returns what was accumulated followed
    by the records of that course. *)
Lemma for_of_course (symbols : list string) (w : World) :
  ∃ outcomes w',
    course http_chart iso_date symbols w outcomes w' ∧
    ∀ acc, for_of http_chart iso_date symbols acc w
           = (Returned (acc ++ omap id outcomes)%list, w').
Proof.
  revert w. induction symbols as [|sym rest IH]; intros w.
  - exists [], w. split; [constructor|]. intros acc. simpl. by rewrite app_nil_r.
  - destruct (process_turn sym w) as (w1 & [[Hskip Hrun]|(record & Hrec & Hrun)]);
      destruct (IH w1) as (outcomes & w' & Hcourse & Hrest).
    + exists (None :: outcomes), w'. split; [by eapply course_skip|].
      intros acc. simpl. unfold bind. by rewrite Hrun, Hrest.
    + exists (Some record :: outcomes), w'. split; [by eapply course_record|].
      intros acc. simpl. unfold bind. rewrite Hrun, Hrest. by rewrite <- app_assoc.
Qed.

(** The record of an analysed symbol carries that symbol and the flag of
    the rule. *)
Lemma analysed_as_appended (sym : string) (w w' : World) (record : StockWithEMA) :
  analysed_as http_chart iso_date sym w w' record → appended sym record.
Proof.
  intros [stockData w1 hist Hbar _ _ ->]. split; [|done].
  simpl. by apply fetchStockFromYahoo_symbol in Hbar.
Qed.

(** The symbols of the records of a course are the input symbols that
    were analysed, in the order of the input. *)
Lemma course_symbols (keep : StockWithEMA → bool) (symbols : list string) (w w' : World)
    (outcomes : list (option StockWithEMA)) :
  course http_chart iso_date symbols w outcomes w' →
  map (λ stock, symbol (base stock)) (filter (λ stock, keep stock = true) (omap id outcomes))
  = kept keep symbols outcomes.
Proof.
  induction 1 as [w|sym rest w w1 w' outcomes Hskip Hrest IH
                 |sym rest w w1 w' record outcomes Hrec Hrest IH]; [done|done|].
  apply analysed_as_appended in Hrec as [Hsym _].
  change (omap id (Some record :: outcomes)) with (record :: omap id outcomes).
  rewrite filter_cons. cbn [kept]. destruct (keep record) eqn:Hkeep.
  - rewrite decide_True by done. by rewrite map_cons, Hsym, IH.
  - by rewrite decide_False by done.
Qed.

Lemma course_flags (symbols : list string) (w w' : World)
    (outcomes : list (option StockWithEMA)) :
  course http_chart iso_date symbols w outcomes w' →
  Forall (λ stock, qualifies stock = qualifies_rule (base stock) (ema50 stock))
         (omap id outcomes).
Proof.
  induction 1 as [w|sym rest w w1 w' outcomes Hskip Hrest IH
                 |sym rest w w1 w' record outcomes Hrec Hrest IH];
    [constructor|done|].
  apply analysed_as_appended in Hrec as [_ Hflag]. by constructor.
Qed.
End BatchFacts.

(** The scenario with two symbols: A (low 9, close 11) qualifies against an
    EMA of 10, B (low 10, close 11) does not; both are analysed. *)
Example two_symbol_report :
  execute scripted fixed_day ["A"; "B"]
    [latest_bar 9 11; flat_history 60 10; latest_bar 10 11; flat_history 60 10]
  = (Returned {|
       totalStocks := 2;
       qualifyingStocks := 1;
       stocks :=
         [ {| base := {| symbol := "A"; name := "Acme Ltd"; exchange := "NSE";
                         open := 10; high := 12; low := 9; close := 11;
                         volume := 1000; date := "2025-09-10" |};
              ema50 := 10; qualifies := true |};
           {| base := {| symbol := "B"; name := "Acme Ltd"; exchange := "NSE";
                         open := 10; high := 12; low := 10; close := 11;
                         volume := 1000; date := "2025-09-10" |};
              ema50 := 10; qualifies := false |} ] |}, []).
Proof. vm_compute. reflexivity. Qed.

(** The report keeps the records that do not qualify: in the scenario
    above the record sequence has two entries, one of them flagged as not
    qualifying, while [qualifyingStocks] is 1. *)
Lemma report_keeps_non_qualifying :
  ∃ report,
    execute scripted fixed_day ["A"; "B"]
      [latest_bar 9 11; flat_history 60 10; latest_bar 10 11; flat_history 60 10]
    = (Returned report, []) ∧
    ¬ only_qualifying report.
Proof.
  eexists. split; [vm_compute; reflexivity|].
  intros (_ & Hlen & _). simpl in Hlen. discriminate.
Qed.

Lemma skipped_symbol_is_left_out_witness :
  skipped scripted fixed_day "A" [Returned NotOk; latest_bar 9 11; flat_history 60 10]
          [latest_bar 9 11; flat_history 60 10] ∧
  execute scripted fixed_day ["A"; "B"] [Returned NotOk; latest_bar 9 11; flat_history 60 10]
  = execute scripted fixed_day ["B"] [latest_bar 9 11; flat_history 60 10].
Proof.
  assert (Hskip : skipped scripted fixed_day "A"
                    [Returned NotOk; latest_bar 9 11; flat_history 60 10]
                    [latest_bar 9 11; flat_history 60 10]).
  { apply (latest_fetch_failed scripted fixed_day "A" _ _ (Returned NotOk));
      [reflexivity | right; left; reflexivity]. }
  split; [exact Hskip|].
  apply (skipped_symbol_is_left_out scripted fixed_day "A" ["B"] [] _ _ Hskip).
Defined.

(** A history of 30 prices: the symbol is not analysed, and the batch
    still returns. *)
Example short_history_is_skipped :
  execute scripted fixed_day ["A"] [latest_bar 9 11; flat_history 30 10]
  = (Returned {| totalStocks := 0; qualifyingStocks := 0; stocks := [] |}, []).
Proof. vm_compute. reflexivity. Qed.

(** ** Strings *)

Lemma append_cons (c : ascii) (a b : string) : String c a +:+ b = String c (a +:+ b).
Proof. reflexivity. Qed.

Lemma append_nil_l (a : string) : EmptyString +:+ a = a.
Proof. reflexivity. Qed.

Lemma append_assoc (a b c : string) : (a +:+ b) +:+ c = a +:+ (b +:+ c).
Proof.
  induction a as [|x a IH]; [done|]. rewrite !append_cons. by rewrite IH.
Qed.

Lemma append_nil_r (a : string) : a +:+ EmptyString = a.
Proof. induction a as [|x a IH]; [done|]. rewrite append_cons. by rewrite IH. Qed.

Lemma starts_with_append (a b : string) : starts_with a (a +:+ b) = true.
Proof.
  induction a as [|x a IH]; [done|]. rewrite append_cons. simpl.
  by rewrite Ascii.eqb_refl.
Qed.

Lemma has_char_append (c : ascii) (a b : string) :
  has_char c (a +:+ b) = has_char c a || has_char c b.
Proof.
  induction a as [|x a IH]; [done|]. rewrite append_cons. simpl.
  by rewrite IH, orb_assoc.
Qed.

Lemma all_chars_append (P : ascii → bool) (a b : string) :
  all_chars P (a +:+ b) = all_chars P a && all_chars P b.
Proof.
  induction a as [|x a IH]; [done|]. rewrite append_cons. simpl.
  by rewrite IH, andb_assoc.
Qed.

Lemma all_chars_substring (P : ascii → bool) (n m : nat) (s : string) :
  all_chars P s = true → all_chars P (substring n m s) = true.
Proof.
  revert n m. induction s as [|c s IH]; intros n m Hs.
  - destruct n, m; done.
  - simpl in Hs. apply andb_true_iff in Hs as [Hc Hs].
    destruct n as [|n]; [destruct m as [|m]|]; simpl; [done| |by apply IH].
    rewrite Hc. by apply IH.
Qed.

Lemma numeric_char_plain (c : ascii) :
  numeric_char c = true →
  Ascii.eqb c dquote = false ∧ Ascii.eqb c comma = false ∧ Ascii.eqb c newline = false.
Proof.
  destruct c as [[] [] [] [] [] [] [] []]; vm_compute; intros Hc;
    try discriminate Hc; done.
Qed.

Lemma numeric_text_plain (s : string) : all_chars numeric_char s = true → plain s.
Proof.
  unfold plain. induction s as [|c s IH]; simpl; [done|].
  intros [Hc Hs]%andb_true_iff.
  destruct (numeric_char_plain c Hc) as (-> & -> & ->).
  by apply IH.
Qed.

(** ** Rendering of numbers *)

(** [toFixed(2)] rounds the exact value of the number, ties upwards in
    magnitude: 1.005 is below its decimal name and gives 1.00, while
    10.005 is above and gives 10.01. *)
Example toFixed2_values :
  map toFixed2 [0x1.0147ae147ae14p+0; 0x1.4028f5c28f5c3p+3; 0.125; -0.125; 1234.5;
                0; -0; 1e21; nan; infinity]%float
  = ["1.00"; "10.01"; "0.13"; "-0.13"; "1234.50"; "0.00"; "0.00"; "1e+21"; "NaN";
     "Infinity"].
Proof. vm_compute. reflexivity. Qed.

Example number_toString_values :
  map number_toString [1000; 1e21; 0x1.999999999999ap-4; 0x1.ad7f29abcaf48p-24; -1.5;
                       123456789012345683968; -0; nan; neg_infinity]%float
  = ["1000"; "1e+21"; "0.1"; "1e-7"; "-1.5"; "123456789012345680000"; "0"; "NaN";
     "-Infinity"].
Proof. vm_compute. reflexivity. Qed.

(** ** Rendered numbers contain no separator *)

Lemma uint_numeric (d : Decimal.uint) :
  all_chars numeric_char (NilEmpty.string_of_uint d) = true.
Proof. induction d; simpl; [done|by rewrite IHd..]. Qed.

Lemma digits_numeric (n : Z) : all_chars numeric_char (digits_of n) = true.
Proof.
  unfold digits_of, NilZero.string_of_uint.
  destruct (N.to_uint (Z.to_N n)) eqn:Hd; try (rewrite <- Hd; apply uint_numeric).
  reflexivity.
Qed.

Lemma zeros_numeric (n : nat) : all_chars numeric_char (zeros n) = true.
Proof. induction n as [|n IH]; simpl; [done|by rewrite IH]. Qed.

Lemma str_take_numeric (n : nat) (s : string) :
  all_chars numeric_char s = true → all_chars numeric_char (str_take n s) = true.
Proof. apply all_chars_substring. Qed.

Lemma str_drop_numeric (n : nat) (s : string) :
  all_chars numeric_char s = true → all_chars numeric_char (str_drop n s) = true.
Proof. apply all_chars_substring. Qed.

Create HintDb numeric discriminated.
#[local] Hint Resolve digits_numeric zeros_numeric str_take_numeric str_drop_numeric : numeric.

Ltac numeric :=
  repeat (rewrite all_chars_append; apply andb_true_iff; split);
  first [reflexivity | auto with numeric].

Lemma exponent_part_numeric (n : Z) : all_chars numeric_char (exponent_part n) = true.
Proof. unfold exponent_part. destruct (n - 1 <? 0)%Z; numeric. Qed.

#[local] Hint Resolve exponent_part_numeric : numeric.

Lemma render_numeric (s k n : Z) : all_chars numeric_char (render s k n) = true.
Proof.
  unfold render.
  destruct ((k <=? n)%Z && (n <=? 21)%Z); [numeric|].
  destruct ((0 <? n)%Z && (n <=? 21)%Z); [numeric|].
  destruct ((-6 <? n)%Z && (n <=? 0)%Z); [numeric|].
  destruct (k =? 1)%Z; numeric.
Qed.

#[local] Hint Resolve render_numeric : numeric.

Lemma number_toString_numeric (x : float) :
  all_chars numeric_char (number_toString x) = true.
Proof.
  unfold number_toString.
  destruct (Prim2SF x) as [sg|sg| |sg m e]; [done|by destruct sg|done|].
  destruct (shortest _ _ _ _ _) as [[s k] n].
  destruct sg; numeric.
Qed.

#[local] Hint Resolve number_toString_numeric : numeric.

Lemma toFixed2_numeric (x : float) : all_chars numeric_char (toFixed2 x) = true.
Proof.
  unfold toFixed2.
  destruct (float_value x) as [v|]; [|apply number_toString_numeric].
  destruct (Qle_bool (pow10 21) (Qabs v)).
  - destruct (Qle_bool 0 v); numeric.
  - set (m := digits_of _).
    assert (Hm : all_chars numeric_char
                   (if (String.length m <=? 2)%nat
                    then zeros (3 - String.length m) +:+ m else m) = true).
    { destruct (String.length m <=? 2)%nat; subst m; numeric. }
    destruct (Qle_bool 0 v); numeric.
Qed.

Lemma number_toString_plain (x : float) : plain (number_toString x).
Proof. apply numeric_text_plain, number_toString_numeric. Qed.

Lemma toFixed2_plain (x : float) : plain (toFixed2 x).
Proof. apply numeric_text_plain, toFixed2_numeric. Qed.

(** ** Reading the table back *)

Lemma read_plain_char (c : ascii) (rest field : string) (record : list string) :
  Ascii.eqb c dquote = false → Ascii.eqb c comma = false → Ascii.eqb c newline = false →
  read_from (String c rest) false field record
  = read_from rest false (field +:+ String c EmptyString) record.
Proof. intros Hq Hc Hn. simpl. by rewrite Hq, Hc, Hn. Qed.

Lemma read_quoted_char (c : ascii) (rest field : string) (record : list string) :
  Ascii.eqb c dquote = false →
  read_from (String c rest) true field record
  = read_from rest true (field +:+ String c EmptyString) record.
Proof. intros Hq. simpl. by rewrite Hq, !andb_false_r. Qed.

Lemma plain_reads_as (s : string) : plain s → reads_as s s.
Proof.
  unfold plain, reads_as. induction s as [|c s IH]; intros (Hq & Hc & Hn) rest field record.
  - by rewrite append_nil_l, append_nil_r.
  - simpl in Hq, Hc, Hn.
    apply orb_false_iff in Hq as [Hq1 Hq2].
    apply orb_false_iff in Hc as [Hc1 Hc2].
    apply orb_false_iff in Hn as [Hn1 Hn2].
    rewrite append_cons, read_plain_char by done.
    rewrite IH by done. by rewrite append_assoc.
Qed.

Lemma read_inside_quotes (s rest field : string) (record : list string) :
  quotable s →
  read_from (s +:+ String dquote rest) true field record
  = read_from rest false (field +:+ s) record.
Proof.
  unfold quotable. revert field. induction s as [|c s IH]; intros field Hq.
  - by rewrite append_nil_l, append_nil_r.
  - simpl in Hq. apply orb_false_iff in Hq as [Hq1 Hq2].
    rewrite append_cons, read_quoted_char by done.
    rewrite IH by done. by rewrite append_assoc.
Qed.

Lemma quoted_reads_as (s : string) : quotable s → reads_as (quoted s) s.
Proof.
  intros Hq rest field record. unfold quoted.
  rewrite append_cons, append_assoc, append_cons, append_nil_l.
  change (read_from (String dquote (s +:+ String dquote rest)) false field record)
    with (read_from (s +:+ String dquote rest) true field record).
  by apply read_inside_quotes.
Qed.

(** A row of cells joined by commas is read as the values of its cells:
    all but the last value are added to the record, the last one is the
    field being collected when the row ends. *)
Lemma read_joined_cells (cells values : list string) :
  Forall2 reads_as cells values → cells ≠ [] →
  ∃ front back, values = (front ++ [back])%list ∧
    ∀ rest record,
      read_from (join "," cells +:+ rest) false EmptyString record
      = read_from rest false back (record ++ front)%list.
Proof.
  induction 1 as [|cell value cells values Hcell Hrest IH]; intros Hne; [done|].
  destruct cells as [|cell' cells].
  - inversion Hrest; subst. exists [], value. split; [done|].
    intros rest record. simpl. rewrite Hcell, append_nil_l. by rewrite app_nil_r.
  - destruct IH as (front & back & -> & IH); [done|].
    exists (value :: front), back. split; [done|].
    intros rest record.
    change (join "," (cell :: cell' :: cells))
      with (cell +:+ "," +:+ join "," (cell' :: cells)).
    rewrite !append_assoc, Hcell, append_nil_l.
    change ("," +:+ join "," (cell' :: cells) +:+ rest)
      with (String comma (join "," (cell' :: cells) +:+ rest)).
    change (read_from (String comma (join "," (cell' :: cells) +:+ rest)) false value record)
      with (read_from (join "," (cell' :: cells) +:+ rest) false EmptyString
              (record ++ [value])%list).
    rewrite IH. by rewrite <- app_assoc.
Qed.

Lemma joined_cells_line (cells values : list string) :
  Forall2 reads_as cells values → cells ≠ [] →
  line_reads_as (join "," cells) values.
Proof.
  intros Hcells Hne.
  destruct (read_joined_cells cells values Hcells Hne) as (front & back & -> & Hread).
  split.
  - rewrite <- (append_nil_r (join "," cells)), Hread. reflexivity.
  - intros rest. rewrite Hread. reflexivity.
Qed.

(** Lines joined by line feeds are read as one record per line. *)
Lemma read_joined_lines (lines : list string) (table : list (list string)) :
  Forall2 line_reads_as lines table → lines ≠ [] →
  read_table (join (String newline EmptyString) lines) = table.
Proof.
  unfold read_table.
  induction 1 as [|line values lines table [Hlast Hmore] Hrest IH]; intros Hne; [done|].
  destruct lines as [|line' lines].
  - inversion Hrest; subst. exact Hlast.
  - change (join (String newline EmptyString) (line :: line' :: lines))
      with (line +:+ String newline EmptyString
                 +:+ join (String newline EmptyString) (line' :: lines)).
    rewrite append_cons, append_nil_l, Hmore. f_equal. by apply IH.
Qed.

Lemma headers_read : Forall2 reads_as headers headers.
Proof. unfold headers. repeat constructor; apply plain_reads_as; by vm_compute. Qed.

Lemma row_reads (stock : StockWithEMA) :
  readable stock → Forall2 reads_as (row_cells stock) (row_values stock).
Proof.
  intros (Hsymbol & Hname & Hexchange & Hdate).
  unfold row_cells, row_values.
  repeat constructor;
    try (apply plain_reads_as; first [done | apply toFixed2_plain | apply number_toString_plain]).
  - by apply quoted_reads_as.
  - destruct (PrimFloat.ltb _ _); apply plain_reads_as; by vm_compute.
  - destruct (gtb _ _); apply plain_reads_as; by vm_compute.
  - destruct (qualifies stock); apply plain_reads_as; by vm_compute.
Qed.

(** ** The serialized table *)

Lemma join_cons (sep x y : string) (l : list string) :
  join sep (x :: y :: l) = x +:+ sep +:+ join sep (y :: l).
Proof. reflexivity. Qed.

Lemma has_char_join (c : ascii) (sep : string) (l : list string) :
  has_char c sep = false → Forall (λ s, has_char c s = false) l →
  has_char c (join sep l) = false.
Proof.
  intros Hsep Hl. induction Hl as [|x l Hx Hl IH]; [done|].
  destruct l as [|y l]; [done|].
  rewrite join_cons, !has_char_append, Hx, Hsep, IH. done.
Qed.

(** The row of a record whose text fields hold no line feed holds none. *)
Lemma row_one_line (stock : StockWithEMA) :
  one_line stock → has_char newline (join "," (row_cells stock)) = false.
Proof.
  intros (Hsymbol & Hname & Hexchange & Hdate).
  apply has_char_join; [done|]. unfold row_cells.
  repeat constructor; try done;
    try (apply toFixed2_plain); try (apply number_toString_plain).
  - unfold quoted. simpl. by rewrite has_char_append, Hname.
  - by destruct (PrimFloat.ltb _ _).
  - by destruct (gtb _ _).
  - by destruct (qualifies stock).
Qed.

(** Splitting goes through a text without line feed and adds it to the
    line being collected. *)
Lemma lines_from_one_line (s rest line : string) :
  has_char newline s = false →
  lines_from (s +:+ rest) line = lines_from rest (line +:+ s).
Proof.
  revert line. induction s as [|c s IH]; intros line Hs.
  - by rewrite append_nil_l, append_nil_r.
  - simpl in Hs. apply orb_false_iff in Hs as [Hc Hs].
    rewrite append_cons. simpl. rewrite Hc, IH by done. by rewrite append_assoc.
Qed.

(** Texts without line feed, joined by line feeds, are the lines of the
    result. *)
Lemma text_lines_join (l : list string) :
  Forall (λ s, has_char newline s = false) l → l ≠ [] →
  text_lines (join (String newline EmptyString) l) = l.
Proof.
  unfold text_lines. intros Hl. induction Hl as [|x l Hx Hl IH]; intros Hne; [done|].
  destruct l as [|y l].
  - simpl. rewrite <- (append_nil_r x) at 1.
    rewrite lines_from_one_line by done. by rewrite append_nil_l.
  - rewrite join_cons, lines_from_one_line, append_nil_l by done.
    change (x :: lines_from (join (String newline EmptyString) (y :: l)) EmptyString
            = x :: y :: l).
    f_equal. by apply IH.
Qed.

(** C6, as it holds.  The table is the header line followed, for each
    qualifying record in order, by a line feed and the row of that record,
    thirteen cells joined by commas, the last one YES; the other records
    add nothing to it, and with no qualifying record the table is the
    header line alone.  When the symbol, name, exchange and date of the
    qualifying records hold no line feed, the lines of the table are the
    header and one line per qualifying record. *)
Theorem table_rows (stocks : list StockWithEMA) :
  generateCSV stocks
  = join (String newline EmptyString)
      (join "," headers ::
       map (λ stock, join "," (row_cells stock))
           (filter (λ stock, qualifies stock = true) stocks)) ∧
  starts_with (join "," headers) (generateCSV stocks) = true ∧
  Forall (λ stock, stock ∈ stocks ∧ length (row_cells stock) = length headers ∧
                   last (row_cells stock) = Some "YES")
         (filter (λ stock, qualifies stock = true) stocks) ∧
  (filter (λ stock, qualifies stock = true) stocks = [] →
   generateCSV stocks = join "," headers) ∧
  (Forall one_line (filter (λ stock, qualifies stock = true) stocks) →
   text_lines (generateCSV stocks)
   = join "," headers ::
     map (λ stock, join "," (row_cells stock))
         (filter (λ stock, qualifies stock = true) stocks)).
Proof.
  assert (Htext : generateCSV stocks
                  = join (String newline EmptyString)
                      (join "," headers ::
                       map (λ stock, join "," (row_cells stock))
                           (filter (λ stock, qualifies stock = true) stocks)))
    by reflexivity.
  split; [exact Htext|]. rewrite Htext.
  split; [|split; [|split]].
  - destruct (filter _ stocks) as [|stock rest].
    + pose proof (starts_with_append (join "," headers) EmptyString) as Hself.
      rewrite append_nil_r in Hself. exact Hself.
    + rewrite map_cons, join_cons. apply starts_with_append.
  - apply Forall_forall. intros stock [Hq Hin]%list_elem_of_filter.
    split; [done|]. split; [reflexivity|]. unfold row_cells. simpl. by rewrite Hq.
  - intros ->. reflexivity.
  - intros Hclean. apply text_lines_join; [|done].
    constructor; [by vm_compute|].
    apply Forall_map. eapply Forall_impl; [exact Hclean|].
    intros stock Hstock. by apply row_one_line.
Qed.

Lemma table_rows_witness :
  Forall one_line
    (filter (λ stock, qualifies stock = true)
       [sample "A" "B, C"; {| base := base (sample "Z" "Y"); ema50 := 10; qualifies := false |}]) ∧
  text_lines
    (generateCSV
       [sample "A" "B, C"; {| base := base (sample "Z" "Y"); ema50 := 10; qualifies := false |}])
  = [join "," headers; join "," (row_cells (sample "A" "B, C"))].
Proof.
  assert (Hclean : Forall one_line
            (filter (λ stock, qualifies stock = true)
               [sample "A" "B, C";
                {| base := base (sample "Z" "Y"); ema50 := 10; qualifies := false |}])).
  { repeat constructor. }
  split; [exact Hclean|].
  destruct (table_rows
              [sample "A" "B, C";
               {| base := base (sample "Z" "Y"); ema50 := 10; qualifies := false |}])
    as (_ & _ & _ & _ & Hlines).
  exact (Hlines Hclean).
Defined.

(** A symbol is written as it is.  With a line feed in it, the row of the
    one qualifying record is spread over two lines: the table has three
    lines, and a reader of comma-separated text finds three records. *)
Lemma line_feed_splits_row :
  length (filter (λ stock, qualifies stock = true) [two_line_symbol]) = 1%nat ∧
  length (text_lines (generateCSV [two_line_symbol])) = 3%nat ∧
  length (read_table (generateCSV [two_line_symbol])) = 3%nat ∧
  ¬ one_row_each [two_line_symbol].
Proof.
  assert (Hlines : length (text_lines (generateCSV [two_line_symbol])) = 3%nat)
    by (vm_compute; reflexivity).
  split; [reflexivity|]. split; [exact Hlines|]. split; [vm_compute; reflexivity|].
  unfold one_row_each. rewrite Hlines. discriminate.
Qed.

(** C7, as it holds.  When the symbol, exchange and date of every
    qualifying record contain no comma, double quote or line feed, and its
    name contains no double quote, reading the table back gives the header
    and then, for each qualifying record in order, its symbol, name,
    exchange and date, the two-decimal renderings of open, high, low, close
    and EMA, the rendering of the volume, the two labels and YES. *)
Theorem table_reads_back (stocks : list StockWithEMA) :
  Forall readable (filter (λ stock, qualifies stock = true) stocks) →
  read_table (generateCSV stocks)
  = headers :: map row_values (filter (λ stock, qualifies stock = true) stocks).
Proof.
  intros Hclean. unfold generateCSV, csvRows.
  apply read_joined_lines; [|done].
  constructor; [by apply joined_cells_line; [apply headers_read|]|].
  generalize dependent (filter (λ stock, qualifies stock = true) stocks).
  intros qualifying Hclean.
  induction Hclean as [|stock rest Hstock Hrest IH]; [constructor|].
  rewrite !map_cons. constructor; [|done].
  by apply joined_cells_line; [apply row_reads|].
Qed.

Lemma table_reads_back_witness :
  Forall readable
    (filter (λ stock, qualifies stock = true)
       [sample "RELIANCE" "Reliance Industries, Ltd"; sample "TCS.BO" "TCS"]) ∧
  read_table (generateCSV [sample "RELIANCE" "Reliance Industries, Ltd"; sample "TCS.BO" "TCS"])
  = headers :: map row_values
                 (filter (λ stock, qualifies stock = true)
                    [sample "RELIANCE" "Reliance Industries, Ltd"; sample "TCS.BO" "TCS"]).
Proof.
  assert (Hclean : Forall readable
            (filter (λ stock, qualifies stock = true)
               [sample "RELIANCE" "Reliance Industries, Ltd"; sample "TCS.BO" "TCS"])).
  { repeat constructor. }
  split; [exact Hclean|].
  exact (table_reads_back
           [sample "RELIANCE" "Reliance Industries, Ltd"; sample "TCS.BO" "TCS"] Hclean).
Defined.

Example table_of_two :
  read_table (generateCSV [sample "RELIANCE" "Reliance Industries, Ltd"; sample "TCS.BO" "TCS"])
  = [ headers;
      ["RELIANCE"; "Reliance Industries, Ltd"; "NSE"; "2025-09-10"; "10.00"; "12.00";
       "9.00"; "11.00"; "1000"; "10.00"; "Below"; "Above"; "YES"];
      ["TCS.BO"; "TCS"; "NSE"; "2025-09-10"; "10.00"; "12.00";
       "9.00"; "11.00"; "1000"; "10.00"; "Below"; "Above"; "YES"] ].
Proof. vm_compute. reflexivity. Qed.

(** A symbol is written as it is.  With a comma in it, the row has
    fourteen fields and the first one is only the part before the comma. *)
Example symbol_with_comma_is_split :
  read_table (generateCSV [sample "A,B" "C"])
  = [ headers;
      ["A"; "B"; "C"; "NSE"; "2025-09-10"; "10.00"; "12.00";
       "9.00"; "11.00"; "1000"; "10.00"; "Below"; "Above"; "YES"] ].
Proof. vm_compute. reflexivity. Qed.

(** Two record lists with different qualifying symbols have the same
    table, so no reader can give the qualifying symbols back for both. *)
Lemma table_is_ambiguous :
  generateCSV [tricky_1] = generateCSV [tricky_2] ∧
  qualifying_symbols [tricky_1] ≠ qualifying_symbols [tricky_2] ∧
  ¬ symbols_recoverable.
Proof.
  assert (Hsame : generateCSV [tricky_1] = generateCSV [tricky_2])
    by (vm_compute; reflexivity).
  split; [exact Hsame|]. split; [by vm_compute|].
  intros (reader & Hreader).
  assert (Hin : "A" ∈ reader (generateCSV [tricky_1])).
  { rewrite Hsame. apply Hreader. vm_compute. apply list_elem_of_here. }
  apply Hreader in Hin. vm_compute in Hin.
  apply list_elem_of_singleton in Hin. discriminate Hin.
Qed.

(** ** The report of a batch and its table *)

Lemma filter_all {A} (l : list A) : filter (λ _, true = true) l = l.
Proof. induction l as [|x l IH]; [done|]. by rewrite filter_cons_True, IH. Qed.

(** Every row starts with the symbol of its record and a comma. *)
Lemma rows_start_with_symbol (l : list StockWithEMA) :
  map (λ stock, join "," (row_cells stock)) l
  = map (λ sym_row, sym_row.1 +:+ "," +:+ sym_row.2)
        (zip (map (λ stock, symbol (base stock)) l)
             (map (λ stock, join "," (tail (row_cells stock))) l)).
Proof.
  induction l as [|stock rest IH]; [done|].
  rewrite !map_cons. cbn [zip_with]. rewrite map_cons, <- IH. reflexivity.
Qed.

Lemma kept_sublist (keep : StockWithEMA → bool) (symbols : list string)
    (outcomes : list (option StockWithEMA)) :
  sublist (kept keep symbols outcomes) symbols.
Proof.
  revert outcomes. induction symbols as [|sym rest IH]; intros outcomes.
  - destruct outcomes; constructor.
  - destruct outcomes as [|[record|] outcomes]; simpl.
    + apply sublist_nil_l.
    + destruct (keep record); [by apply sublist_skip|by apply sublist_cons].
    + by apply sublist_cons.
Qed.

Section BatchReport.
Context {World : Type}.
Context (http_chart : string → option Z → M (World := World) http_response).
Context (iso_date : float → option string).

(** C4, as it holds.  The batch returns a report.  Its record sequence
    holds, in the order of the input, the record of every symbol that was
    analysed, qualifying or not, and nothing else; each record is flagged
    by the rule.  [totalStocks] is the length of that sequence and
    [qualifyingStocks] the number of its records flagged as qualifying, so
    at most [totalStocks].  The table made from the report is the header
    line followed by one row per flagged record, [qualifyingStocks] rows
    in all; when the text fields of these records hold no line feed, the
    table has that many lines after the header. *)
Theorem report_counts (symbols : list string) (w : World) :
  ∃ report w' outcomes,
    execute http_chart iso_date symbols w = (Returned report, w') ∧
    course http_chart iso_date symbols w outcomes w' ∧
    stocks report = omap id outcomes ∧
    totalStocks report = length (stocks report) ∧
    qualifyingStocks report
    = length (filter (λ stock, qualifies stock = true) (stocks report)) ∧
    (qualifyingStocks report ≤ totalStocks report)%nat ∧
    Forall (λ stock, qualifies stock = qualifies_rule (base stock) (ema50 stock))
           (stocks report) ∧
    (∃ rows,
       rows = map (λ stock, join "," (row_cells stock))
                  (filter (λ stock, qualifies stock = true) (stocks report)) ∧
       length rows = qualifyingStocks report ∧
       generateCSV (stocks report)
       = join (String newline EmptyString) (join "," headers :: rows)) ∧
    (Forall one_line (filter (λ stock, qualifies stock = true) (stocks report)) →
     length (text_lines (generateCSV (stocks report)))
     = Datatypes.S (qualifyingStocks report)).
Proof.
  destruct (for_of_course http_chart iso_date symbols w) as (outcomes & w' & Hcourse & Hrun).
  eexists _, w', outcomes. unfold execute, bind. rewrite (Hrun []). simpl.
  split; [reflexivity|]. split; [exact Hcourse|]. split; [done|]. split; [done|].
  split; [done|]. split; [apply length_filter|].
  split; [by eapply course_flags|]. split.
  - eexists. split; [reflexivity|]. split; [by rewrite length_map|reflexivity].
  - intros Hclean. unfold generateCSV, csvRows. rewrite text_lines_join.
    + simpl. by rewrite length_map.
    + constructor; [by vm_compute|].
      apply Forall_map. eapply Forall_impl; [exact Hclean|].
      intros stock Hstock. by apply row_one_line.
    + done.
Qed.

(** C9. The records of the report are those of the input symbols that
    were analysed, in the order of the input, and the qualifying symbols
    among them are the input symbols whose record is flagged, in the order
    of the input: none is left out and none is moved.  The table lists
    them in that same order, one row each, the row starting with the
    symbol. *)
Theorem report_preserves_input_order (symbols : list string) (w : World) :
  ∃ report w' outcomes,
    execute http_chart iso_date symbols w = (Returned report, w') ∧
    course http_chart iso_date symbols w outcomes w' ∧
    map (λ stock, symbol (base stock)) (stocks report) = kept (λ _, true) symbols outcomes ∧
    qualifying_symbols (stocks report) = kept qualifies symbols outcomes ∧
    sublist (qualifying_symbols (stocks report)) symbols ∧
    generateCSV (stocks report)
    = join (String newline EmptyString)
        (join "," headers ::
         map (λ sym_row, sym_row.1 +:+ "," +:+ sym_row.2)
             (zip (qualifying_symbols (stocks report))
                  (map (λ stock, join "," (tail (row_cells stock)))
                       (filter (λ stock, qualifies stock = true) (stocks report))))).
Proof.
  destruct (for_of_course http_chart iso_date symbols w) as (outcomes & w' & Hcourse & Hrun).
  eexists _, w', outcomes. unfold execute, bind. rewrite (Hrun []).
  split; [reflexivity|]. cbn [stocks app]. split; [exact Hcourse|].
  assert (Hq : qualifying_symbols (omap id outcomes) = kept qualifies symbols outcomes).
  { by apply (course_symbols http_chart iso_date qualifies symbols w w'). }
  split; [|split; [exact Hq|split]].
  - rewrite <- (course_symbols http_chart iso_date (λ _, true) symbols w w' outcomes Hcourse).
    by rewrite filter_all.
  - rewrite Hq. apply kept_sublist.
  - unfold qualifying_symbols. rewrite <- rows_start_with_symbol. reflexivity.
Qed.
End BatchReport.

Lemma report_counts_witness :
  ∃ report,
    execute scripted fixed_day ["A"; "B"; "C"]
      [latest_bar 9 11; flat_history 60 10; Returned NotOk;
       latest_bar 10 11; flat_history 60 10]
    = (Returned report, []) ∧
    totalStocks report = 2%nat ∧ qualifyingStocks report = 1%nat ∧
    map (λ stock, symbol (base stock)) (stocks report) = ["A"; "C"] ∧
    length (text_lines (generateCSV (stocks report))) = 2%nat.
Proof.
  destruct (report_counts scripted fixed_day ["A"; "B"; "C"]
              [latest_bar 9 11; flat_history 60 10; Returned NotOk;
               latest_bar 10 11; flat_history 60 10])
    as (report & w' & outcomes & Hrun & _ & _ & Htotal & Hcount & _ & _ & _ & Hlines).
  assert (Hvalue : execute scripted fixed_day ["A"; "B"; "C"]
                     [latest_bar 9 11; flat_history 60 10; Returned NotOk;
                      latest_bar 10 11; flat_history 60 10]
                   = (Returned {|
                        totalStocks := 2;
                        qualifyingStocks := 1;
                        stocks :=
                          [ {| base := base (sample "A" "Acme Ltd"); ema50 := 10;
                               qualifies := true |};
                            {| base := {| symbol := "C"; name := "Acme Ltd"; exchange := "NSE";
                                          open := 10; high := 12; low := 10; close := 11;
                                          volume := 1000; date := "2025-09-10" |};
                               ema50 := 10; qualifies := false |} ] |}, []))
    by (vm_compute; reflexivity).
  rewrite Hvalue in Hrun. injection Hrun as <- <-.
  eexists. split; [exact Hvalue|]. simpl.
  split; [reflexivity|]. split; [reflexivity|]. split; [reflexivity|].
  apply Hlines. repeat constructor.
Defined.

(** Three symbols, the second one without data: the first and the third
    qualify and are listed in that order. *)
Lemma report_preserves_input_order_witness :
  ∃ report outcomes,
    execute scripted fixed_day ["A"; "B"; "C"]
      [latest_bar 9 11; flat_history 60 10; Returned NotOk;
       latest_bar 8 12; flat_history 60 10]
    = (Returned report, []) ∧
    kept qualifies ["A"; "B"; "C"] outcomes = ["A"; "C"] ∧
    qualifying_symbols (stocks report) = ["A"; "C"].
Proof.
  destruct (report_preserves_input_order scripted fixed_day ["A"; "B"; "C"]
              [latest_bar 9 11; flat_history 60 10; Returned NotOk;
               latest_bar 8 12; flat_history 60 10])
    as (report & w' & outcomes & Hrun & _ & _ & Hq & _).
  assert (Hvalue : ∃ r,
            execute scripted fixed_day ["A"; "B"; "C"]
              [latest_bar 9 11; flat_history 60 10; Returned NotOk;
               latest_bar 8 12; flat_history 60 10]
            = (Returned r, []) ∧ qualifying_symbols (stocks r) = ["A"; "C"])
    by (eexists; split; vm_compute; reflexivity).
  destruct Hvalue as (r & Hr & Hsymbols).
  rewrite Hr in Hrun. injection Hrun as <- <-.
  exists r, outcomes. split; [exact Hr|]. split; [by rewrite <- Hq|exact Hsymbols].
Defined.

(** * More properties *)

(** ** More on [calculateEMA] *)

Lemma for_from_ext {S : Type} (n : nat) (i : Z) (f g : Z → S → S) (s : S) :
  (∀ j s', i ≤ j < i + Z.of_nat n → f j s' = g j s') →
  for_from n i f s = for_from n i g s.
Proof.
  revert i s. induction n as [|n IH]; intros i s Hext; [done|].
  simpl. rewrite (Hext i s) by lia. apply IH. intros j s' Hj. apply Hext. lia.
Qed.

Lemma at_index_app_l {A} (l more : list A) (i : Z) :
  i < Z.of_nat (length l) → at_index (l ++ more) i = at_index l i.
Proof.
  intros Hi. unfold at_index. case_decide; [|done].
  apply lookup_app_l. lia.
Qed.

Section Prefix.
Context {num : Type} `{Number num}.
Implicit Types (prices more : list num) (period : Z).

Lemma seed_app prices more period :
  period ≤ Z.of_nat (length prices) →
  seed (prices ++ more) period = seed prices period.
Proof.
  intros Hp. unfold seed. rewrite length_app.
  replace (Z.min period (Z.of_nat (length prices + length more))) with period by lia.
  replace (Z.min period (Z.of_nat (length prices))) with period by lia.
  f_equal. unfold for_range. apply for_from_ext.
  intros j s Hj. unfold sum_step. rewrite at_index_app_l by lia. done.
Qed.

Lemma ema_after_app prices more period (k : nat) (j : Z) :
  period + Z.of_nat k ≤ Z.of_nat (length prices) →
  arr_get (ema_after (prices ++ more) period k) j = arr_get (ema_after prices period k) j.
Proof.
  revert j. induction k as [|k IH]; intros j Hk.
  - unfold ema_after. simpl. rewrite seed_app by lia. done.
  - rewrite !ema_after_S. unfold ema_step.
    destruct (decide (period + Z.of_nat k = j)) as [<-|Hne].
    + rewrite !arr_get_set_eq, at_index_app_l, IH by lia. done.
    + rewrite !arr_get_set_ne by done. apply IH. lia.
Qed.

End Prefix.

(** X1. No look-ahead: the entries computed for a series are not changed
    by prices that come after it. *)
Theorem calculateEMA_no_lookahead (prices more : list float) (period i : Z) :
  period ≤ Z.of_nat (length prices) → i < Z.of_nat (length prices) →
  arr_get (calculateEMA (prices ++ more) period) i = arr_get (calculateEMA prices period) i.
Proof.
  intros Hp Hi. rewrite !calculateEMA_unfold.
  set (k := Z.to_nat (Z.of_nat (length prices) - period)).
  rewrite (ema_after_stable (prices ++ more) period k) by (rewrite ?length_app; lia).
  apply ema_after_app. lia.
Qed.

Lemma calculateEMA_no_lookahead_witness :
  2 ≤ Z.of_nat (length [1; 2; 4]%float) ∧ 2 < Z.of_nat (length [1; 2; 4]%float) ∧
  arr_get (calculateEMA ([1; 2; 4] ++ [100; 7])%float 2) 2
  = arr_get (calculateEMA [1; 2; 4]%float 2) 2.
Proof.
  split; [simpl; lia|]. split; [simpl; lia|].
  apply (calculateEMA_no_lookahead [1; 2; 4]%float [100; 7]%float 2 2); simpl; lia.
Defined.

(** *** Not-a-number *)

Lemma is_nan_spec (x : float) : PrimFloat.is_nan x = true ↔ Prim2SF x = S754_nan.
Proof.
  unfold PrimFloat.is_nan. rewrite FloatAxioms.eqb_spec. unfold SFeqb.
  destruct (Prim2SF x) as [[]|[]| |[] m e]; simpl; split; try done.
  all: change (Pos.compare_cont Eq m m) with (Pos.compare m m).
  all: rewrite Z.compare_refl, Pos.compare_refl; simpl; done.
Qed.

Lemma add_nan (x y : float) :
  PrimFloat.is_nan x = true ∨ PrimFloat.is_nan y = true →
  PrimFloat.is_nan (PrimFloat.add x y) = true.
Proof.
  rewrite !is_nan_spec, add_spec. intros [-> | ->]; [done|].
  by destruct (Prim2SF x) as [[]|[]| |[] m e].
Qed.

Lemma sub_nan (x y : float) :
  PrimFloat.is_nan x = true ∨ PrimFloat.is_nan y = true →
  PrimFloat.is_nan (PrimFloat.sub x y) = true.
Proof.
  rewrite !is_nan_spec, sub_spec. intros [-> | ->]; [done|].
  by destruct (Prim2SF x) as [[]|[]| |[] m e].
Qed.

Lemma mul_nan (x y : float) :
  PrimFloat.is_nan x = true ∨ PrimFloat.is_nan y = true →
  PrimFloat.is_nan (PrimFloat.mul x y) = true.
Proof.
  rewrite !is_nan_spec, mul_spec. intros [-> | ->]; [done|].
  by destruct (Prim2SF x) as [[]|[]| |[] m e].
Qed.

Lemma div_nan_l (x y : float) :
  PrimFloat.is_nan x = true → PrimFloat.is_nan (PrimFloat.div x y) = true.
Proof. rewrite !is_nan_spec, div_spec. by intros ->. Qed.

Lemma ema_next_nan (m price prev : float) :
  PrimFloat.is_nan price = true ∨ PrimFloat.is_nan prev = true →
  PrimFloat.is_nan (ema_next m price prev) = true.
Proof.
  intros Hnan.
  change (ema_next m price prev)
    with (PrimFloat.add (PrimFloat.mul (PrimFloat.sub price prev) m) prev).
  destruct Hnan as [Hp|Hp].
  - apply add_nan. left. apply mul_nan. left. apply sub_nan. by left.
  - apply add_nan. by right.
Qed.

Lemma foldl_add_nan_acc (l : list float) (a : float) :
  PrimFloat.is_nan a = true → PrimFloat.is_nan (foldl PrimFloat.add a l) = true.
Proof.
  revert a. induction l as [|x l IH]; intros a Ha; [done|].
  simpl. apply IH, add_nan. by left.
Qed.

Lemma foldl_add_nan (l : list float) (a x : float) :
  x ∈ l → PrimFloat.is_nan x = true → PrimFloat.is_nan (foldl PrimFloat.add a l) = true.
Proof.
  intros Hin Hx. revert a. induction Hin as [x l|x y l Hin IH]; intros a; simpl.
  - apply foldl_add_nan_acc, add_nan. by right.
  - apply IH, Hx.
Qed.

(** X2. Not-a-number is absorbing: a NaN among the prices makes every
    entry from its position on (from [period - 1] on, when it is among the
    first [period] prices) NaN. *)
Theorem calculateEMA_nan_absorbing (prices : list float) (period : Z) (j : nat)
    (x : float) (i : Z) :
  1 ≤ period → period ≤ Z.of_nat (length prices) →
  prices !! j = Some x → PrimFloat.is_nan x = true →
  Z.max (Z.of_nat j) (period - 1) ≤ i < Z.of_nat (length prices) →
  ∃ v, arr_get (calculateEMA prices period) i = Some v ∧ PrimFloat.is_nan v = true.
Proof.
  intros Hp Hlen Hj Hx Hi.
  rewrite calculateEMA_unfold.
  set (K := Z.to_nat (Z.of_nat (length prices) - period)).
  set (start := Z.max (Z.of_nat j) (period - 1)) in *.
  assert (Hstart : ∃ v, arr_get (ema_after prices period K) start = Some v
                        ∧ PrimFloat.is_nan v = true).
  { destruct (Z_lt_le_dec (Z.of_nat j) period) as [Hin|Hout].
    - replace start with (period - 1) by (unfold start; lia).
      rewrite ema_after_seed. eexists. split; [reflexivity|].
      rewrite seed_mean by lia. unfold mean.
      apply div_nan_l. apply (foldl_add_nan _ _ x); [|done].
      apply list_elem_of_lookup. exists j. apply lookup_take_Some. split; [done|lia].
    - replace start with (Z.of_nat j) by (unfold start; lia).
      rewrite ema_after_recurrence by (unfold start, K in *; lia).
      eexists. split; [reflexivity|]. apply ema_next_nan. left.
      rewrite at_index_nat, Hj. done. }
  assert (Hall : ∀ n : nat, start + Z.of_nat n < Z.of_nat (length prices) →
            ∃ v, arr_get (ema_after prices period K) (start + Z.of_nat n) = Some v
                 ∧ PrimFloat.is_nan v = true).
  { induction n as [|n IH]; intros Hn.
    - by rewrite Z.add_0_r.
    - destruct IH as (prev & Hprev & Hnan); [lia|].
      rewrite ema_after_recurrence by (unfold start, K in *; lia).
      replace (start + Z.of_nat (Datatypes.S n) - 1) with (start + Z.of_nat n) by lia.
      rewrite Hprev. eexists. split; [reflexivity|]. apply ema_next_nan. by right. }
  replace i with (start + Z.of_nat (Z.to_nat (i - start))) by lia.
  apply Hall. lia.
Qed.

Lemma calculateEMA_nan_absorbing_witness :
  1 ≤ 2 ∧ 2 ≤ Z.of_nat (length [1; nan; 3; 4]%float) ∧
  ∃ v, arr_get (calculateEMA [1; nan; 3; 4]%float 2) 3 = Some v
       ∧ PrimFloat.is_nan v = true.
Proof.
  split; [lia|]. split; [simpl; lia|].
  apply (calculateEMA_nan_absorbing [1; nan; 3; 4]%float 2 1 nan 3);
    [lia | simpl; lia | reflexivity | reflexivity | simpl; lia].
Defined.

(** ** More on the qualification rule *)

Lemma SFltb_val (x y : spec_float) :
  valid_binary x = true → valid_binary y = true →
  SFfinite x = true → SFfinite y = true →
  SFltb x y = true ↔ SFval 1074 x < SFval 1074 y.
Proof.
  intros Hvx Hvy Hfx Hfy. unfold SFltb.
  rewrite (SFcompare_val 1074) by (done || lia).
  destruct (Z.compare_spec (SFval 1074 x) (SFval 1074 y)); split; (done || lia).
Qed.

(** [<] on numbers is transitive, and what lies strictly between two
    numbers is finite. *)
Lemma SFltb_trans (a b c : spec_float) :
  valid_binary a = true → valid_binary b = true → valid_binary c = true →
  SFltb a b = true → SFltb b c = true →
  SFfinite b = true ∧ SFltb a c = true.
Proof.
  intros Hva Hvb Hvc Hab Hbc.
  assert (Hfb : SFfinite b = true).
  { destruct b as [?|[]| |? ? ?]; try done.
    - destruct a as [?|[]| |[] ? ?]; discriminate Hab.
    - destruct c as [?|[]| |[] ? ?]; discriminate Hbc. }
  split; [done|].
  destruct (SFfinite a) eqn:Hfa, (SFfinite c) eqn:Hfc.
  { apply SFltb_val; try done.
    apply SFltb_val in Hab; try done. apply SFltb_val in Hbc; try done. lia. }
  all: destruct a as [?|[]| |[] ? ?], b as [?|[]| |[] ? ?], c as [?|[]| |[] ? ?];
    try discriminate; reflexivity.
Qed.

(** X3. What qualifies: the EMA is a finite number, and the low is
    strictly below the close.  So a bar whose low is not below its close
    never qualifies, nor does any bar against an EMA that is NaN or
    infinite. *)
Theorem qualifying_bar_shape (bar : StockData) (currentEMA50 : float) :
  qualifies_rule bar currentEMA50 = true →
  finite_number currentEMA50 = true ∧
  PrimFloat.ltb (low bar) (close bar) = true.
Proof.
  unfold qualifies_rule, gtb. intros [Hlow Hclose]%andb_true_iff.
  rewrite FloatAxioms.ltb_spec in *. unfold finite_number.
  apply (SFltb_trans (Prim2SF (low bar)) (Prim2SF currentEMA50) (Prim2SF (close bar)));
    try done; apply Prim2SF_valid.
Qed.

Lemma qualifying_bar_shape_witness :
  qualifies_rule (base (sample "A" "B")) 10 = true ∧
  finite_number 10 = true ∧
  PrimFloat.ltb (low (base (sample "A" "B"))) (close (base (sample "A" "B"))) = true.
Proof.
  split; [reflexivity|].
  apply (qualifying_bar_shape (base (sample "A" "B")) 10). reflexivity.
Defined.

(** *** A flat price *)

Lemma eqb_fvalue (x y : float) :
  finite_number x = true → finite_number y = true →
  PrimFloat.eqb x y = true ↔ fvalue x = fvalue y.
Proof.
  intros Hx Hy. rewrite FloatAxioms.eqb_spec. unfold SFeqb.
  rewrite (SFcompare_val 1074) by (done || lia || apply Prim2SF_valid).
  fold (fvalue x) (fvalue y).
  destruct (Z.compare_spec (fvalue x) (fvalue y)); split; (done || lia).
Qed.

Lemma eqb_finite (x y : float) :
  PrimFloat.eqb x y = true → finite_number y = true → finite_number x = true.
Proof.
  rewrite FloatAxioms.eqb_spec. unfold finite_number, SFeqb.
  destruct (Prim2SF x) as [?|[]| |? ? ?], (Prim2SF y) as [?|[]| |? ? ?]; done.
Qed.

(** X4. On a flat price the average stays where it is: for a period of at
    least 2, when [price[i]] equals ([==]) a finite [ema[i-1]], [ema[i]]
    equals it too. *)
Theorem ema_fixed_on_flat_price (prices : list float) (period i : Z)
    (price prev : float) :
  2 ≤ period → period ≤ i < Z.of_nat (length prices) →
  prices !! Z.to_nat i = Some price →
  arr_get (calculateEMA prices period) (i - 1) = Some prev →
  finite_number prev = true → PrimFloat.eqb price prev = true →
  ∃ cur, arr_get (calculateEMA prices period) i = Some cur ∧
         PrimFloat.eqb cur prev = true.
Proof.
  intros Hp Hi Hprice Hprev Hfe Heq.
  pose proof (eqb_finite _ _ Heq Hfe) as Hfp.
  pose proof (proj1 (eqb_fvalue _ _ Hfp Hfe) Heq) as Hval.
  pose proof (multiplier_ok_from_2 period Hp) as [Hm0 Hm1]%andb_true_iff.
  assert (Hfd : finite_number (PrimFloat.sub price prev) = true).
  { unfold finite_number. rewrite sub_spec.
    apply (rounded_to_finite 1074 (fvalue price - fvalue prev)); [lia| |].
    - apply SFsub_rounded; try done; try lia; apply Prim2SF_valid.
    - rewrite Hval, Z.sub_diag. unfold max_value.
      assert (0 < 2 ^ (971 + 1074)) by (apply pow2_pos; lia). lia. }
  destruct (ema_next_between (multiplier_of period) price prev Hfp Hfe Hfd Hm0 Hm1)
    as [Hfc Hbetween].
  destruct (at_index_in_range prices i) as (x & Hx & Hat); [lia|].
  rewrite Hprice in Hx. injection Hx as <-.
  rewrite calculateEMA_unfold in *.
  rewrite ema_after_recurrence by lia.
  rewrite Hprev, Hat. simpl to_number.
  eexists. split; [reflexivity|].
  apply eqb_fvalue; [done|done|].
  unfold lies_between in Hbetween.
  apply orb_true_iff in Hbetween as [[H1 H2]%andb_true_iff|[H1 H2]%andb_true_iff];
    apply leb_fvalue in H1, H2; try done; lia.
Qed.

Lemma ema_fixed_on_flat_price_witness :
  2 ≤ 2 ∧
  ∃ cur, arr_get (calculateEMA [3; 5; 4]%float 2) 2 = Some cur ∧
         PrimFloat.eqb cur 4 = true.
Proof.
  split; [lia|].
  apply (ema_fixed_on_flat_price [3; 5; 4]%float 2 2 4 4);
    [lia | simpl; lia | reflexivity | vm_compute; reflexivity | reflexivity | reflexivity].
Defined.

(** ** The request symbol and the exchange *)

Lemma includes_here (s sub : string) : starts_with sub s = true → includes s sub = true.
Proof. intros Hs. destruct s; simpl in *; by rewrite Hs. Qed.

Lemma includes_later (c : ascii) (s sub : string) :
  includes s sub = true → includes (String c s) sub = true.
Proof. intros Hs. simpl. rewrite Hs. apply orb_true_r. Qed.

Lemma includes_append_r (s t sub : string) :
  includes t sub = true → includes (s +:+ t) sub = true.
Proof.
  intros Ht. induction s as [|c s IH]; [done|].
  rewrite append_cons. by apply includes_later.
Qed.

Lemma starts_with_shorter (c : ascii) (rest s : string) :
  starts_with (String c rest) s = true → starts_with (String c EmptyString) s = true.
Proof.
  destruct s as [|b s]; simpl; [done|]. destruct (Ascii.eqb c b); [|done].
  intros _. by destruct s.
Qed.

Lemma includes_shorter (c : ascii) (rest s : string) :
  includes s (String c rest) = true → includes s (String c EmptyString) = true.
Proof.
  induction s as [|b s IH]; [done|].
  intros [Hhere|Hlater]%orb_true_iff.
  - apply includes_here. by apply (starts_with_shorter c rest).
  - apply includes_later, IH, Hlater.
Qed.

(** X5. The symbol of the request always carries a suffix: a symbol with a
    dot is requested as it is, and so is every [.BO] symbol, which is
    labelled BSE; a symbol without a dot gets [.NS]; applying the rule
    twice changes nothing. *)
Theorem yahooSymbol_suffix (sym : string) :
  includes (yahooSymbol sym) "." = true ∧
  yahooSymbol (yahooSymbol sym) = yahooSymbol sym ∧
  (includes sym "." = true → yahooSymbol sym = sym) ∧
  (includes sym ".BO" = true → includes sym "." = true ∧ yahooSymbol sym = sym) ∧
  (includes sym "." = false →
   yahooSymbol sym = sym +:+ ".NS" ∧ includes sym ".BO" = false).
Proof.
  assert (Hdot : includes (yahooSymbol sym) "." = true).
  { unfold yahooSymbol. destruct (includes sym ".") eqn:Hd; [done|].
    by apply includes_append_r. }
  assert (Hsame : includes sym "." = true → yahooSymbol sym = sym).
  { intros Hd. unfold yahooSymbol. by rewrite Hd. }
  split; [done|]. split; [|split; [done|split]].
  - unfold yahooSymbol at 1. by rewrite Hdot.
  - intros Hbo. pose proof (includes_shorter "." "BO" sym Hbo) as Hd. by split; [|apply Hsame].
  - intros Hd. unfold yahooSymbol. rewrite Hd. split; [done|].
    destruct (includes sym ".BO") eqn:Hbo; [|done].
    by rewrite (includes_shorter "." "BO" sym Hbo) in Hd.
Qed.

Lemma yahooSymbol_suffix_witness :
  includes "A.b" "." = true ∧ yahooSymbol "A.b" = "A.b" ∧
  includes "TCS.BO" ".BO" = true ∧ yahooSymbol "TCS.BO" = "TCS.BO" ∧
  includes "M&M" "." = false ∧ yahooSymbol "M&M" = "M&M.NS".
Proof.
  destruct (yahooSymbol_suffix "A.b") as (_ & _ & Hdot & _).
  destruct (yahooSymbol_suffix "TCS.BO") as (_ & _ & _ & Hbo & _).
  destruct (yahooSymbol_suffix "M&M") as (_ & _ & _ & _ & Hns).
  split; [reflexivity|]. split; [exact (Hdot eq_refl)|].
  split; [reflexivity|]. split; [exact (proj2 (Hbo eq_refl))|].
  split; [reflexivity|exact (proj1 (Hns eq_refl))].
Defined.

(** ** What is fetched *)

Lemma or_zero_not_nan (v : json_entry) : PrimFloat.is_nan (or_zero v) = false.
Proof.
  destruct v as [[x|]|]; simpl; try reflexivity.
  destruct (PrimFloat.is_nan x) eqn:Hx; simpl; [reflexivity|].
  destruct (PrimFloat.eqb x 0); [reflexivity|done].
Qed.

Lemma or_zero_falsy (entry : json_entry) : falsy entry → or_zero entry = 0%float.
Proof.
  destruct entry as [[x|]|]; simpl; [|done..].
  intros [-> | Hzero]; [done|]. rewrite Hzero. by rewrite orb_true_r.
Qed.

Lemma or_zero_other (entry : json_entry) (x : float) :
  entry = Some (Some x) → ¬ falsy entry → or_zero entry = x.
Proof.
  intros -> Hnot. simpl in *.
  destruct (PrimFloat.is_nan x); [by destruct Hnot; left|].
  destruct (PrimFloat.eqb x 0); [by destruct Hnot; right|done].
Qed.

Lemma or_string_not_empty (a : option string) (b : string) :
  b ≠ EmptyString → or_string a b ≠ EmptyString.
Proof. intros Hb. by destruct a as [[|c s]|]. Qed.

Section FetchFacts.
Context {World : Type}.
Context (http_chart : string → option Z → M (World := World) http_response).
Context (iso_date : float → option string).

(** X6. A bar that is fetched carries the symbol asked for, the exchange
    that the symbol names, a name that is not empty (for a symbol that is
    not), and five numbers taken from the last bar of the chart that the
    provider sent: an entry that is missing, null, NaN or a zero counts as
    zero, any other entry is taken as it is; so none of the five is NaN. *)
Theorem fetched_bar_is_well_formed (sym : string) (w w' : World) (bar : StockData) :
  fetchStockFromYahoo http_chart iso_date sym w = (Returned (Some bar), w') →
  ∃ result,
    http_chart (yahooSymbol sym) None w = (Returned (OkJson (Some result)), w') ∧
    symbol bar = sym ∧
    exchange bar = (if includes sym ".BO" then "BSE" else "NSE") ∧
    (sym ≠ EmptyString → name bar ≠ EmptyString) ∧
    taken_for (last_entry q_open result) (open bar) ∧
    taken_for (last_entry q_high result) (high bar) ∧
    taken_for (last_entry q_low result) (low bar) ∧
    taken_for (last_entry q_close result) (close bar) ∧
    taken_for (last_entry q_volume result) (volume bar) ∧
    PrimFloat.is_nan (open bar) = false ∧ PrimFloat.is_nan (high bar) = false ∧
    PrimFloat.is_nan (low bar) = false ∧ PrimFloat.is_nan (close bar) = false ∧
    PrimFloat.is_nan (volume bar) = false.
Proof.
  unfold fetchStockFromYahoo, try_catch, bind.
  destruct (http_chart (yahooSymbol sym) None w) as [[|[|[result|]]] w1];
    try (unfold ret; congruence).
  destruct (iso_date _) as [day|]; unfold ret, throw; [|congruence].
  intros [= <- <-]. exists result. simpl.
  split; [done|]. split; [done|]. split; [done|]. split.
  { intros Hsym. by apply or_string_not_empty, or_string_not_empty. }
  repeat split; first [apply or_zero_falsy | apply or_zero_other | apply or_zero_not_nan].
Qed.

(** X7. A chart without bars gives no bar: when the close array is empty,
    or the timestamp array is shorter than it, the time value read is
    NaN, the date cannot be formed, and the function returns null instead
    of a bar of zeros. *)
Theorem chart_without_bars_gives_null (sym : string) (w w' : World)
    (result : chart_result) :
  iso_date nan = None →
  http_chart (yahooSymbol sym) None w = (Returned (OkJson (Some result)), w') →
  (q_close result = [] ∨ (length (timestamp result) < length (q_close result))%nat) →
  fetchStockFromYahoo http_chart iso_date sym w = (Returned None, w').
Proof.
  intros Hdate Hreq Hshort.
  unfold fetchStockFromYahoo, try_catch, bind. rewrite Hreq.
  assert (Hts : at_index (timestamp result) (Z.of_nat (length (q_close result)) - 1) = None).
  { unfold at_index. case_decide; [|done]. apply lookup_ge_None.
    destruct Hshort as [Hnil|Hlt]; [rewrite Hnil in *; simpl in *; lia|lia]. }
  rewrite Hts.
  change (PrimFloat.mul (json_number None) 1000) with nan. rewrite Hdate. reflexivity.
Qed.
End FetchFacts.

Lemma fetched_bar_is_well_formed_witness :
  ∃ bar,
    fetchStockFromYahoo scripted fixed_day "TCS.BO" [Returned (OkJson (Some bar_without_low))]
    = (Returned (Some bar), []) ∧
    symbol bar = "TCS.BO" ∧ exchange bar = "BSE" ∧
    low bar = 0%float ∧ close bar = 11%float.
Proof.
  eexists. split; [reflexivity|].
  destruct (fetched_bar_is_well_formed scripted fixed_day "TCS.BO"
              [Returned (OkJson (Some bar_without_low))] [] _ eq_refl)
    as (result & Hreq & Hsym & Hexchange & _ & _ & _ & Hlow & Hclose & _).
  injection Hreq as <-.
  split; [exact Hsym|]. split; [exact Hexchange|]. split.
  - apply (proj1 Hlow). by vm_compute.
  - apply (proj2 Hclose 11%float); [reflexivity|].
    intros Hfalsy. vm_compute in Hfalsy. destruct Hfalsy; discriminate.
Defined.

Lemma chart_without_bars_gives_null_witness :
  valid_day nan = None ∧
  fetchStockFromYahoo scripted valid_day "A" [Returned (OkJson (Some empty_chart))]
  = (Returned None, []).
Proof.
  split; [reflexivity|].
  apply (chart_without_bars_gives_null scripted valid_day "A" _ _ empty_chart);
    [reflexivity | reflexivity | by left].
Defined.

(** ** More on the batch *)

Section BatchMore.
Context {World : Type}.
Context (http_chart : string → option Z → M (World := World) http_response).
Context (iso_date : float → option string).

(** What one iteration appends does not depend on what was accumulated. *)
Lemma process_appends (sym : string) (w : World) :
  ∃ added w', ∀ acc,
    process http_chart iso_date sym acc w = (Returned (acc ++ added)%list, w').
Proof.
  destruct (fetchStockFromYahoo_returns http_chart iso_date sym w)
    as (latest & w1 & Hlatest).
  unfold process, bind. rewrite Hlatest.
  destruct latest as [stockData|].
  - destruct (fetchHistoricalPrices_returns http_chart sym 100 w1) as (hist & w2 & Hhist).
    rewrite Hhist. case_decide.
    + exists [], w2. intros acc. by rewrite app_nil_r.
    + eexists [_], w2. intros acc. reflexivity.
  - exists [], w1. intros acc. by rewrite app_nil_r.
Qed.

Lemma for_of_appends (symbols : list string) (w : World) :
  ∃ added w', ∀ acc,
    for_of http_chart iso_date symbols acc w = (Returned (acc ++ added)%list, w').
Proof.
  revert w. induction symbols as [|sym rest IH]; intros w.
  - exists [], w. intros acc. by rewrite app_nil_r.
  - destruct (process_appends sym w) as (first & w1 & Hfirst).
    destruct (IH w1) as (others & w' & Hothers).
    exists (first ++ others)%list, w'. intros acc.
    simpl. unfold bind. rewrite Hfirst, Hothers. by rewrite <- app_assoc.
Qed.

Lemma for_of_app (s1 s2 : list string) (acc : list StockWithEMA) (w : World) :
  for_of http_chart iso_date (s1 ++ s2) acc w
  = bind (for_of http_chart iso_date s1 acc) (for_of http_chart iso_date s2) w.
Proof.
  revert acc w. induction s1 as [|sym rest IH]; intros acc w; [done|].
  simpl. unfold bind.
  destruct (process http_chart iso_date sym acc w) as [[|acc1] w1]; [done|].
  rewrite IH. reflexivity.
Qed.

(** X8. The batch over two symbol lists in a row is the batch over the
    first followed by the batch over the second, started where the first
    one left the world: the records are those of the first report followed
    by those of the second, and both counts add up. *)
Theorem execute_app (s1 s2 : list string) (w : World) :
  ∃ r1 w1 r2 w2,
    execute http_chart iso_date s1 w = (Returned r1, w1) ∧
    execute http_chart iso_date s2 w1 = (Returned r2, w2) ∧
    execute http_chart iso_date (s1 ++ s2) w
    = (Returned {| totalStocks := totalStocks r1 + totalStocks r2;
                   qualifyingStocks := qualifyingStocks r1 + qualifyingStocks r2;
                   stocks := stocks r1 ++ stocks r2 |}, w2).
Proof.
  destruct (for_of_appends s1 w) as (a1 & w1 & H1).
  destruct (for_of_appends s2 w1) as (a2 & w2 & H2).
  eexists _, w1, _, w2. unfold execute, bind.
  rewrite for_of_app. unfold bind.
  rewrite !H1, !H2. simpl.
  split; [reflexivity|]. split; [reflexivity|].
  by rewrite filter_app, !length_app.
Qed.

(** X9. A symbol with a bar and a history of at least 50 prices is
    analysed: one record is appended, made of the bar, of the last entry
    of the EMA series of the history, which is defined, and of the flag
    that the rule gives for them. *)
Theorem analysed_symbol_is_recorded (sym : string) (acc : list StockWithEMA)
    (w w1 w2 : World) (bar : StockData) (hist : list float) :
  fetchStockFromYahoo http_chart iso_date sym w = (Returned (Some bar), w1) →
  fetchHistoricalPrices http_chart sym 100 w1 = (Returned hist, w2) →
  50 ≤ Z.of_nat (length hist) ≤ max_length →
  ∃ ema,
    arr_get (calculateEMA hist 50) (Z.of_nat (length hist) - 1) = Some ema ∧
    process http_chart iso_date sym acc w
    = (Returned (acc ++ [{| base := bar; ema50 := ema;
                            qualifies := qualifies_rule bar ema |}])%list, w2).
Proof.
  intros Hbar Hhist Hlen.
  destruct (current_ema_defined hist Hlen) as [ema Hema].
  assert (Hlast : alength (calculateEMA hist 50) = Z.of_nat (length hist)).
  { rewrite calculateEMA_unfold, ema_after_length; lia. }
  rewrite Hlast in Hema.
  exists ema. split; [done|].
  unfold process, bind. rewrite Hbar, Hhist.
  case_decide; [lia|]. rewrite Hlast, Hema. reflexivity.
Qed.

Lemma for_of_without_data (symbols : list string) (w : World) :
  (∀ s days w0, no_data (http_chart s days w0).1) →
  ∃ w', for_of http_chart iso_date symbols [] w = (Returned [], w').
Proof.
  intros Hdown. revert w.
  induction symbols as [|sym rest IH]; intros w; [by exists w|].
  destruct (http_chart (yahooSymbol sym) None w) as [answer w1] eqn:Hreq.
  pose proof (Hdown (yahooSymbol sym) None w) as Hno. rewrite Hreq in Hno.
  destruct (IH w1) as (w' & Hrest). exists w'.
  simpl. unfold bind.
  rewrite (skipped_process http_chart iso_date sym [] w w1); [done|].
  by apply (latest_fetch_failed _ _ _ _ _ answer).
Qed.

(** X10. When no request brings data (each throws, is not ok, or has no
    result), the batch still returns: the empty report. *)
Theorem batch_without_data_is_empty (symbols : list string) (w : World) :
  (∀ s days w0, no_data (http_chart s days w0).1) →
  ∃ w', execute http_chart iso_date symbols w
        = (Returned {| totalStocks := 0; qualifyingStocks := 0; stocks := [] |}, w').
Proof.
  intros Hdown.
  destruct (for_of_without_data symbols w Hdown) as (w' & Hrun). exists w'.
  unfold execute, bind. by rewrite Hrun.
Qed.
End BatchMore.


Lemma analysed_symbol_is_recorded_witness :
  50 ≤ Z.of_nat (length (replicate 60 10%float)) ≤ max_length ∧
  ∃ ema,
    arr_get (calculateEMA (replicate 60 10%float) 50)
            (Z.of_nat (length (replicate 60 10%float)) - 1) = Some ema ∧
    process scripted fixed_day "A" [] [latest_bar 9 11; flat_history 60 10]
    = (Returned ([] ++ [{| base := base (sample "A" "Acme Ltd"); ema50 := ema;
                           qualifies := qualifies_rule (base (sample "A" "Acme Ltd")) ema |}])%list,
       []).
Proof.
  assert (Hlen : 50 ≤ Z.of_nat (length (replicate 60 10%float)) ≤ max_length).
  { rewrite length_replicate. unfold max_length. lia. }
  split; [exact Hlen|].
  apply (analysed_symbol_is_recorded scripted fixed_day "A" []
           [latest_bar 9 11; flat_history 60 10] [flat_history 60 10] []
           (base (sample "A" "Acme Ltd")) (replicate 60 10%float));
    [vm_compute; reflexivity | vm_compute; reflexivity | exact Hlen].
Defined.

Lemma batch_without_data_is_empty_witness :
  (∀ s days w0, no_data (unreachable s days w0).1) ∧
  ∃ w', execute unreachable fixed_day ["A"; "B"] tt
        = (Returned {| totalStocks := 0; qualifyingStocks := 0; stocks := [] |}, w').
Proof.
  assert (Hdown : ∀ s days w0, no_data (unreachable s days w0).1) by (intros; by left).
  split; [exact Hdown|].
  apply (batch_without_data_is_empty unreachable fixed_day ["A"; "B"] tt Hdown).
Defined.

(** ** More on the table *)

Lemma count_char_append (c : ascii) (a b : string) :
  count_char c (a +:+ b) = (count_char c a + count_char c b)%nat.
Proof.
  induction a as [|x a IH]; [done|]. rewrite append_cons. simpl. rewrite IH. lia.
Qed.

Lemma count_char_absent (c : ascii) (s : string) :
  has_char c s = false → count_char c s = 0%nat.
Proof.
  induction s as [|a s IH]; [done|]. simpl.
  intros [-> Hs]%orb_false_iff. by rewrite IH.
Qed.

Lemma count_lines (lines : list string) :
  Forall (λ s, has_char newline s = false) lines → lines ≠ [] →
  count_char newline (join (String newline EmptyString) lines) = (length lines - 1)%nat.
Proof.
  intros Hl. induction Hl as [|x l Hx Hl IH]; intros Hne; [done|].
  destruct l as [|y l]; [by apply count_char_absent|].
  rewrite join_cons, !count_char_append, (count_char_absent _ _ Hx), IH by done.
  simpl. lia.
Qed.

(** X11. Lines and rows: when the text fields of the qualifying records
    hold no line feed, the content returned by the tool has as many line
    feeds as the count it returns, so one line for the header and one per
    qualifying record, the last one without a line feed after it. *)
Theorem csv_line_feeds_match_count (stocks : list StockWithEMA)
    (filename timestamp : string) :
  Forall one_line (filter (λ stock, qualifies stock = true) stocks) →
  count_char newline (csvContent (generateStockCSV_execute stocks filename timestamp))
  = qualifyingCount (generateStockCSV_execute stocks filename timestamp).
Proof.
  intros Hclean. unfold generateStockCSV_execute. simpl.
  unfold generateCSV.
  assert (Hrows : csvRows stocks
                  = join "," headers ::
                    map (λ s, join "," (row_cells s))
                        (filter (λ stock, qualifies stock = true) stocks))
    by reflexivity.
  rewrite Hrows, count_lines; [simpl; rewrite length_map; lia| |done].
  constructor; [by vm_compute|].
  apply Forall_map. eapply Forall_impl; [exact Hclean|].
  intros stock Hstock. by apply row_one_line.
Qed.

Lemma csv_line_feeds_match_count_witness :
  Forall one_line
    (filter (λ stock, qualifies stock = true)
       [sample "RELIANCE" "Reliance Industries, Ltd"; sample "TCS.BO" "TCS"]) ∧
  count_char newline
    (csvContent (generateStockCSV_execute
                   [sample "RELIANCE" "Reliance Industries, Ltd"; sample "TCS.BO" "TCS"]
                   "report" "2025-09-10"))
  = 2%nat.
Proof.
  assert (Hclean : Forall one_line
            (filter (λ stock, qualifies stock = true)
               [sample "RELIANCE" "Reliance Industries, Ltd"; sample "TCS.BO" "TCS"])).
  { repeat constructor. }
  split; [exact Hclean|].
  exact (csv_line_feeds_match_count
           [sample "RELIANCE" "Reliance Industries, Ltd"; sample "TCS.BO" "TCS"]
           "report" "2025-09-10" Hclean).
Defined.

(** X12. Whatever the numbers of a record (NaN, infinities and values
    rendered with an exponent included), its cells from Open to Qualifies
    hold no comma, no double quote and no line feed: only the four text
    fields can disturb the table. *)
Theorem numeric_cells_are_plain (stock : StockWithEMA) :
  Forall plain (drop 4 (row_cells stock)) ∧ length (row_cells stock) = length headers.
Proof.
  split; [|reflexivity]. unfold row_cells. simpl drop.
  repeat constructor;
    try (apply toFixed2_plain); try (apply number_toString_plain).
  all: first [ by destruct (PrimFloat.ltb _ _) | by destruct (gtb _ _)
             | by destruct (qualifies stock) ].
Qed.

(** The labels of a row follow the rule. *)
Lemma labels_of_qualifying (stock : StockWithEMA) :
  qualifies_rule (base stock) (ema50 stock) = true → qualifies stock = true →
  drop 10 (row_cells stock) = ["Below"; "Above"; "YES"].
Proof.
  unfold qualifies_rule. intros [Hlow Hclose]%andb_true_iff Hq.
  unfold row_cells. simpl. by rewrite Hlow, Hclose, Hq.
Qed.

Section BatchTable.
Context {World : Type}.
Context (http_chart : string → option Z → M (World := World) http_response).
Context (iso_date : float → option string).

(** X13. In the table made from a report of the batch, every data row ends
    with the cells Below, Above and YES: the records are flagged by the
    rule, and the two labels repeat its two comparisons. *)
Theorem batch_rows_end_below_above_yes (symbols : list string) (w : World) :
  ∃ report w',
    execute http_chart iso_date symbols w = (Returned report, w') ∧
    csvRows (stocks report)
    = join "," headers ::
      map (λ stock, join "," (row_cells stock))
          (filter (λ stock, qualifies stock = true) (stocks report)) ∧
    Forall (λ stock, drop 10 (row_cells stock) = ["Below"; "Above"; "YES"])
           (filter (λ stock, qualifies stock = true) (stocks report)).
Proof.
  destruct (execute_returns http_chart iso_date symbols w)
    as (stocksWithEMA & w' & Hrun & _ & Hall).
  eexists _, w'. split; [exact Hrun|]. simpl. split; [reflexivity|].
  apply Forall_forall. intros stock [Hq Hin]%list_elem_of_filter.
  rewrite Forall_forall in Hall. specialize (Hall stock Hin).
  apply labels_of_qualifying; [|done]. by rewrite <- Hall.
Qed.
End BatchTable.

(** Fed to the tool directly, a record flagged as qualifying whose
    numbers do not pass the rule gets a row that says so: the labels are
    computed again, the flag is not. *)
Example flagged_record_with_other_labels :
  drop 10 (row_cells {| base := base (sample "A" "B"); ema50 := 8; qualifies := true |})
  = ["Above"; "Above"; "YES"] ∧
  drop 10 (row_cells {| base := base (sample "A" "B"); ema50 := nan; qualifies := true |})
  = ["Above"; "Below"; "YES"].
Proof. split; reflexivity. Qed.

(** ** Two decimals *)

Lemma uint_digits (d : Decimal.uint) :
  all_chars decimal_digit (NilEmpty.string_of_uint d) = true.
Proof. induction d; simpl; [done|by rewrite IHd..]. Qed.

Lemma digits_of_digits (n : Z) : all_chars decimal_digit (digits_of n) = true.
Proof.
  unfold digits_of, NilZero.string_of_uint.
  destruct (N.to_uint (Z.to_N n)) eqn:Hd; try (rewrite <- Hd; apply uint_digits).
  reflexivity.
Qed.

Lemma digits_of_not_empty (n : Z) : digits_of n ≠ EmptyString.
Proof.
  unfold digits_of, NilZero.string_of_uint.
  destruct (N.to_uint (Z.to_N n)); done.
Qed.

Lemma zeros_digits (n : nat) : all_chars decimal_digit (zeros n) = true.
Proof. induction n as [|n IH]; simpl; [done|by rewrite IH]. Qed.

Lemma zeros_length (n : nat) : String.length (zeros n) = n.
Proof. induction n as [|n IH]; simpl; [done|by rewrite IH]. Qed.

Lemma append_length (a b : string) :
  String.length (a +:+ b) = (String.length a + String.length b)%nat.
Proof. induction a as [|c a IH]; [done|]. rewrite append_cons. simpl. by rewrite IH. Qed.

Lemma substring_length (n m : nat) (s : string) :
  (n + m ≤ String.length s)%nat → String.length (substring n m s) = m.
Proof.
  revert n m. induction s as [|c s IH]; intros n m Hs.
  - simpl in Hs. destruct n, m; simpl; (done || lia).
  - simpl in Hs. destruct n as [|n]; [destruct m as [|m]|]; simpl; [done| |].
    + rewrite (IH 0%nat m); [done|lia].
    + apply IH. lia.
Qed.

(** The value of a finite number, as a rational and as a scaled integer. *)
Lemma pow2_Q (z : Z) : 0 ≤ z → (Qpower 2 z == inject_Z (2 ^ z))%Q.
Proof. intros Hz. symmetry. by apply (Zpower_Qpower 2 z). Qed.

Lemma scaled_value_Q (m : positive) (e : Z) :
  -1074 ≤ e →
  (inject_Z (Z.pos m) * Qpower 2 e * inject_Z (2 ^ 1074)
   == inject_Z (Z.pos m * 2 ^ (e + 1074)))%Q.
Proof.
  intros He. rewrite inject_Z_mult, <- !pow2_Q by lia.
  rewrite Qpower_plus by done. ring.
Qed.

Lemma below_1e21 (x : float) (v : Q) :
  finite_number x = true → PrimFloat.ltb (abs x) 1e21 = true →
  float_value x = Some v → Qle_bool (pow10 21) (Qabs v) = false.
Proof.
  intros Hfin Hlt Hv.
  apply not_true_is_false. intros Hle. apply Qle_bool_iff in Hle.
  rewrite FloatAxioms.ltb_spec, abs_spec in Hlt.
  pose proof (Prim2SF_valid x) as Hvalid.
  unfold float_value in Hv. unfold finite_number in Hfin.
  destruct (Prim2SF x) as [s|s| |s m e]; [|discriminate Hfin|discriminate Hfin|].
  all: assert (Hp21 : (pow10 21 == inject_Z (10 ^ 21))%Q) by (vm_compute; reflexivity).
  all: assert (Hpos : 0 < 2 ^ 1074) by (apply pow2_pos; lia).
  - injection Hv as <-. rewrite Hp21 in Hle. vm_compute in Hle. by apply Hle.
  - injection Hv as <-.
    apply valid_finite_inv in Hvalid as Hbounds. destruct Hbounds as (He & _).
    simpl SFabs in Hlt.
    apply SFltb_val in Hlt; [|exact Hvalid|apply Prim2SF_valid|done|done].
    assert (H21 : SFval 1074 (Prim2SF 1e21) = 10 ^ 21 * 2 ^ 1074) by (vm_compute; reflexivity).
    rewrite H21 in Hlt. unfold SFval in Hlt.
    assert (Habs : (Qabs (Qred (if s then - (inject_Z (Z.pos m) * Qpower 2 e)
                                else inject_Z (Z.pos m) * Qpower 2 e))
                    == inject_Z (Z.pos m) * Qpower 2 e)%Q).
    { rewrite Qred_correct.
      assert (0 <= inject_Z (Z.pos m) * Qpower 2 e)%Q.
      { apply Qmult_le_0_compat; [done|]. by apply Qpower_0_le. }
      destruct s; [rewrite Qabs_opp|]; by apply Qabs_pos. }
    rewrite Habs, Hp21 in Hle.
    assert (Hscaled : (inject_Z (10 ^ 21) * inject_Z (2 ^ 1074)
                       <= inject_Z (Z.pos m) * Qpower 2 e * inject_Z (2 ^ 1074))%Q).
    { apply Qmult_le_compat_r; [done|].
      change 0%Q with (inject_Z 0). rewrite <- Zle_Qle. lia. }
    rewrite scaled_value_Q, <- inject_Z_mult, <- Zle_Qle in Hscaled by lia.
    lia.
Qed.

(** X14. Two decimals: for a finite number below 10^21 in magnitude,
    [toFixed(2)] gives an optional minus sign, at least one digit, a point,
    and exactly two digits.  (From 10^21 on the number is rendered with an
    exponent instead, and NaN and the infinities by name.) *)
Theorem toFixed2_two_decimals (x : float) :
  finite_number x = true → PrimFloat.ltb (abs x) 1e21 = true →
  ∃ sign int frac,
    toFixed2 x = sign +:+ int +:+ "." +:+ frac ∧
    (sign = EmptyString ∨ sign = "-") ∧
    int ≠ EmptyString ∧ all_chars decimal_digit int = true ∧
    String.length frac = 2%nat ∧ all_chars decimal_digit frac = true.
Proof.
  intros Hfin Hlt. unfold toFixed2.
  destruct (float_value x) as [v|] eqn:Hv.
  2:{ unfold float_value, finite_number in *.
      destruct (Prim2SF x) as [s|s| |s m e]; discriminate. }
  rewrite (below_1e21 x v Hfin Hlt Hv).
  set (n := Qfloor (Qabs v * 100 + (1 # 2))).
  set (m := if (String.length (digits_of n) <=? 2)%nat
            then zeros (3 - String.length (digits_of n)) +:+ digits_of n
            else digits_of n).
  assert (Hm : all_chars decimal_digit m = true).
  { unfold m. destruct (_ <=? 2)%nat.
    - by rewrite all_chars_append, zeros_digits, digits_of_digits.
    - apply digits_of_digits. }
  assert (Hk : (3 ≤ String.length m)%nat).
  { unfold m. destruct (Nat.leb_spec (String.length (digits_of n)) 2) as [Hle|Hgt].
    - rewrite append_length, zeros_length. lia.
    - lia. }
  exists (if Qle_bool 0 v then EmptyString else "-"),
         (str_take (String.length m - 2) m), (str_drop (String.length m - 2) m).
  split; [reflexivity|]. split; [by destruct (Qle_bool 0 v); auto|].
  assert (Hint : String.length (str_take (String.length m - 2) m)
                 = (String.length m - 2)%nat).
  { apply substring_length. lia. }
  split; [|split; [|split]].
  - intros Hempty. rewrite Hempty in Hint. simpl in Hint. lia.
  - by apply all_chars_substring.
  - unfold str_drop. rewrite substring_length by lia. lia.
  - by apply all_chars_substring.
Qed.

Lemma toFixed2_two_decimals_witness :
  finite_number 1234.5 = true ∧ PrimFloat.ltb (abs 1234.5) 1e21 = true ∧
  ∃ sign int frac,
    toFixed2 1234.5 = sign +:+ int +:+ "." +:+ frac ∧
    (sign = EmptyString ∨ sign = "-") ∧
    int ≠ EmptyString ∧ all_chars decimal_digit int = true ∧
    String.length frac = 2%nat ∧ all_chars decimal_digit frac = true.
Proof.
  split; [reflexivity|]. split; [reflexivity|].
  apply (toFixed2_two_decimals 1234.5); reflexivity.
Defined.

(** ** Base64 *)

Example base64_values :
  map base64 [EmptyString; "f"; "fo"; "foo"; "foob"; "fooba"; "foobar"; "Symbol,Name"]
  = [EmptyString; "Zg=="; "Zm8="; "Zm9v"; "Zm9vYg=="; "Zm9vYmE="; "Zm9vYmFy";
     "U3ltYm9sLE5hbWU="].
Proof. vm_compute. reflexivity. Qed.

Lemma base64_char_value (n : N) :
  (n < 64)%N →
  base64_value (base64_char n) = n ∧ Ascii.eqb (base64_char n) "=" = false ∧
  has_char (base64_char n) base64_alphabet = true.
Proof.
  intros Hn.
  assert (Hall : forallb (λ k : nat,
            (base64_value (base64_char (N.of_nat k)) =? N.of_nat k)%N
            && negb (Ascii.eqb (base64_char (N.of_nat k)) "=")
            && has_char (base64_char (N.of_nat k)) base64_alphabet)
          (seq 0 64) = true) by (vm_compute; reflexivity).
  rewrite forallb_forall in Hall.
  specialize (Hall (N.to_nat n)). rewrite N2Nat.id in Hall.
  assert (Hin : In (N.to_nat n) (seq 0 64)) by (apply in_seq; lia).
  apply Hall in Hin. apply andb_true_iff in Hin as [Hin Hc].
  apply andb_true_iff in Hin as [Hv He].
  apply N.eqb_eq in Hv. apply negb_true_iff in He. done.
Qed.

Lemma byte_bound (a : ascii) : (N_of_ascii a < 256)%N.
Proof. apply N_ascii_bounded. Qed.

Lemma base64_decode_group (c0 c1 c2 c3 : ascii) (rest : string) :
  base64_decode (String c0 (String c1 (String c2 (String c3 rest))))
  = let n := (base64_value c0 * 262144 + base64_value c1 * 4096
              + base64_value c2 * 64 + base64_value c3)%N in
    if Ascii.eqb c2 "=" then String (ascii_of_N (n / 65536)) EmptyString
    else if Ascii.eqb c3 "="
    then String (ascii_of_N (n / 65536)) (String (ascii_of_N (n / 256 mod 256)) EmptyString)
    else String (ascii_of_N (n / 65536))
           (String (ascii_of_N (n / 256 mod 256))
              (String (ascii_of_N (n mod 256)) (base64_decode rest))).
Proof. reflexivity. Qed.

(** Linear arithmetic with division and remainder by constants. *)
Ltac div_lia := zify; Z.to_euclidean_division_equations; lia.

Lemma base64_round_trip_upto (k : nat) (s : string) :
  (String.length s ≤ k)%nat → base64_decode (base64 s) = s.
Proof.
  revert s. induction k as [k IH] using lt_wf_ind. intros s Hk.
  destruct s as [|a [|b [|c rest]]]; [done| | |].
  - pose proof (byte_bound a) as Ha.
    cbn [base64]. set (n := (N_of_ascii a * 65536)%N).
    rewrite base64_decode_group.
    destruct (base64_char_value (n / 262144)) as (-> & _ & _); [unfold n; div_lia|].
    destruct (base64_char_value (n / 4096 mod 64)) as (-> & _ & _); [div_lia|].
    change (Ascii.eqb "=" "=") with true. cbv zeta. cbn [base64_value].
    change (base64_value "=") with 0%N.
    replace ((n / 262144 * 262144 + n / 4096 mod 64 * 4096 + 0 * 64 + 0) / 65536)%N
      with (N_of_ascii a) by (unfold n; div_lia).
    by rewrite ascii_N_embedding.
  - pose proof (byte_bound a) as Ha. pose proof (byte_bound b) as Hb.
    cbn [base64]. set (n := (N_of_ascii a * 65536 + N_of_ascii b * 256)%N).
    rewrite base64_decode_group.
    destruct (base64_char_value (n / 262144)) as (-> & _ & _); [unfold n; div_lia|].
    destruct (base64_char_value (n / 4096 mod 64)) as (-> & _ & _); [div_lia|].
    destruct (base64_char_value (n / 64 mod 64)) as (-> & -> & _); [div_lia|].
    change (Ascii.eqb "=" "=") with true. cbv zeta.
    change (base64_value "=") with 0%N.
    replace ((n / 262144 * 262144 + n / 4096 mod 64 * 4096 + n / 64 mod 64 * 64 + 0) / 65536)%N
      with (N_of_ascii a) by (unfold n; div_lia).
    replace ((n / 262144 * 262144 + n / 4096 mod 64 * 4096 + n / 64 mod 64 * 64 + 0)
             / 256 mod 256)%N
      with (N_of_ascii b) by (unfold n; div_lia).
    by rewrite !ascii_N_embedding.
  - pose proof (byte_bound a) as Ha. pose proof (byte_bound b) as Hb.
    pose proof (byte_bound c) as Hc.
    cbn [base64].
    set (n := (N_of_ascii a * 65536 + N_of_ascii b * 256 + N_of_ascii c)%N).
    rewrite base64_decode_group.
    destruct (base64_char_value (n / 262144)) as (-> & _ & _); [unfold n; div_lia|].
    destruct (base64_char_value (n / 4096 mod 64)) as (-> & _ & _); [div_lia|].
    destruct (base64_char_value (n / 64 mod 64)) as (-> & -> & _); [div_lia|].
    destruct (base64_char_value (n mod 64)) as (-> & -> & _); [div_lia|].
    cbv zeta.
    replace ((n / 262144 * 262144 + n / 4096 mod 64 * 4096 + n / 64 mod 64 * 64 + n mod 64))%N
      with n by div_lia.
    replace (n / 65536)%N with (N_of_ascii a) by (unfold n; div_lia).
    replace (n / 256 mod 256)%N with (N_of_ascii b) by (unfold n; div_lia).
    replace (n mod 256)%N with (N_of_ascii c) by (unfold n; div_lia).
    rewrite !ascii_N_embedding.
    rewrite (IH (String.length rest)); [done| |done]. simpl in Hk. lia.
Qed.

Lemma base64_shape_upto (k : nat) (s : string) :
  (String.length s ≤ k)%nat →
  String.length (base64 s) = (4 * ((String.length s + 2) / 3))%nat ∧
  all_chars base64_text (base64 s) = true.
Proof.
  revert s. induction k as [k IH] using lt_wf_ind. intros s Hk.
  assert (Hchar : ∀ n, (n < 64)%N → base64_text (base64_char n) = true).
  { intros n Hn. unfold base64_text.
    destruct (base64_char_value n Hn) as (_ & _ & ->). done. }
  destruct s as [|a [|b [|c rest]]]; [done| | |].
  - pose proof (byte_bound a) as Ha. split; [reflexivity|].
    cbn [base64 all_chars]. rewrite !Hchar by div_lia. reflexivity.
  - pose proof (byte_bound a) as Ha. pose proof (byte_bound b) as Hb.
    split; [reflexivity|].
    cbn [base64 all_chars]. rewrite !Hchar by div_lia. reflexivity.
  - pose proof (byte_bound a) as Ha. pose proof (byte_bound b) as Hb.
    pose proof (byte_bound c) as Hc.
    destruct (IH (String.length rest)) with (s := rest) as [Hlen Hall];
      [simpl in Hk; lia|done|].
    split.
    + cbn [base64 String.length]. rewrite Hlen.
      replace (Datatypes.S (Datatypes.S (Datatypes.S (String.length rest))) + 2)%nat
        with (1 * 3 + (String.length rest + 2))%nat by lia.
      rewrite Nat.div_add_l by lia. lia.
    + cbn [base64 all_chars]. rewrite !Hchar by div_lia. exact Hall.
Qed.

(** ** The mail tool *)

(** X15. What is attached is the table: the message has one attachment,
    under the file name given, whose content is made of whole groups of
    four characters of the base64 alphabet and decodes to the content
    given, byte for byte; the message goes to the recipient given. *)
Theorem attachment_decodes_to_table (recipientEmail csvContent filename : string)
    (qualifyingCount totalStocks : float) (analysisDate : string) :
  ∃ attachment,
    Smtp.attachments (emailMessage recipientEmail csvContent filename
                        qualifyingCount totalStocks analysisDate) = [attachment] ∧
    Smtp.filename attachment = filename ∧
    base64_decode (Smtp.content attachment) = csvContent ∧
    String.length (Smtp.content attachment)
    = (4 * ((String.length csvContent + 2) / 3))%nat ∧
    all_chars base64_text (Smtp.content attachment) = true ∧
    Smtp.to (emailMessage recipientEmail csvContent filename
               qualifyingCount totalStocks analysisDate) = recipientEmail.
Proof.
  eexists. split; [reflexivity|]. simpl.
  destruct (base64_shape_upto (String.length csvContent) csvContent) as [Hlen Hall]; [done|].
  split; [done|]. split; [|done].
  by apply (base64_round_trip_upto (String.length csvContent)).
Qed.

Section MailFacts.
Context {World : Type}.
Context (z_email : string → bool).
Context (z_number : float → bool).
Context (sendEmail : Smtp.Message → World → (thrown + Smtp.Result) * World).

(** X16. The mail tool does not throw.  An input that does not pass the
    schema (a recipient that is no e-mail address, a count that is no
    number) is answered by a validation error, and nothing is sent.  For
    any other input [sendEmail] is called with the message; the tool
    reports success exactly when [sendEmail] resolves, and then passes on
    what it resolved to; when [sendEmail] throws, it reports the failure
    with nobody accepted, the recipient rejected and an error text. *)
Theorem mail_tool_reports_outcome (recipientEmail csvContent filename : string)
    (qualifyingCount totalStocks : float) (analysisDate : string) (w : World) :
  (sendStockEmail_inputSchema z_email z_number recipientEmail qualifyingCount totalStocks
   = false ∧
   sendStockEmailTool z_email z_number sendEmail recipientEmail csvContent filename
     qualifyingCount totalStocks analysisDate w = (Returned ValidationError, w)) ∨
  (z_email recipientEmail = true ∧ z_number qualifyingCount = true ∧
   z_number totalStocks = true ∧
   ∃ answer out w',
     sendEmail (emailMessage recipientEmail csvContent filename
                  qualifyingCount totalStocks analysisDate) w = (answer, w') ∧
     sendStockEmailTool z_email z_number sendEmail recipientEmail csvContent filename
       qualifyingCount totalStocks analysisDate w = (Returned (Output out), w') ∧
     (success out = true ↔ ∃ result, answer = inr result) ∧
     (∀ result, answer = inr result →
        messageId out = Smtp.messageId result ∧ accepted out = Smtp.accepted result ∧
        rejected out = Smtp.rejected result ∧ error out = None) ∧
     (∀ e, answer = inl e →
        success out = false ∧ messageId out = None ∧ accepted out = [] ∧
        rejected out = [recipientEmail] ∧
        error out = Some match e with
                         | ErrorObject message => message
                         | OtherValue => "Unknown error occurred"
                         end)).
Proof.
  unfold sendStockEmailTool.
  destruct (sendStockEmail_inputSchema _ _ _ _ _) eqn:Hschema; [right|by left].
  unfold sendStockEmail_inputSchema in Hschema.
  apply andb_true_iff in Hschema as [[Hemail Hcount]%andb_true_iff Htotal].
  split; [done|]. split; [done|]. split; [done|].
  unfold bind, ret, sendStockEmail_execute.
  destruct (sendEmail _ w) as [[e|result] w'] eqn:Hsend.
  - eexists (inl e), _, w'. split; [reflexivity|]. split; [reflexivity|]. simpl.
    split; [split; [done|by intros [? ?]]|]. split; [done|].
    by intros ? [= <-].
  - eexists (inr result), _, w'. split; [reflexivity|]. split; [reflexivity|]. simpl.
    split; [split; [eauto|done]|]. split; [|done].
    by intros ? [= <-].
Qed.
End MailFacts.

Lemma mail_tool_reports_outcome_witness :
  sendStockEmailTool with_at_sign not_nan accepting "nobody" "Symbol" "a.csv" 0 0
    "2025-09-10" tt
  = (Returned ValidationError, tt) ∧
  ∃ out,
    sendStockEmailTool with_at_sign not_nan refusing "user@example.org" "Symbol" "a.csv" 0 0
      "2025-09-10" tt
    = (Returned (Output out), tt) ∧
    success out = false ∧ rejected out = ["user@example.org"] ∧
    error out = Some "connection refused".
Proof.
  split.
  - destruct (mail_tool_reports_outcome with_at_sign not_nan accepting
                "nobody" "Symbol" "a.csv" 0 0 "2025-09-10" tt)
      as [[_ Hrefused]|[Hemail _]]; [exact Hrefused|discriminate Hemail].
  - destruct (mail_tool_reports_outcome with_at_sign not_nan refusing
                "user@example.org" "Symbol" "a.csv" 0 0 "2025-09-10" tt)
      as [[Hschema _]|(_ & _ & _ & answer & out & w' & Hsend & Hrun & _ & _ & Hthrown)];
      [discriminate Hschema|].
    injection Hsend as <- <-.
    destruct (Hthrown _ eq_refl) as (Hs & _ & _ & Hr & He).
    exists out. split; [exact Hrun|]. split; [exact Hs|]. split; [exact Hr|exact He].
Defined.

Example accepted_mail :
  sendStockEmailTool with_at_sign not_nan accepting "user@example.org" "Symbol" "a.csv" 0 0
    "2025-09-10" tt
  = (Returned (Output {| success := true; messageId := Some "id-1";
                         accepted := ["user@example.org"]; rejected := [];
                         error := None |}), tt).
Proof. vm_compute. reflexivity. Qed.

(** ** Reading back, once more *)

Lemma rows_read_back (qualifying : list StockWithEMA) :
  Forall readable qualifying →
  read_table (join (String newline EmptyString)
                (join "," headers :: map (λ stock, join "," (row_cells stock)) qualifying))
  = headers :: map row_values qualifying.
Proof.
  intros Hq. apply read_joined_lines; [|done].
  constructor; [by apply joined_cells_line; [apply headers_read|]|].
  induction Hq as [|stock rest Hstock Hrest IH]; [constructor|].
  rewrite !map_cons. constructor; [|done].
  by apply joined_cells_line; [apply row_reads|].
Qed.

(** X18. Tables of readable records are not ambiguous: when two record
    lists, whose qualifying records are readable, have the same table,
    their qualifying records have the same values, row by row. *)
Theorem readable_tables_are_unambiguous (stocks1 stocks2 : list StockWithEMA) :
  Forall readable (filter (λ stock, qualifies stock = true) stocks1) →
  Forall readable (filter (λ stock, qualifies stock = true) stocks2) →
  generateCSV stocks1 = generateCSV stocks2 →
  map row_values (filter (λ stock, qualifies stock = true) stocks1)
  = map row_values (filter (λ stock, qualifies stock = true) stocks2).
Proof.
  intros H1 H2 Hsame.
  pose proof (rows_read_back _ H1) as R1. pose proof (rows_read_back _ H2) as R2.
  change (join (String newline EmptyString) _) with (generateCSV stocks1) in R1.
  change (join (String newline EmptyString) _) with (generateCSV stocks2) in R2.
  rewrite Hsame, R2 in R1. by injection R1.
Qed.

Lemma readable_tables_are_unambiguous_witness :
  Forall readable (filter (λ stock, qualifies stock = true) [sample "A" "B, C"]) ∧
  generateCSV [sample "A" "B, C"]
  = generateCSV [sample "A" "B, C";
                 {| base := base (sample "Z" "Y"); ema50 := 10; qualifies := false |}] ∧
  map row_values (filter (λ stock, qualifies stock = true) [sample "A" "B, C"])
  = map row_values
      (filter (λ stock, qualifies stock = true)
         [sample "A" "B, C";
          {| base := base (sample "Z" "Y"); ema50 := 10; qualifies := false |}]).
Proof.
  assert (H1 : Forall readable (filter (λ stock, qualifies stock = true) [sample "A" "B, C"]))
    by (repeat constructor).
  assert (Hsame : generateCSV [sample "A" "B, C"]
                  = generateCSV [sample "A" "B, C";
                       {| base := base (sample "Z" "Y"); ema50 := 10; qualifies := false |}])
    by reflexivity.
  split; [exact H1|]. split; [exact Hsame|].
  apply (readable_tables_are_unambiguous _ _ H1); [repeat constructor|exact Hsame].
Defined.

(** ** Where the records come from *)

Section Origin.
Context {World : Type}.
Context (http_chart : string → option Z → M (World := World) http_response).
Context (iso_date : float → option string).

Lemma process_analysed (sym : string) (w : World) :
  ∃ added w',
    (∀ acc, process http_chart iso_date sym acc w = (Returned (acc ++ added)%list, w')) ∧
    Forall (analysed http_chart iso_date [sym]) added.
Proof.
  destruct (fetchStockFromYahoo_returns http_chart iso_date sym w)
    as (latest & w1 & Hlatest).
  unfold process, bind. rewrite Hlatest.
  destruct latest as [stockData|].
  - destruct (fetchHistoricalPrices_returns http_chart sym 100 w1) as (hist & w2 & Hhist).
    rewrite Hhist. case_decide as Hshort.
    + exists [], w2. split; [|constructor]. intros acc. by rewrite app_nil_r.
    + eexists [_], w2. split; [intros acc; reflexivity|].
      constructor; [|constructor].
      exists sym, w, w1, w2, hist. simpl.
      split; [apply list_elem_of_here|]. split; [done|]. split; [done|].
      split; [lia|done].
  - exists [], w1. split; [|constructor]. intros acc. by rewrite app_nil_r.
Qed.

Lemma analysed_more (s1 s2 : list string) (record : StockWithEMA) :
  s1 ⊆ s2 → analysed http_chart iso_date s1 record → analysed http_chart iso_date s2 record.
Proof.
  intros Hsub (sym & w0 & w1 & w2 & hist & Hin & Hrest).
  exists sym, w0, w1, w2, hist. split; [by apply Hsub|done].
Qed.

Lemma for_of_analysed (symbols : list string) (w : World) :
  ∃ added w',
    (∀ acc, for_of http_chart iso_date symbols acc w = (Returned (acc ++ added)%list, w')) ∧
    Forall (analysed http_chart iso_date symbols) added.
Proof.
  revert w. induction symbols as [|sym rest IH]; intros w.
  - exists [], w. split; [|constructor]. intros acc. by rewrite app_nil_r.
  - destruct (process_analysed sym w) as (first & w1 & Hfirst & Hfa).
    destruct (IH w1) as (others & w' & Hothers & Hoa).
    exists (first ++ others)%list, w'. split.
    + intros acc. simpl. unfold bind. rewrite Hfirst, Hothers. by rewrite <- app_assoc.
    + apply Forall_app. split.
      * eapply Forall_impl; [exact Hfa|]. intros record. apply analysed_more.
        intros x ->%list_elem_of_singleton. apply list_elem_of_here.
      * eapply Forall_impl; [exact Hoa|]. intros record. apply analysed_more.
        intros x Hx. by apply list_elem_of_further.
Qed.

(** X19. No record without data: every record of the report was made for
    one of the symbols given, from a bar fetched for that symbol and a
    history of at least 50 prices fetched for it; its EMA is the last
    entry of the EMA series of that history and its flag is what the rule
    gives. *)
Theorem every_record_was_analysed (symbols : list string) (w : World) :
  ∃ report w',
    execute http_chart iso_date symbols w = (Returned report, w') ∧
    Forall (analysed http_chart iso_date symbols) (stocks report).
Proof.
  destruct (for_of_analysed symbols w) as (added & w' & Hrun & Hall).
  eexists _, w'. unfold execute, bind. rewrite (Hrun []). simpl.
  split; [reflexivity|]. exact Hall.
Qed.

(** Where a fetched bar has its name, its date and its exchange from. *)
Lemma fetched_bar_origin (sym : string) (w w' : World) (bar : StockData) :
  fetchStockFromYahoo http_chart iso_date sym w = (Returned (Some bar), w') →
  ∃ result t,
    http_chart (yahooSymbol sym) None w = (Returned (OkJson (Some result)), w') ∧
    iso_date t = Some (date bar) ∧
    name bar = or_string (longName result) (or_string (shortName result) sym) ∧
    exchange bar = (if includes sym ".BO" then "BSE" else "NSE").
Proof.
  unfold fetchStockFromYahoo, try_catch, bind.
  destruct (http_chart (yahooSymbol sym) None w) as [[|[|[result|]]] w1];
    try (unfold ret; congruence).
  destruct (iso_date _) as [day|] eqn:Hday; unfold ret, throw; [|congruence].
  intros [= <- <-]. exists result. eexists. split; [done|]. split; [exact Hday|done].
Qed.

Lemma or_string_quotable (a : option string) (b : string) :
  (∀ n, a = Some n → quotable n) → quotable b → quotable (or_string a b).
Proof. intros Ha Hb. destruct a as [[|c s]|]; simpl; auto. Qed.

(** X20. The table of a batch reads back under conditions on the outside
    world alone: when the symbols given hold no comma, double quote or
    line feed, the dates that the clock conversion yields neither, and the
    names that the provider sends no double quote, reading the table made
    from the report gives the header and then the values of each
    qualifying record, in order. *)
Theorem batch_table_reads_back (symbols : list string) (w : World) :
  Forall plain symbols →
  (∀ t day, iso_date t = Some day → plain day) →
  (∀ s days w0 result w1,
     http_chart s days w0 = (Returned (OkJson (Some result)), w1) → clean_names result) →
  ∃ report w',
    execute http_chart iso_date symbols w = (Returned report, w') ∧
    read_table (generateCSV (stocks report))
    = headers :: map row_values (filter (λ stock, qualifies stock = true) (stocks report)).
Proof.
  intros Hsymbols Hdates Hnames.
  destruct (for_of_analysed symbols w) as (added & w' & Hloop & Hall).
  eexists _, w'. unfold execute, bind. rewrite (Hloop []). simpl.
  split; [reflexivity|].
  set (report_stocks := added) in *.
  assert (Hreadable : Forall readable report_stocks).
  { eapply Forall_impl; [exact Hall|].
    intros record (sym & w0 & w1 & w2 & hist & Hin & Hbar & _).
    destruct (fetched_bar_origin sym w0 w1 (base record) Hbar)
      as (result & t & Hreq & Hday & Hname & Hexchange).
    pose proof (fetchStockFromYahoo_symbol http_chart iso_date sym w0 w1 _ Hbar) as Hsym.
    destruct (Hnames _ _ _ _ _ Hreq) as [Hlong Hshort].
    rewrite Forall_forall in Hsymbols.
    assert (Hplain : plain sym) by (by apply Hsymbols).
    split; [by rewrite Hsym|]. split.
    { rewrite Hname. apply or_string_quotable; [done|].
      apply or_string_quotable; [done|]. by destruct Hplain. }
    split; [rewrite Hexchange; by destruct (includes sym ".BO")|].
    by apply (Hdates t). }
  assert (Hq : Forall readable (filter (λ stock, qualifies stock = true) report_stocks)).
  { apply Forall_forall. intros stock [_ Hin]%list_elem_of_filter.
    rewrite Forall_forall in Hreadable. by apply Hreadable. }
  cbn [stocks]. by apply rows_read_back.
Qed.

(** X21. A missing low counts as zero.  When the low of the last bar is
    null or absent, the bar fetched has low 0, so that it qualifies
    against every EMA that is above zero and below its close. *)
Theorem missing_low_counts_as_zero (sym : string) (w w' : World) (bar : StockData)
    (result : chart_result) (currentEMA50 : float) :
  http_chart (yahooSymbol sym) None w = (Returned (OkJson (Some result)), w') →
  fetchStockFromYahoo http_chart iso_date sym w = (Returned (Some bar), w') →
  (at_index (q_low result) (Z.of_nat (length (q_close result)) - 1) = None ∨
   at_index (q_low result) (Z.of_nat (length (q_close result)) - 1) = Some None) →
  low bar = 0%float ∧
  (qualifies_rule bar currentEMA50 = true ↔
   PrimFloat.ltb 0 currentEMA50 = true ∧ gtb (close bar) currentEMA50 = true).
Proof.
  intros Hreq Hbar Hlow.
  assert (Hzero : low bar = 0%float).
  { revert Hbar. unfold fetchStockFromYahoo, try_catch, bind. rewrite Hreq.
    destruct (iso_date _) as [day|]; unfold ret, throw; [|congruence].
    intros [= <-]. simpl. by destruct Hlow as [-> | ->]. }
  split; [done|]. unfold qualifies_rule. rewrite Hzero. apply andb_true_iff.
Qed.
End Origin.


Lemma batch_table_reads_back_witness :
  Forall plain ["RELIANCE"; "TCS.BO"] ∧
  (∀ t day, fixed_day t = Some day → plain day) ∧
  ∃ report w',
    execute steady fixed_day ["RELIANCE"; "TCS.BO"] tt = (Returned report, w') ∧
    read_table (generateCSV (stocks report))
    = headers :: map row_values (filter (λ stock, qualifies stock = true) (stocks report)).
Proof.
  assert (Hsymbols : Forall plain ["RELIANCE"; "TCS.BO"]) by (repeat constructor).
  assert (Hdates : ∀ t day, fixed_day t = Some day → plain day).
  { intros t day [= <-]. repeat constructor. }
  split; [exact Hsymbols|]. split; [exact Hdates|].
  apply (batch_table_reads_back steady fixed_day ["RELIANCE"; "TCS.BO"] tt Hsymbols Hdates).
  intros s [days|] w0 result w1 [= <- _]; split; intros n [= <-]; reflexivity.
Defined.

Example steady_table :
  match execute steady fixed_day ["RELIANCE"; "TCS.BO"] tt with
  | (Returned report, _) => read_table (generateCSV (stocks report))
  | (Threw, _) => []
  end
  = [ headers;
      ["RELIANCE"; "Acme Ltd"; "NSE"; "2025-09-10"; "10.00"; "12.00"; "9.00"; "11.00";
       "1000"; "10.00"; "Below"; "Above"; "YES"];
      ["TCS.BO"; "Acme Ltd"; "BSE"; "2025-09-10"; "10.00"; "12.00"; "9.00"; "11.00";
       "1000"; "10.00"; "Below"; "Above"; "YES"] ].
Proof. vm_compute. reflexivity. Qed.

Lemma missing_low_counts_as_zero_witness :
  ∃ bar,
    fetchStockFromYahoo scripted fixed_day "A" [Returned (OkJson (Some bar_without_low))]
    = (Returned (Some bar), []) ∧
    low bar = 0%float ∧ qualifies_rule bar 10 = true.
Proof.
  eexists. split; [reflexivity|].
  destruct (missing_low_counts_as_zero scripted fixed_day "A"
              [Returned (OkJson (Some bar_without_low))] [] _ bar_without_low 10
              eq_refl eq_refl (or_intror eq_refl)) as [Hlow Hrule].
  split; [exact Hlow|]. apply Hrule. split; reflexivity.
Defined.
